(** * DWA_path_planner: the UI-side planning code, checked against its specification

    The repository is a PyQt desktop tool.  The files that are modelled here:

    - [ui/main_window.py]              ([MainWindow]: planner selection, guards, distance
                                        loop, corner and obstacle handlers, export)
    - [ui/widgets/polygon_editor.py]   ([PolygonEditorWidget]: corner list, area)
    - [ui/widgets/map_widget.py]       ([MapWidget]: corner and marker lists)
    - [ui/widgets/parameter_panel.py]  ([ParameterPanel]: the parameter dict)
    - [ui/dialogs/obstacle_manager.py] ([ObstacleManagerDialog])
    - [core/geometry/__init__.py]      ([CoordinateTransform], [RotatedCoordinateSystem])
    - [sensors/sensor_fusion.py]       ([SensorFusionEngine])
    - [sensors/camera_model.py]        ([CameraModel], [CameraCalculator])

    Conventions.  A Python [float] is read as a real number ([R]): [math.cos],
    [math.sqrt], [math.radians] and [np.pi] are the functions and the constant of
    the Standard Library's reals, and binary64 rounding is outside the model.
    The exception is [sensors/sensor_fusion.py], where the end of an interval
    depends on the rounding: its floats are binary64 values (module
    [Binary64]).  Python lists are [list]s; a list object that two owners can
    reach lives in an explicit store (module [Store]).  The planners themselves
    ([CoveragePlanner], [AStarPlanner], [RRTPlanner], [CoordinateTransformer])
    are imported by these files but are not among them; where a statement
    needs one of them it is modelled from the specification, and the comment of
    the definition says so.

    The file has two parts: the model (definitions only), then the theorems. *)

From Stdlib Require Import Reals Lra Lia ZArith List String Bool Permutation.
From stdpp Require Import base gmap list sorting.

#[local] Open Scope string_scope.
#[local] Open Scope list_scope.
#[local] Open Scope R_scope.

(* ========================================================================= *)
(** * Part I: the model *)
(* ========================================================================= *)

(** A Python [float]. *)
Definition float : Type := R.

(** Comparisons of floats are decided ([==], [<=], [<] in the source). *)
#[export] Instance float_eq_dec : EqDecision R := Req_dec_T.
#[export] Instance float_le_dec (a b : R) : Decision (a <= b) := Rle_dec a b.
#[export] Instance float_lt_dec (a b : R) : Decision (a < b) := Rlt_dec a b.

(** A corner or waypoint: the tuple [(lat, lon)], in degrees. *)
Definition LatLon : Type := (float * float)%type.


(* ------------------------------------------------------------------------- *)
(** ** Binary64: the arithmetic of Python's [float] where its rounding matters *)
(* ------------------------------------------------------------------------- *)

(** [sensors/sensor_fusion.py] normalises an angle with [%], and whether the
    result can reach [+pi] is decided by the rounding of binary64.  That file
    is therefore modelled on the floats themselves: IEEE 754 binary64 with
    round-to-nearest, ties-to-even, which is what CPython's [float] does.

    Every finite binary64 value is an integer multiple of [2^-1074], so a
    finite value is stored as that integer.  The sign of a zero is not kept:
    no comparison sees it. *)
Module Binary64.

Inductive f64 :=
| finite (n : Z)            (* the value [n * 2^-1074] *)
| inf (negative : bool)
| nan.

Section Arithmetic.
#[local] Open Scope Z_scope.

(** One, in units of [2^-1074]. *)
Definition scale : Z := 2 ^ 1074.

(** [2^1024], the first magnitude that rounds to an infinity. *)
Definition overflow : Z := 2 ^ 2098.

(** The integer nearest to [a / b] for [b > 0], ties to even. *)
Definition rne_div (a b : Z) : Z :=
  let q := a / b in
  match 2 * (a mod b) ?= b with
  | Lt => q
  | Gt => q + 1
  | Eq => if Z.even q then q else q + 1
  end.

(** The exponent of the last place of [a / b], for [a >= 0] and [b > 0]: a
    significand has 53 bits, and below [2^53] units the spacing is one
    unit (the subnormal numbers and the first binade). *)
Definition ulp_exp (a b : Z) : Z := Z.max 0 (Z.log2 (a / b) - 52).

(** [a / b] units, [a >= 0] and [b > 0], rounded to 53 bits. *)
Definition round_mag (a b : Z) : Z :=
  let k := ulp_exp a b in
  rne_div a (b * 2 ^ k) * 2 ^ k.

(** The binary64 value nearest to [a / b] units, [b > 0]. *)
Definition round (a b : Z) : f64 :=
  let n := Z.sgn a * round_mag (Z.abs a) b in
  if overflow <=? Z.abs n then inf (a <? 0) else finite n.

(** Which integers are binary64 values: at most 53 significant bits. *)
Definition representable (n : Z) : Prop :=
  forall k, 0 <= k -> 2 ^ (k + 52) <= Z.abs n -> (2 ^ k | n).

(** The float [m * 2^e]. *)
Definition of_mantissa (m e : Z) : f64 := finite (m * 2 ^ (e + 1074)).

(** [-x]. *)
Definition fneg (x : f64) : f64 :=
  match x with
  | finite n => finite (- n)
  | inf s => inf (negb s)
  | nan => nan
  end.

(** [x + y]. *)
Definition fadd (x y : f64) : f64 :=
  match x, y with
  | finite a, finite b => round (a + b) 1
  | finite _, inf s => inf s
  | inf s, finite _ => inf s
  | inf s, inf s' => if Bool.eqb s s' then inf s else nan
  | _, _ => nan
  end.

(** [x - y]. *)
Definition fsub (x y : f64) : f64 := fadd x (fneg y).

(** [x * y]. *)
Definition fmul (x y : f64) : f64 :=
  match x, y with
  | finite a, finite b => round (a * b) scale
  | finite a, inf s => if a =? 0 then nan else inf (xorb s (a <? 0))
  | inf s, finite a => if a =? 0 then nan else inf (xorb s (a <? 0))
  | inf s, inf s' => inf (xorb s s')
  | _, _ => nan
  end.

(** [x / y] for a divisor that is not zero (Python raises
    [ZeroDivisionError] for a zero divisor). *)
Definition quotient (x y : f64) : f64 :=
  match x, y with
  | finite a, finite b => round (Z.sgn b * a * scale) (Z.abs b)
  | finite _, inf _ => finite 0
  | inf s, finite b => inf (xorb s (b <? 0))
  | _, _ => nan
  end.

(** C's [fmod(x, y)]: the exact remainder, with the sign of [x]. *)
Definition fmod (x y : f64) : f64 :=
  match x, y with
  | finite a, finite b => if b =? 0 then nan else finite (Z.rem a b)
  | finite a, inf _ => finite a
  | _, _ => nan
  end.

(** [x < 0]. *)
Definition is_neg (x : f64) : bool :=
  match x with
  | finite n => n <? 0
  | inf s => s
  | nan => false
  end.

(** [x == 0]. *)
Definition is_zero (x : f64) : bool :=
  match x with
  | finite n => n =? 0
  | _ => false
  end.

(** Python's [vx % wx] on floats, for [wx] that is not zero (CPython's
    [float_rem]; [np.float64] operands give the same): [fmod], moved by [wx]
    when its sign differs from that of [wx]; a zero remainder is returned as
    zero. *)
Definition py_mod (vx wx : f64) : f64 :=
  let m := fmod vx wx in
  if is_zero m then finite 0
  else if negb (Bool.eqb (is_neg wx) (is_neg m)) then fadd m wx
  else m.

(** [x <= y] and [x < y]; a comparison with NaN is false. *)
Definition fle (x y : f64) : bool :=
  match x, y with
  | finite a, finite b => a <=? b
  | finite _, inf s => negb s
  | inf s, finite _ => s
  | inf s, inf s' => s || negb s'
  | _, _ => false
  end.

Definition flt (x y : f64) : bool :=
  match x, y with
  | finite a, finite b => a <? b
  | finite _, inf s => negb s
  | inf s, finite _ => s
  | inf s, inf s' => s && negb s'
  | _, _ => false
  end.

(** [0.0], [1.0], [2.0], [3.0], [10.0], [100.0]. *)
Definition zero : f64 := finite 0.
Definition one : f64 := of_mantissa 1 0.
Definition two : f64 := of_mantissa 2 0.
Definition three : f64 := of_mantissa 3 0.
Definition ten : f64 := of_mantissa 10 0.
Definition hundred : f64 := of_mantissa 100 0.

(** [0.1]: the float [0x1.999999999999ap-4]. *)
Definition tenth : f64 := of_mantissa 3602879701896397 (-55).

(** [np.pi]: the float [3.141592653589793], [0x1.921fb54442d18p+1]. *)
Definition pi_units : Z := 7074237752028440 * 2 ^ 1023.
Definition pi : f64 := finite pi_units.

(** The float just below [-np.pi]: [-3.1415926535897936],
    [-0x1.921fb54442d19p+1]. *)
Definition below_minus_pi : f64 := of_mantissa (-7074237752028441) (-51).

End Arithmetic.

End Binary64.
(* ------------------------------------------------------------------------- *)
(** ** Python objects that can be shared: a store of references *)
(* ------------------------------------------------------------------------- *)

Module Store.

(** The identity of a mutable Python object ([id(obj)]). *)
Definition ref : Type := positive.

(** The objects of one class that are alive, by identity. *)
Abbreviation store V := (gmap ref V).

(** A reference no live object has. *)
Definition new_ref {V} (s : store V) : ref := fresh (dom s).

(** Creating an object ([VehicleState(...)], [l.copy()], [l[:k]], [[]]): the
    store grows by one object, whose reference is the result. *)
Definition alloc {V} (v : V) (s : store V) : store V * ref :=
  (<[new_ref s := v]> s, new_ref s).

(** In-place update of the object behind [r] ([l.append(x)], [l.clear()],
    [obj.field = v]). *)
Definition update {V} (r : ref) (f : V -> V) (s : store V) : store V :=
  match s !! r with
  | Some v => <[r := f v]> s
  | None => s
  end.

End Store.

(* ------------------------------------------------------------------------- *)
(** ** Planar arithmetic of the UI: area and distance *)
(* ------------------------------------------------------------------------- *)

Module Geo.

(** [math.radians]. *)
Definition radians (deg : float) : float := deg * (PI / 180).

(** Python's [sum(xs)]: starts from [0] and adds from the left. *)
Definition py_sum (xs : list float) : float := fold_left Rplus xs 0.

(** The nested [latlon_to_xy] of [PolygonEditorWidget._calculate_area]
    (polygon_editor.py, lines 721-724). *)
Definition latlon_to_xy (center_lat center_lon lat lon : float) : float * float :=
  ((lon - center_lon) * 111111.0 * cos (radians center_lat),
   (lat - center_lat) * 111111.0).

(** [polygon_xy[i]]: the loop only reads indices below [len(polygon_xy)]. *)
Definition item (l : list (float * float)) (i : nat) : float * float :=
  nth i l (0, 0).

(** One turn of the shoelace loop (lines 731-734):
    [area += p[i][0] * p[j][1]; area -= p[j][0] * p[i][1]] with [j = (i + 1) % n]. *)
Definition shoelace_step (p : list (float * float)) (n : nat) (area : float) (i : nat)
  : float :=
  let j := ((i + 1) mod n)%nat in
  area + fst (item p i) * snd (item p j) - fst (item p j) * snd (item p i).

(** [for i in range(n): ...] starting from [area = 0.0]. *)
Definition shoelace (p : list (float * float)) : float :=
  let n := length p in
  fold_left (shoelace_step p n) (seq 0 n) 0.0.

(** [PolygonEditorWidget._calculate_area] (polygon_editor.py, lines 709-736),
    with [MIN_CORNERS_FOR_POLYGON = 3]. *)
Definition _calculate_area (corners : list LatLon) : float :=
  if (length corners <? 3)%nat then 0.0
  else
    let center_lat := py_sum (map fst corners) / INR (length corners) in
    let center_lon := py_sum (map snd corners) / INR (length corners) in
    let polygon_xy :=
      map (fun c => latlon_to_xy center_lat center_lon (fst c) (snd c)) corners in
    Rabs (shoelace polygon_xy) / 2.0.

(** The body of the total-distance loop of [MainWindow.on_preview_paths]
    (main_window.py, lines 763-768; the same lines are in
    [_auto_generate_path], 523-528). *)
Definition segment_distance (p1 p2 : LatLon) : float :=
  let '(lat1, lon1) := p1 in
  let '(lat2, lon2) := p2 in
  let dlat := (lat2 - lat1) * 111111.0 in
  let dlon := (lon2 - lon1) * 111111.0 * cos (radians ((lat1 + lat2) / 2)) in
  sqrt (dlat ^ 2 + dlon ^ 2).

(** [path[i]] for an index in range. *)
Definition waypoint (path : list LatLon) (i : nat) : LatLon := nth i path (0, 0).

(** [total_distance = 0.0; for i in range(len(path) - 1): total_distance += ...]. *)
Definition total_distance (path : list LatLon) : float :=
  fold_left
    (fun total i => total + segment_distance (waypoint path i) (waypoint path (i + 1)))
    (seq 0 (length path - 1)) 0.0.

(** The specification's projection (section 4.1), for comparison with the code:
    [x = (lon - lon0) in radians * R * cos(lat0 in radians)],
    [y = (lat - lat0) in radians * R]. *)
Definition spec_geo_to_local (R0 lat0 lon0 lat lon : float) : float * float :=
  (radians (lon - lon0) * R0 * cos (radians lat0), radians (lat - lat0) * R0).

(** The two radii the specification allows. *)
Definition mean_radius : float := 6371000.
Definition equatorial_radius : float := 6378137.

(** The radius for which one degree of latitude is [111111.0] metres. *)
Definition effective_radius : float := 111111.0 * 180 / PI.

(** Euclidean distance in the plane. *)
Definition dist2 (p q : float * float) : float :=
  sqrt ((fst q - fst p) ^ 2 + (snd q - snd p) ^ 2).

(** A cyclic rotation of a vertex list: start from vertex [k]. *)
Definition rotate_start {A} (k : nat) (l : list A) : list A := skipn k l ++ firstn k l.

(** The shoelace term of one edge: [a.x * b.y - b.x * a.y]. *)
Definition cross (a b : float * float) : float := fst a * snd b - fst b * snd a.

(** The sum of [cross] over the consecutive pairs of a list. *)
Fixpoint chain_sum (l : list (float * float)) : float :=
  match l with
  | a :: (b :: _) as t => cross a b + chain_sum t
  | _ => 0
  end.

(** The same sum over the closed polygon: the last vertex is joined to the first. *)
Definition closed_sum (l : list (float * float)) : float :=
  match l with
  | [] => 0
  | a :: _ => chain_sum (l ++ [a])
  end.

(** The sum of [segment_distance] over the consecutive pairs of a path. *)
Fixpoint path_length (path : list LatLon) : float :=
  match path with
  | a :: (b :: _) as t => segment_distance a b + path_length t
  | _ => 0
  end.

(** [acc = 0; for i in range(n): acc += f(i)]. *)
Definition loop_sum (f : nat -> float) (n : nat) : float :=
  fold_left (fun acc i => acc + f i) (seq 0 n) 0.

(** A triangle near the default map centre. *)
Definition triangle : list LatLon :=
  [(23.70, 120.41); (23.71, 120.41); (23.71, 120.42)].

End Geo.

(* ------------------------------------------------------------------------- *)
(** ** [ui/main_window.py] *)
(* ------------------------------------------------------------------------- *)

Module MainWindow.

(** [MIN_CORNERS = 3], [MAX_CORNERS = 100]. *)
Definition MIN_CORNERS : nat := 3.
Definition MAX_CORNERS : nat := 100.

(** [self.flight_params]: a dict whose keys are fixed by [init_variables];
    [on_parameters_changed] only overwrites values. *)
Record FlightParams := {
  altitude : float;
  speed : float;
  angle : float;
  spacing : float;
  yaw_speed : float;
  subdivisions : Z;
  region_spacing : float;
  turn_radius : float
}.

(** The state of [MainWindow] that the planning code reads and writes. *)
Record t := {
  corners : list LatLon;
  waypoints : list LatLon;
  current_algorithm : string;
  current_vehicle_type : string;
  flight_params : FlightParams
}.

(** [init_variables]. *)
Definition init_variables : t := {|
  corners := [];
  waypoints := [];
  current_algorithm := "grid";
  current_vehicle_type := "多旋翼";
  flight_params := {|
    altitude := 50.0; speed := 10.0; angle := 0.0; spacing := 20.0;
    yaw_speed := 60.0; subdivisions := 1; region_spacing := 3.0;
    turn_radius := 50.0 |}
|}.

(** The [params] dict of [on_parameters_changed]: a key that is absent is [None]. *)
Record ParamUpdate := {
  p_algorithm : option string;
  p_vehicle_type : option string;
  p_altitude : option float;
  p_speed : option float;
  p_angle : option float;
  p_spacing : option float;
  p_yaw_speed : option float;
  p_subdivisions : option Z;
  p_region_spacing : option float
}.

(** [if key in params: self.flight_params[key] = params[key]]. *)
Definition overwrite {A} (new : option A) (old : A) : A :=
  match new with Some v => v | None => old end.

(** [on_parameters_changed] (lines 613-634). *)
Definition on_parameters_changed (params : ParamUpdate) (w : t) : t :=
  let fp := flight_params w in
  {| corners := corners w;
     waypoints := waypoints w;
     current_algorithm := overwrite (p_algorithm params) (current_algorithm w);
     current_vehicle_type := overwrite (p_vehicle_type params) (current_vehicle_type w);
     flight_params := {|
       altitude := overwrite (p_altitude params) (altitude fp);
       speed := overwrite (p_speed params) (speed fp);
       angle := overwrite (p_angle params) (angle fp);
       spacing := overwrite (p_spacing params) (spacing fp);
       yaw_speed := overwrite (p_yaw_speed params) (yaw_speed fp);
       subdivisions := overwrite (p_subdivisions params) (subdivisions fp);
       region_spacing := overwrite (p_region_spacing params) (region_spacing fp);
       turn_radius := turn_radius fp |} |}.

(** [on_corner_added] (lines 565-583): the corner list after a map click. *)
Definition on_corner_added (lat lon : float) (w : t) : t :=
  if (MAX_CORNERS <=? length (corners w))%nat then w
  else {| corners := corners w ++ [(lat, lon)];
          waypoints := waypoints w;
          current_algorithm := current_algorithm w;
          current_vehicle_type := current_vehicle_type w;
          flight_params := flight_params w |}.

(** [ScanPattern.GRID], [ScanPattern.SPIRAL]. *)
Inductive ScanPattern := GRID | SPIRAL.

(** The keyword arguments of a [CoverageParameters(...)] call.  An argument the
    call site leaves out is [None]: the dataclass default applies. *)
Record CoverageParameters := {
  cp_spacing : float;
  cp_angle : float;
  cp_pattern : ScanPattern;
  cp_is_fixed_wing : option bool;
  cp_turn_radius : option float;
  cp_smooth_turns : option bool
}.

(** The arguments of an [AStarPlanner(...)] call.  [collision_checker=None] is
    [as_collision_checker = false]; [as_heuristic_weight = None] when the call
    does not pass [heuristic_weight]. *)
Record AStarPlanner := {
  as_collision_checker : bool;
  as_step_size : float;
  as_heuristic : string;
  as_heuristic_weight : option float
}.

(** The arguments of [RRTPlanner(...)] and [RRTStarPlanner(...)]; the latter is
    the one with a [search_radius].  Both get a fresh [CollisionChecker()]. *)
Record RRTPlanner := {
  rrt_step_size : float;
  rrt_goal_sample_rate : float;
  rrt_max_iter : Z;
  rrt_search_radius : option float
}.

(** What [on_preview_paths] asks for, by branch of its [if algorithm ...]. *)
Inductive PlannerCall :=
| plan_coverage (planner_params : CoverageParameters) (boundary : list LatLon)
| astar_plan (planner : AStarPlanner) (start goal : LatLon) (boundary : list LatLon)
| rrt_plan (planner : RRTPlanner) (start goal : LatLon)
           (search_area : float * float * float * float)
| dwa_copy (path : list LatLon)
| no_call.

(** [self.current_vehicle_type == '固定翼']. *)
Definition is_fixed_wing (w : t) : bool :=
  String.eqb (current_vehicle_type w) "固定翼".

(** Python's [min(xs)] and [max(xs)] on a list whose first element is [x]. *)
Definition py_min (x : float) (xs : list float) : float := fold_left Rmin xs x.
Definition py_max (x : float) (xs : list float) : float := fold_left Rmax xs x.

(** [self.corners[-1]] of a list whose first element is [c0]. *)
Definition corners_last (c0 : LatLon) (cs : list LatLon) : LatLon := List.last cs c0.

(** The branch of [on_preview_paths] that builds the planner and its call
    (lines 644-750). *)
Definition select_planner (w : t) : PlannerCall :=
  let algorithm := current_algorithm w in
  let fw := is_fixed_wing w in
  let fp := flight_params w in
  let cs := corners w in
  if String.eqb algorithm "grid" || String.eqb algorithm "spiral" then
    plan_coverage
      {| cp_spacing := spacing fp; cp_angle := angle fp;
         cp_pattern := if String.eqb algorithm "grid" then GRID else SPIRAL;
         cp_is_fixed_wing := Some fw;
         cp_turn_radius := Some (turn_radius fp);
         cp_smooth_turns := Some fw |} cs
  else if String.eqb algorithm "astar" then
    match cs with
    | c0 :: _ :: _ =>
        astar_plan
          {| as_collision_checker := false; as_step_size := spacing fp;
             as_heuristic := "euclidean"; as_heuristic_weight := None |}
          c0 (corners_last c0 cs) cs
    | _ => no_call
    end
  else if String.eqb algorithm "rrt" || String.eqb algorithm "rrt_star" then
    match cs with
    | c0 :: _ :: _ =>
        let lats := map fst cs in
        let lons := map snd cs in
        let search_area :=
          (py_min (fst c0) lats, py_min (snd c0) lons,
           py_max (fst c0) lats, py_max (snd c0) lons) in
        rrt_plan
          {| rrt_step_size := 0.0001; rrt_goal_sample_rate := 0.1;
             rrt_max_iter := 1000;
             rrt_search_radius :=
               if String.eqb algorithm "rrt" then None else Some 0.0005 |}
          c0 (corners_last c0 cs) search_area
    | _ => no_call
    end
  else if String.eqb algorithm "dijkstra" then
    match cs with
    | c0 :: _ :: _ =>
        astar_plan
          {| as_collision_checker := false; as_step_size := spacing fp;
             as_heuristic := "euclidean"; as_heuristic_weight := Some 0.0 |}
          c0 (corners_last c0 cs) cs
    | _ => no_call
    end
  else if String.eqb algorithm "dwa" then
    dwa_copy cs
  else
    plan_coverage
      {| cp_spacing := spacing fp; cp_angle := angle fp; cp_pattern := GRID;
         cp_is_fixed_wing := None; cp_turn_radius := None;
         cp_smooth_turns := None |} cs.

(** How a call into the planning core ends: it returns ([None] is Python's
    [None]) or an exception leaves it. *)
Inductive PlanOutcome :=
| returned (path : option (list LatLon))
| raised.

(** The message boxes of [on_preview_paths]. *)
Inductive Dialog :=
| warning_boundary
| information_dwa
| warning_path_failed
| information_done (n_waypoints : nat) (area total mission_time : float)
| critical_error.

(** Python's [not path] for [None] or a list. *)
Definition falsy (path : option (list LatLon)) : bool :=
  match path with
  | None | Some [] => true
  | Some (_ :: _) => false
  end.

Definition set_waypoints (path : list LatLon) (w : t) : t :=
  {| corners := corners w;
     waypoints := path;
     current_algorithm := current_algorithm w;
     current_vehicle_type := current_vehicle_type w;
     flight_params := flight_params w |}.

Section Planning.

(** The planning core, which these files import: what a planner call returns,
    and the two statistics [CoveragePlanner] computes ([None]: it raised). *)
Variable run : PlannerCall -> PlanOutcome.
Variable calculate_coverage_area : list LatLon -> option float.
Variable estimate_mission_time : list LatLon -> float -> option float.

(** The value of [path] after the [if algorithm ...] chain. *)
Definition planned_path (call : PlannerCall) : PlanOutcome :=
  match call with
  | dwa_copy cs => returned (Some cs)
  | no_call => returned None
  | _ => run call
  end.

(** [on_preview_paths] (lines 635-805): the new state and the dialogs shown. *)
Definition on_preview_paths (w : t) : t * list Dialog :=
  if (length (corners w) <? MIN_CORNERS)%nat then (w, [warning_boundary])
  else
    let call := select_planner w in
    let shown := match call with dwa_copy _ => [information_dwa] | _ => [] end in
    match planned_path call with
    | raised => (w, shown ++ [critical_error])
    | returned path =>
        if falsy path then (w, shown ++ [warning_path_failed])
        else
          let p := default [] path in
          match calculate_coverage_area (corners w),
                estimate_mission_time p (speed (flight_params w)) with
          | Some area, Some mission_time =>
              (set_waypoints p w,
               shown ++ [information_done (length p) area (Geo.total_distance p)
                                          mission_time])
          | _, _ => (w, shown ++ [critical_error])
          end
    end.

(** The pattern choice of [_auto_generate_path] (lines 493-499). *)
Definition auto_pattern (algorithm : string) : ScanPattern :=
  if String.eqb algorithm "grid" then GRID
  else if String.eqb algorithm "spiral" then SPIRAL
  else GRID.

(** [_auto_generate_path] (lines 484-541): silent, whatever happens. *)
Definition _auto_generate_path (w : t) : t * list Dialog :=
  if (length (corners w) <? MIN_CORNERS)%nat then (w, [])
  else
    let fw := is_fixed_wing w in
    let fp := flight_params w in
    let params :=
      {| cp_spacing := spacing fp; cp_angle := angle fp;
         cp_pattern := auto_pattern (current_algorithm w);
         cp_is_fixed_wing := Some fw;
         cp_turn_radius := Some (turn_radius fp);
         cp_smooth_turns := Some fw |} in
    match run (plan_coverage params (corners w)) with
    | raised => (w, [])
    | returned path =>
        if falsy path then (w, []) else (set_waypoints (default [] path) w, [])
    end.

End Planning.

(** The bounding box of the corners, in the degrees the corners are in:
    [(min(lats), min(lons), max(lats), max(lons))]. *)
Definition degree_box (c0 : LatLon) (cs : list LatLon) : float * float * float * float :=
  (py_min (fst c0) (map fst cs), py_min (snd c0) (map snd cs),
   py_max (fst c0) (map fst cs), py_max (snd c0) (map snd cs)).

(** The sampling planner of the preview: the literals of lines 696-709. *)
Definition preview_rrt (star : bool) : RRTPlanner :=
  {| rrt_step_size := 0.0001; rrt_goal_sample_rate := 0.1; rrt_max_iter := 1000;
     rrt_search_radius := if star then Some 0.0005 else None |}.

(** The grid-search planner of the preview (lines 673-677 and 720-725). *)
Definition preview_astar (w : t) (weight : option float) : AStarPlanner :=
  {| as_collision_checker := false; as_step_size := spacing (flight_params w);
     as_heuristic := "euclidean"; as_heuristic_weight := weight |}.

(** A window with three corners and the RRT planner selected. *)
Definition rrt_window : t :=
  {| corners := [(23.70, 120.41); (23.71, 120.41); (23.71, 120.42)];
     waypoints := [];
     current_algorithm := "rrt";
     current_vehicle_type := "多旋翼";
     flight_params := flight_params init_variables |}.

(** What the user sees when an exception leaves the planning code inside
    [on_preview_paths]: the [except Exception] clause shows the critical box. *)
Definition ended_with_exception (r : t * list Dialog) : Prop :=
  In critical_error (snd r).

(** A planning core that rejects whatever it is given. *)
Definition always_raises : PlannerCall -> PlanOutcome := fun _ => raised.

(** Two corners, everything else as [init_variables] leaves it. *)
Definition two_corner_window : t :=
  {| corners := [(23.70, 120.41); (23.71, 120.42)];
     waypoints := [];
     current_algorithm := "grid";
     current_vehicle_type := "多旋翼";
     flight_params := flight_params init_variables |}.

(** The window after the algorithm combo box was set to [name]. *)
Definition with_algorithm (name : string) (w : t) : t :=
  {| corners := corners w;
     waypoints := waypoints w;
     current_algorithm := name;
     current_vehicle_type := current_vehicle_type w;
     flight_params := flight_params w |}.

(** The same call with another [heuristic_weight] argument, when the call is
    one to [AStarPlanner]. *)
Definition with_weight (weight : option float) (call : PlannerCall) : PlannerCall :=
  match call with
  | astar_plan planner start goal boundary =>
      astar_plan {| as_collision_checker := as_collision_checker planner;
                    as_step_size := as_step_size planner;
                    as_heuristic := as_heuristic planner;
                    as_heuristic_weight := weight |} start goal boundary
  | other => other
  end.

End MainWindow.

(* ------------------------------------------------------------------------- *)
(** ** [ui/widgets/polygon_editor.py]: the corner list of [PolygonEditorWidget] *)
(* ------------------------------------------------------------------------- *)

Module PolygonEditor.

(** [MAX_CORNERS = 100], the default of [max_corners]. *)
Definition MAX_CORNERS : Z := 100.

(** The fields of the widget that its corner operations read and write.
    [max_corners] is a Python [int]: nothing in [__init__] excludes a
    negative one. *)
Record t := {
  corners : list LatLon;
  max_corners : Z;
  edit_mode : bool
}.

(** [__init__(parent, max_corners)] (lines 95-119). *)
Definition init (max_corners : Z) : t :=
  {| corners := []; max_corners := max_corners; edit_mode := true |}.

Definition with_corners (cs : list LatLon) (e : t) : t :=
  {| corners := cs; max_corners := max_corners e; edit_mode := edit_mode e |}.

(** [len(self.corners) >= self.max_corners]. *)
Definition at_cap (e : t) : bool :=
  (max_corners e <=? Z.of_nat (length (corners e)))%Z.

(** Python's slice [l[:k]] for an [int] [k]: a negative [k] counts from the end. *)
Definition py_slice_to {A} (k : Z) (l : list A) : list A :=
  if (0 <=? k)%Z then firstn (Z.to_nat k) l
  else firstn (Z.to_nat (Z.of_nat (length l) + k)) l.

(** [add_corner] (lines 598-622). *)
Definition add_corner (lat lon : float) (e : t) : t :=
  if at_cap e then e else with_corners (corners e ++ [(lat, lon)]) e.

(** [_on_map_clicked] (lines 582-596): the cap shows a warning and returns. *)
Definition _on_map_clicked (lat lon : float) (e : t) : t :=
  if negb (edit_mode e) then e
  else if at_cap e then e
  else add_corner lat lon e.

(** [remove_corner] (lines 624-645): [self.corners.pop(index)] when
    [0 <= index < len(self.corners)]. *)
Definition remove_corner (index : Z) (e : t) : t :=
  if ((0 <=? index) && (index <? Z.of_nat (length (corners e))))%Z
  then with_corners (delete (Z.to_nat index) (corners e)) e
  else e.

(** [undo_last_corner] (lines 647-650). *)
Definition undo_last_corner (e : t) : t :=
  match corners e with
  | [] => e
  | _ :: _ => remove_corner (Z.of_nat (length (corners e)) - 1) e
  end.

(** [clear_all_corners] (lines 652-670); [reply_yes] is the answer to the
    confirmation box. *)
Definition clear_all_corners (reply_yes : bool) (e : t) : t :=
  match corners e with
  | [] => e
  | _ :: _ => if reply_yes then with_corners [] e else e
  end.

(** [sorted(selected_rows, reverse=True)] for the set of the selected rows. *)
Definition rows_descending (rows : list Z) : list Z :=
  reverse (merge_sort Z.le (remove_dups rows)).

(** [_on_delete_selected] (lines 738-746). *)
Definition _on_delete_selected (rows : list Z) (e : t) : t :=
  fold_left (fun e index => remove_corner index e) (rows_descending rows) e.

(** What the file dialog and [json.load] give [_on_import_corners]: no file,
    a file that cannot be read or parsed, or the list under ["corners"] (the
    empty list when the key is missing).  An entry that has no ["lat"] or no
    ["lon"] is [None]. *)
Inductive ImportFile :=
| import_cancelled
| import_unreadable
| import_loaded (entries : list (option LatLon)).

(** [self.corners.clear(); for corner in corners: self.corners.append(...)]:
    the first malformed entry raises, and the [except] clause ends the import
    with what was appended so far. *)
Fixpoint import_loop (entries : list (option LatLon)) (acc : list LatLon) : list LatLon :=
  match entries with
  | [] => acc
  | Some c :: rest => import_loop rest (acc ++ [c])
  | None :: _ => acc
  end.

(** [_on_import_corners] (lines 801-849); [reply_yes] answers the question
    asked when the file holds more than [max_corners] corners. *)
Definition _on_import_corners (file : ImportFile) (reply_yes : bool) (e : t) : t :=
  match file with
  | import_loaded [] => e
  | import_loaded entries =>
      if (max_corners e <? Z.of_nat (length entries))%Z then
        if reply_yes
        then with_corners (import_loop (py_slice_to (max_corners e) entries) []) e
        else e
      else with_corners (import_loop entries []) e
  | _ => e
  end.

(** [get_corners] (lines 851-853): [self.corners.copy()]. *)
Definition get_corners (e : t) : list LatLon := corners e.

(** [set_corners] (lines 855-860). *)
Definition set_corners (cs : list LatLon) (e : t) : t :=
  with_corners (py_slice_to (max_corners e) cs) e.

(** [set_edit_mode] (lines 862-864). *)
Definition set_edit_mode (enabled : bool) (e : t) : t :=
  {| corners := corners e; max_corners := max_corners e; edit_mode := enabled |}.

(** Every operation of the widget that touches [self.corners]. *)
Inductive Op :=
| map_clicked (lat lon : float)
| add (lat lon : float)
| remove (index : Z)
| undo
| clear_all (reply_yes : bool)
| delete_selected (rows : list Z)
| import (file : ImportFile) (reply_yes : bool)
| set (cs : list LatLon)
| edit (enabled : bool).

Definition step (o : Op) (e : t) : t :=
  match o with
  | map_clicked lat lon => _on_map_clicked lat lon e
  | add lat lon => add_corner lat lon e
  | remove index => remove_corner index e
  | undo => undo_last_corner e
  | clear_all reply_yes => clear_all_corners reply_yes e
  | delete_selected rows => _on_delete_selected rows e
  | import file reply_yes => _on_import_corners file reply_yes e
  | set cs => set_corners cs e
  | edit enabled => set_edit_mode enabled e
  end.

(** Any sequence of operations, applied in order. *)
Definition run (ops : list Op) (e : t) : t := fold_left (fun e o => step o e) ops e.

(** The invariant: [len(self.corners) <= self.max_corners]. *)
Definition within_cap (e : t) : Prop :=
  (Z.of_nat (length (corners e)) <= max_corners e)%Z.

(** A widget with the default cap and two corners. *)
Definition two_corner_editor : t :=
  add_corner 23.71 120.42 (add_corner 23.70 120.41 (init MAX_CORNERS)).

(** [MIN_CORNERS_FOR_POLYGON = 3] (line 46). *)
Definition MIN_CORNERS_FOR_POLYGON : nat := 3.

(** [_on_close_polygon] (lines 748-765): the list that [polygon_completed]
    carries, or [None] when the warning is shown instead. *)
Definition _on_close_polygon (e : t) : option (list LatLon) :=
  if (length (corners e) <? MIN_CORNERS_FOR_POLYGON)%nat then None
  else Some (corners e).

(** The dict that [_on_export_corners] hands to [json.dump]: the corners as
    [{"lat": lat, "lon": lon}] entries, their number and the area. *)
Record ExportData := {
  data_corners : list LatLon;
  data_count : nat;
  data_area_sqm : float
}.

(** [_on_export_corners] (lines 767-799): what is written, if anything.
    [chosen] tells whether the file dialog gave a path, [written] whether
    [open] and [json.dump] succeeded. *)
Definition _on_export_corners (chosen written : bool) (e : t) : option ExportData :=
  match corners e with
  | [] => None
  | _ :: _ =>
      if chosen && written
      then Some {| data_corners := corners e;
                   data_count := length (corners e);
                   data_area_sqm := Geo._calculate_area (corners e) |}
      else None
  end.

(** What [json.load] gives [_on_import_corners] for a file that
    [_on_export_corners] wrote: under ["corners"], one entry per corner, each
    with its ["lat"] and its ["lon"]. *)
Definition read_back (data : ExportData) : ImportFile :=
  import_loaded (map Some (data_corners data)).

(** The corners whose row, counted from [k], is not among [rows]. *)
Fixpoint keep_from (k : nat) (rows : list Z) (cs : list LatLon) : list LatLon :=
  match cs with
  | [] => []
  | c :: cs' =>
      if bool_decide (Z.of_nat k ∈ rows) then keep_from (S k) rows cs'
      else c :: keep_from (S k) rows cs'
  end.

Definition unselected (rows : list Z) (cs : list LatLon) : list LatLon :=
  keep_from 0 rows cs.

End PolygonEditor.

(* ------------------------------------------------------------------------- *)
(** ** [sensors/sensor_fusion.py] *)
(* ------------------------------------------------------------------------- *)

(** The floats of this file are binary64 values (module [Binary64]). *)
Module SensorFusion.
Import Store Binary64.

(** The dataclass [VehicleState]. *)
Record VehicleState := {
  x : f64;
  y : f64;
  z : f64;
  yaw : f64;
  v_x : f64;
  v_y : f64;
  v_z : f64;
  yaw_rate : f64;
  timestamp : f64
}.

(** [VehicleState()]: every field defaults to [0.0]. *)
Definition default_state : VehicleState :=
  {| x := zero; y := zero; z := zero; yaw := zero; v_x := zero; v_y := zero;
     v_z := zero; yaw_rate := zero; timestamp := zero |}.

(** [SensorFusionEngine]: [self._state] refers to a [VehicleState] object. *)
Record t := {
  _state : ref;
  use_vio : bool
}.

(** [__init__] (lines 32-35). *)
Definition init (s : store VehicleState) : store VehicleState * t :=
  let '(s', r) := alloc default_state s in
  (s', {| _state := r; use_vio := false |}).

(** The three keys [update_from_mavlink] looks for in [msg_dict]. *)
Record Mavlink := {
  vx : option f64;
  vy : option f64;
  msg_yaw : option f64
}.

(** [update_from_mavlink] (lines 37-51): writes into the stored object;
    [now] is [time.time()].  The yaw of the message is stored as it comes. *)
Definition update_from_mavlink (msg : Mavlink) (now : f64) (e : t)
    (s : store VehicleState) : store VehicleState :=
  update (_state e)
    (fun st =>
       {| x := x st; y := y st; z := z st;
          yaw := match msg_yaw msg with Some v => v | None => yaw st end;
          v_x := match vx msg with Some v => quotient v hundred | None => v_x st end;
          v_y := match vy msg with Some v => quotient v hundred | None => v_y st end;
          v_z := v_z st; yaw_rate := yaw_rate st; timestamp := now |}) s.

(** [get_state] (lines 76-80): a new [VehicleState] built from the
    fields of [self._state].  [None] stands for a missing stored object,
    which [__init__] excludes. *)
Definition get_state (e : t) (s : store VehicleState)
  : option (store VehicleState * ref) :=
  match s !! _state e with
  | Some st => Some (alloc st s)
  | None => None
  end.

(** Line 93: [(new_yaw + np.pi) % (2 * np.pi) - np.pi]. *)
Definition normalized (new_yaw : f64) : f64 :=
  fsub (py_mod (fadd new_yaw pi) (fmul two pi)) pi.

(** The fields of the object [predict_state] builds (lines 87-99). *)
Definition predicted (st : VehicleState) (dt now : f64) : VehicleState :=
  let new_x := fadd (x st) (fmul (v_x st) dt) in
  let new_y := fadd (y st) (fmul (v_y st) dt) in
  let new_yaw := fadd (yaw st) (fmul (yaw_rate st) dt) in
  let new_yaw := normalized new_yaw in
  {| x := new_x; y := new_y; z := z st; yaw := new_yaw;
     v_x := v_x st; v_y := v_y st; v_z := v_z st; yaw_rate := yaw_rate st;
     timestamp := now |}.

(** [predict_state] (lines 82-99): reads [self._state] and returns a new
    [VehicleState] object. *)
Definition predict_state (dt now : f64) (e : t) (s : store VehicleState)
  : option (store VehicleState * ref) :=
  match s !! _state e with
  | Some st => Some (alloc (predicted st dt now) s)
  | None => None
  end.

(** A state with a heading of three radians, turning at one radian per second. *)
Definition turning : VehicleState :=
  {| x := zero; y := zero; z := ten; yaw := three; v_x := one; v_y := zero;
     v_z := zero; yaw_rate := one; timestamp := zero |}.

(** A MAVLink message that carries only a yaw. *)
Definition attitude (v : f64) : Mavlink :=
  {| vx := None; vy := None; msg_yaw := Some v |}.

(** The [pose_matrix] of [update_from_vio]: entry [(i, j)] of the 4x4 array. *)
Definition Pose : Type := nat -> nat -> f64.

Section Vio.

(** [np.arctan2] on binary64 values: the function of the C library, taken as
    it is. *)
Variable arctan2 : f64 -> f64 -> f64.

(** [update_from_vio] (lines 53-74): sets [self.use_vio] and writes the
    position and the heading into the stored object; [now] is [time.time()]. *)
Definition update_from_vio (pose_matrix : Pose) (now : f64) (e : t)
    (s : store VehicleState) : t * store VehicleState :=
  let r11 := pose_matrix 0%nat 0%nat in
  let r21 := pose_matrix 1%nat 0%nat in
  ({| _state := _state e; use_vio := true |},
   update (_state e)
     (fun st =>
        {| x := pose_matrix 0%nat 3%nat; y := pose_matrix 1%nat 3%nat;
           z := pose_matrix 2%nat 3%nat; yaw := arctan2 r21 r11;
           v_x := v_x st; v_y := v_y st; v_z := v_z st; yaw_rate := yaw_rate st;
           timestamp := now |}) s).

(** The two ways the engine is fed. *)
Inductive Update :=
| from_mavlink (msg : Mavlink) (now : f64)
| from_vio (pose_matrix : Pose) (now : f64).

Definition feed (u : Update) (es : t * store VehicleState) : t * store VehicleState :=
  match u with
  | from_mavlink msg now => (es.1, update_from_mavlink msg now es.1 es.2)
  | from_vio pose_matrix now => update_from_vio pose_matrix now es.1 es.2
  end.

(** A new engine, fed with [updates] in order. *)
Definition fed (updates : list Update) (s : store VehicleState) : t * store VehicleState :=
  fold_left (fun es u => feed u es) updates ((init s).2, (init s).1).

End Vio.

Definition is_mavlink (u : Update) : bool :=
  match u with from_mavlink _ _ => true | from_vio _ _ => false end.

(** What every update keeps: the engine refers to a stored state whose
    vertical speed and yaw rate are still [0.0]. *)
Definition never_written (es : t * store VehicleState) : Prop :=
  exists st, es.2 !! _state es.1 = Some st /\ v_z st = zero /\ yaw_rate st = zero.

Definition at_origin (es : t * store VehicleState) : Prop :=
  use_vio es.1 = false
  /\ exists st, es.2 !! _state es.1 = Some st /\ x st = zero /\ y st = zero /\ z st = zero.

End SensorFusion.

(* ------------------------------------------------------------------------- *)
(** ** [ui/dialogs/obstacle_manager.py] and the obstacle list of [MainWindow] *)
(* ------------------------------------------------------------------------- *)

Module ObstacleManager.
Import Store.

(** The dict [on_add_obstacle] builds (lines 202-209). *)
Record Obstacle := {
  o_type : string;
  o_lat : float;
  o_lon : float;
  o_radius : float;
  o_height : float;
  o_altitude : float
}.

(** The list objects that hold obstacles, by identity. *)
Abbreviation lists := (store (list Obstacle)).

(** The list behind a reference ([[]] for a reference that is not alive). *)
Definition contents (s : lists) (r : ref) : list Obstacle := default [] (s !! r).

(** [ObstacleManagerDialog]: [self.obstacles] refers to a list object. *)
Record Dialog := { obstacles : ref }.

(** [__init__(parent, obstacles)] (lines 28-50):
    [self.obstacles = obstacles.copy() if obstacles else []].  [None] and the
    empty list are both falsy; in every case the dialog gets a new list. *)
Definition init (arg : option ref) (s : lists) : lists * Dialog :=
  let copied := match arg with Some r => contents s r | None => [] end in
  let '(s', r') := alloc copied s in
  (s', {| obstacles := r' |}).

(** [on_add_obstacle] (lines 197-214): [self.obstacles.append(obstacle)]. *)
Definition on_add_obstacle (o : Obstacle) (d : Dialog) (s : lists) : lists :=
  update (obstacles d) (fun l => l ++ [o]) s.

(** [on_edit_obstacle] (lines 216-238): [self.obstacles.pop(index)] for the
    selected row, if any. *)
Definition on_edit_obstacle (selected : option nat) (d : Dialog) (s : lists) : lists :=
  match selected with
  | Some index => update (obstacles d) (delete index) s
  | None => s
  end.

(** [on_delete_obstacle] (lines 240-256). *)
Definition on_delete_obstacle (selected : option nat) (reply_yes : bool)
    (d : Dialog) (s : lists) : lists :=
  match selected with
  | Some index => if reply_yes then update (obstacles d) (delete index) s else s
  | None => s
  end.

(** [on_clear_all] (lines 258-272): [self.obstacles.clear()]. *)
Definition on_clear_all (reply_yes : bool) (d : Dialog) (s : lists) : lists :=
  match contents s (obstacles d) with
  | [] => s
  | _ :: _ => if reply_yes then update (obstacles d) (fun _ => []) s else s
  end.

(** [on_apply] (lines 274-278): [self.obstacles_changed.emit(self.obstacles)].
    The argument of the [emit] is the dialog's own list, not a copy of it (the
    polygon editor emits [self.corners.copy()]); the result is that object. *)
Definition on_apply (d : Dialog) : ref := obstacles d.

(** [get_obstacles] (lines 280-282): [self.obstacles.copy()]. *)
Definition get_obstacles (d : Dialog) (s : lists) : lists * ref :=
  alloc (contents s (obstacles d)) s.

(** The obstacle list of [MainWindow]: [self.obstacles]. *)
Record Window := { w_obstacles : ref }.

(** [MainWindow.on_obstacles_changed] (main_window.py, lines 1088-1091):
    [self.obstacles = obstacles]. *)
Definition on_obstacles_changed (obstacles : ref) (w : Window) : Window :=
  {| w_obstacles := obstacles |}.

(** [MainWindow.on_clear_all_silent] (lines 983-988): [self.obstacles.clear()]. *)
Definition on_clear_all_silent (w : Window) (s : lists) : lists :=
  update (w_obstacles w) (fun _ => []) s.

(** [MainWindow.on_obstacle_manager] (lines 1017-1028): the dialog is built
    from [self.obstacles]. *)
Definition on_obstacle_manager (w : Window) (s : lists) : lists * Dialog :=
  init (Some (w_obstacles w)) s.

(** A caller's own code: it changes, in place, a list it holds. *)
Definition caller_mutates (r : ref) (f : list Obstacle -> list Obstacle) (s : lists)
  : lists := update r f s.

(** Two obstacles as the dialog's form would produce them. *)
Definition tower : Obstacle :=
  {| o_type := "circle"; o_lat := 23.7027; o_lon := 120.4193; o_radius := 50.0;
     o_height := 0; o_altitude := 100.0 |}.
Definition mast : Obstacle :=
  {| o_type := "circle"; o_lat := 23.7030; o_lon := 120.4200; o_radius := 50.0;
     o_height := 0; o_altitude := 100.0 |}.

(** A caller hands its list [[tower]] to [on_obstacles_changed] and appends
    [mast] to it afterwards.  The result is what the window's list holds. *)
Definition store_then_append : list Obstacle :=
  let '(s0, r0) := alloc [] (∅ : lists) in
  let w := {| w_obstacles := r0 |} in
  let '(s1, r) := alloc [tower] s0 in
  let w' := on_obstacles_changed r w in
  let s2 := caller_mutates r (fun l => l ++ [mast]) s1 in
  contents s2 (w_obstacles w').

(** The same with the dialog as the caller, the slot receiving the object that
    [on_apply] emits: the window starts with no obstacles, the user opens the
    dialog, adds [tower], presses apply, adds [mast] and closes the dialog
    without applying again.  The result is what the window's list holds. *)
Definition apply_then_add : list Obstacle :=
  let '(s0, r0) := alloc [] (∅ : lists) in
  let w := {| w_obstacles := r0 |} in
  let '(s1, d) := on_obstacle_manager w s0 in
  let s2 := on_add_obstacle tower d s1 in
  let w' := on_obstacles_changed (on_apply d) w in
  let s3 := on_add_obstacle mast d s2 in
  contents s3 (w_obstacles w').

(** The corner list of [PolygonEditorWidget] as an object: the same widget as
    in module [PolygonEditor], with [self.corners] a reference. *)
Abbreviation corner_lists := (store (list LatLon)).

Record Editor := { e_corners : ref; e_max_corners : Z }.

(** [PolygonEditorWidget.set_corners]: [self.corners = corners[:self.max_corners]],
    a new list whatever the argument. *)
Definition set_corners (arg : ref) (e : Editor) (s : corner_lists)
  : corner_lists * Editor :=
  let '(s', r') :=
    alloc (PolygonEditor.py_slice_to (e_max_corners e) (default [] (s !! arg))) s in
  (s', {| e_corners := r'; e_max_corners := e_max_corners e |}).

(** [PolygonEditorWidget.get_corners], and the argument of every
    [corners_changed.emit(self.corners.copy())]. *)
Definition get_corners (e : Editor) (s : corner_lists) : corner_lists * ref :=
  alloc (default [] (s !! e_corners e)) s.

End ObstacleManager.

(* ------------------------------------------------------------------------- *)
(** ** [core/geometry/__init__.py]: the two wrappers around the transformer *)
(* ------------------------------------------------------------------------- *)

Module Geometry.

(** The exceptions that matter to the geometry code. *)
Inductive exn := InvalidInputError | ZeroDivisionError.

(** A Python call: it returns a value or raises. *)
Inductive py (A : Type) : Type :=
| ret (a : A)
| raise (e : exn).
Arguments ret {A} a.
Arguments raise {A} e.

#[export] Instance py_ret : MRet py := @ret.
#[export] Instance py_bind : MBind py :=
  fun A B f m => match m with ret a => f a | raise e => raise e end.

(** [GeoPoint]: the object [local_to_geo] returns. *)
Record GeoPoint := { latitude : float; longitude : float }.

(** A [CoordinateTransformer] object, seen through the two methods the
    wrappers call ([core/geometry/coordinate.py] is not among the files). *)
Record CoordinateTransformer := {
  geo_to_local : float -> float -> py (float * float);
  local_to_geo : float -> float -> py GeoPoint
}.

Section Wrappers.

(** The constructor [CoordinateTransformer(center_lat, center_lon)]. *)
Variable make_transformer : float -> float -> CoordinateTransformer.

(** [CoordinateTransform] (lines 19-48). *)
Record CoordinateTransform := {
  ct_transformer : CoordinateTransformer;
  ct_center_lat : float;
  ct_center_lon : float
}.

Definition CoordinateTransform_init (center_lat center_lon : float) : CoordinateTransform :=
  {| ct_transformer := make_transformer center_lat center_lon;
     ct_center_lat := center_lat;
     ct_center_lon := center_lon |}.

(** [CoordinateTransform.latlon_to_xy] (lines 32-35). *)
Definition latlon_to_xy (self : CoordinateTransform) (lat lon : float) : py (float * float) :=
  local ← geo_to_local (ct_transformer self) lat lon;
  mret (fst local, snd local).

(** [CoordinateTransform.xy_to_latlon] (lines 37-40). *)
Definition xy_to_latlon (self : CoordinateTransform) (x y : float) : py (float * float) :=
  geo ← local_to_geo (ct_transformer self) x y;
  mret (latitude geo, longitude geo).

(** A 2x2 [np.array], by rows, and [matrix @ vector]. *)
Definition matrix : Type := ((float * float) * (float * float))%type.
Definition matvec (m : matrix) (v : float * float) : float * float :=
  let '((a, b), (c, d)) := m in
  (a * fst v + b * snd v, c * fst v + d * snd v).

(** [RotatedCoordinateSystem] (lines 51-132). *)
Record RotatedCoordinateSystem := {
  rcs_center_lat : float;
  rcs_center_lon : float;
  rcs_angle_deg : float;
  rcs_angle_rad : float;
  rotation_matrix : matrix;
  inverse_rotation : matrix;
  rcs_transformer : CoordinateTransformer
}.

(** [RotatedCoordinateSystem.__init__] (lines 58-79). *)
Definition RotatedCoordinateSystem_init (center_lat center_lon angle_deg : float)
  : RotatedCoordinateSystem :=
  let angle_rad := Geo.radians angle_deg in
  let cos_a := cos angle_rad in
  let sin_a := sin angle_rad in
  {| rcs_center_lat := center_lat;
     rcs_center_lon := center_lon;
     rcs_angle_deg := angle_deg;
     rcs_angle_rad := angle_rad;
     rotation_matrix := ((cos_a, - sin_a), (sin_a, cos_a));
     inverse_rotation := ((cos_a, sin_a), (- sin_a, cos_a));
     rcs_transformer := make_transformer center_lat center_lon |}.

(** [RotatedCoordinateSystem.latlon_to_xy] (lines 81-94). *)
Definition rotated_latlon_to_xy (self : RotatedCoordinateSystem) (lat lon : float)
  : py (float * float) :=
  local ← geo_to_local (rcs_transformer self) lat lon;
  let xy := (fst local, snd local) in
  let rotated := matvec (rotation_matrix self) xy in
  mret (fst rotated, snd rotated).

(** [RotatedCoordinateSystem.xy_to_latlon] (lines 96-109). *)
Definition rotated_xy_to_latlon (self : RotatedCoordinateSystem) (x y : float)
  : py (float * float) :=
  let xy := (x, y) in
  let unrotated := matvec (inverse_rotation self) xy in
  geo ← local_to_geo (rcs_transformer self) (fst unrotated) (snd unrotated);
  mret (latitude geo, longitude geo).

End Wrappers.

(** [math.degrees]. *)
Definition degrees (rad : float) : float := rad * (180 / PI).

(** Modelled from the spec: the class [CoordinateTransformer] of
    [core/geometry/coordinate.py], which is not among the files.  Section 4.1:
    equirectangular about the fixed origin [(lat0, lon0)],
    [x = (lon - lon0) in radians * R * cos(lat0 in radians)],
    [y = (lat - lat0) in radians * R]; "fails with InvalidInputError when
    |lat| > 90 or |lon| > 180"; "inverse is the algebraic reverse": [y] is
    divided by [R] and [x] by [R * cos(lat0 in radians)].  The spec says
    nothing about a divisor that is zero, and no float origin gives one (in
    binary64 [cos(radians(90.0))] is [6.1e-17]); the statements about the
    inverse assume that the divisors are not zero. *)
Definition spec_transformer (R0 lat0 lon0 : float) : CoordinateTransformer :=
  {| geo_to_local := fun lat lon =>
       if decide (Rabs lat <= 90 /\ Rabs lon <= 180)
       then ret (Geo.spec_geo_to_local R0 lat0 lon0 lat lon)
       else raise InvalidInputError;
     local_to_geo := fun x y =>
       ret {| latitude := lat0 + degrees (y / R0);
              longitude := lon0 + degrees (x / (R0 * cos (Geo.radians lat0))) |} |}.

(** A transformer whose inverse undoes its projection. *)
Definition exact_inverse (t : CoordinateTransformer) : Prop :=
  forall lat lon x y,
    geo_to_local t lat lon = ret (x, y) ->
    local_to_geo t x y = ret {| latitude := lat; longitude := lon |}.

(** The claim of section 8: a point whose projection is within 50 km of the
    origin comes back from the round trip within [1e-6] degrees. *)
Definition round_trip_within (to_xy : float -> float -> py (float * float))
    (to_latlon : float -> float -> py (float * float)) (lat lon : float) : Prop :=
  forall x y, to_xy lat lon = ret (x, y) ->
    sqrt (x ^ 2 + y ^ 2) <= 50000 ->
    exists lat' lon', to_latlon x y = ret (lat', lon')
                      /\ Rabs (lat' - lat) <= 0.000001
                      /\ Rabs (lon' - lon) <= 0.000001.

(** A list comprehension [[f(p) for p in points]] whose body can raise: the
    points are converted from left to right, and the first exception ends the
    comprehension. *)
Fixpoint comprehension {A B} (f : A -> py B) (points : list A) : py (list B) :=
  match points with
  | [] => ret []
  | p :: rest =>
      q ← f p;
      qs ← comprehension f rest;
      mret (q :: qs)
  end.

(** [CoordinateTransform.batch_latlon_to_xy] and [batch_xy_to_latlon]
    (lines 42-48). *)
Definition batch_latlon_to_xy (self : CoordinateTransform)
    (points : list (float * float)) : py (list (float * float)) :=
  comprehension (fun p => latlon_to_xy self (fst p) (snd p)) points.

Definition batch_xy_to_latlon (self : CoordinateTransform)
    (points : list (float * float)) : py (list (float * float)) :=
  comprehension (fun p => xy_to_latlon self (fst p) (snd p)) points.

(** [RotatedCoordinateSystem.batch_latlon_to_xy] and [batch_xy_to_latlon]
    (lines 111-133). *)
Definition rotated_batch_latlon_to_xy (self : RotatedCoordinateSystem)
    (points : list (float * float)) : py (list (float * float)) :=
  comprehension (fun p => rotated_latlon_to_xy self (fst p) (snd p)) points.

Definition rotated_batch_xy_to_latlon (self : RotatedCoordinateSystem)
    (points : list (float * float)) : py (list (float * float)) :=
  comprehension (fun p => rotated_xy_to_latlon self (fst p) (snd p)) points.

(** What a comprehension over [points] gives: one result per point, in order,
    or the exception of the first point that raises. *)
Definition pointwise {A B} (f : A -> py B) (points : list A) (result : py (list B)) : Prop :=
  match result with
  | ret out => Forall2 (fun p q => f p = ret q) points out
  | raise e =>
      exists i p, points !! i = Some p /\ f p = raise e
        /\ forall j p', (j < i)%nat -> points !! j = Some p' -> exists q, f p' = ret q
  end.

End Geometry.

(* ------------------------------------------------------------------------- *)
(** ** The grid-search planner of section 4.5 *)
(* ------------------------------------------------------------------------- *)

Module AStar.

(** Modelled from the spec: the search of [AStarPlanner.plan]
    ([core/global_planner/astar.py] is not among the files), section 4.5.
    "Maintain an open set as a priority queue keyed by
    [f = g + heuristic_weight * h]; ties broken by insertion order";
    "terminate successfully when the expanded node lies within [step_size / 2]
    of [goal]; reconstruct the path by following parent back-references from
    goal to start, then reverse"; "terminate with failure ([None]) when the
    open set is exhausted".  The search is written over any search space: its
    nodes, the valid neighbours of a node in a fixed order, the cost of an
    edge, the heuristic and the goal test. *)
Section Search.
Context {node : Type} `{Countable node}.
Variable neighbors : node -> list node.
Variable cost : node -> node -> float.
Variable h : node -> float.
Variable at_goal : node -> bool.
Variable heuristic_weight : float.

(** [SearchNode] (section 3): cumulative cost [g] and the back-reference to
    the parent; the position is the key of the node table and [h] is computed
    from it. *)
Record SearchNode := { g : float; parent : option node }.

(** The search's state: the open set in insertion order, the node table, and
    the nodes already expanded. *)
Record state := {
  open : list node;
  table : gmap node SearchNode;
  closed : gset node
}.

Definition g_of (tbl : gmap node SearchNode) (n : node) : float :=
  match tbl !! n with Some sn => g sn | None => 0 end.

(** [f = g + heuristic_weight * h]. *)
Definition f (tbl : gmap node SearchNode) (n : node) : float :=
  g_of tbl n + heuristic_weight * h n.

(** The node of least key; among equal keys the one inserted first. *)
Fixpoint argmin (key : node -> float) (best : node) (rest : list node) : node :=
  match rest with
  | [] => best
  | n :: rest' =>
      if decide (key n < key best) then argmin key n rest' else argmin key best rest'
  end.

(** The expanded node leaves the open set for good. *)
Definition close (n : node) (st : state) : state :=
  {| open := filter (fun m => m <> n) (open st);
     table := table st;
     closed := {[ n ]} ∪ closed st |}.

(** One neighbour [m] of the expanded node [n]: a new node enters the open
    set, a known one gets the better [g] and the new parent. *)
Definition relax (n : node) (st : state) (m : node) : state :=
  if decide (m ∈ closed st) then st
  else
    let g' := g_of (table st) n + cost n m in
    match table st !! m with
    | None =>
        {| open := open st ++ [m];
           table := <[m := {| g := g'; parent := Some n |}]> (table st);
           closed := closed st |}
    | Some sn =>
        if decide (g' < g sn)
        then {| open := open st;
                table := <[m := {| g := g'; parent := Some n |}]> (table st);
                closed := closed st |}
        else st
    end.

Definition expand (n : node) (st : state) : state :=
  fold_left (relax n) (neighbors n) (close n st).

(** Following the parent back-references from [n]; the result runs from the
    start to [n].  The chain is shorter than the table. *)
Fixpoint reconstruct (fuel : nat) (tbl : gmap node SearchNode) (n : node) : list node :=
  match fuel with
  | O => [n]
  | S fuel' =>
      match tbl !! n with
      | Some {| parent := Some p |} => reconstruct fuel' tbl p ++ [n]
      | _ => [n]
      end
  end.

(** How a search ends.  [out_of_steps] is the loop counter of the model
    running out; it is shown below never to happen. *)
Inductive outcome :=
| out_of_steps
| failure
| found (path : list node).

Fixpoint search (steps : nat) (st : state) : outcome :=
  match steps with
  | O => out_of_steps
  | S steps' =>
      match open st with
      | [] => failure
      | n0 :: rest =>
          let n := argmin (f (table st)) n0 rest in
          if at_goal n then found (reconstruct (size (table st)) (table st) n)
          else search steps' (expand n st)
      end
  end.

Definition init (start : node) : state :=
  {| open := [start];
     table := {[ start := {| g := 0; parent := None |} ]};
     closed := ∅ |}.

(** The total cost of a path: the sum of its edge costs. *)
Fixpoint path_cost (path : list node) : float :=
  match path with
  | a :: (b :: _) as rest => cost a b + path_cost rest
  | _ => 0
  end.

(** A way from [a] to [b] along edges, of total cost [c]. *)
Inductive reach (a : node) : node -> float -> Prop :=
| reach_here : reach a a 0
| reach_step (b m : node) (c : float) :
    reach a b c -> m ∈ neighbors b -> reach a m (c + cost b m).

(** Following the parents from [n] gives [path], the start first. *)
Inductive walk (tbl : gmap node SearchNode) : node -> list node -> Prop :=
| walk_root (n : node) (gn : float) :
    tbl !! n = Some {| g := gn; parent := None |} -> walk tbl n [n]
| walk_parent (n : node) (gn : float) (p : node) (path : list node) :
    tbl !! n = Some {| g := gn; parent := Some p |} ->
    walk tbl p path -> walk tbl n (path ++ [n]).

(** What holds of the state between two expansions ([relaxed] is everywhere
    true) and in the middle of one ([relaxed n m] for the neighbours [m] of
    the expanded node [n] that were already looked at).  [good] stands for
    "the heuristic is consistent and the weight is at most 1": the bounds on
    [g] hold under it, the rest holds whatever the heuristic. *)
Record invariant (start : node) (universe : gset node) (good : Prop)
    (relaxed : node -> node -> Prop) (st : state) : Prop := {
  inv_start : table st !! start = Some {| g := 0; parent := None |};
  inv_open : forall n, n ∈ open st <-> is_Some (table st !! n) /\ n ∉ closed st;
  inv_closed : forall n, n ∈ closed st -> is_Some (table st !! n) /\ at_goal n = false;
  inv_universe : forall n, is_Some (table st !! n) -> n ∈ universe;
  inv_reach : forall n sn, table st !! n = Some sn -> reach start n (g sn);
  inv_relaxed : forall n m, n ∈ closed st -> m ∈ neighbors n -> relaxed n m ->
    is_Some (table st !! m)
    /\ (good -> g_of (table st) m <= g_of (table st) n + cost n m);
  inv_optimal : good -> forall n c,
    n ∈ closed st -> reach start n c -> g_of (table st) n <= c;
  inv_walk : forall n sn, table st !! n = Some sn ->
    exists path, walk (table st) n path /\ NoDup path
      /\ (forall x, x ∈ path -> x <> n -> x ∈ closed st)
      /\ path_cost path = g sn
}.

End Search.

Arguments g {node} _.
Arguments parent {node} _.

(** Modelled from the spec: the search space of section 4.5.  "Discretize the
    bounding box of [boundary] into an 8-connected grid of resolution
    [step_size]; a grid cell is a valid node only if its center is inside
    [boundary] and not colliding"; "edge cost: [step_size] for orthogonal
    moves, [step_size * sqrt(2)] for diagonal moves".  The bounding box is the
    rectangle of cells [0..nx] x [0..ny] whose first centre is [(x0, y0)];
    [free] is the test "inside [boundary] and not colliding" on a cell. *)
Section Grid.
Variable step_size : float.
Variables x0 y0 : float.
Variables nx ny : Z.
Variable free : Z * Z -> bool.
Variable goal : float * float.

Definition cell : Type := (Z * Z)%type.

Definition centre (c : cell) : float * float :=
  (x0 + IZR (fst c) * step_size, y0 + IZR (snd c) * step_size).

Definition in_box (c : cell) : bool :=
  ((0 <=? fst c) && (fst c <=? nx) && (0 <=? snd c) && (snd c <=? ny))%Z.

Definition valid (c : cell) : bool := in_box c && free c.

(** The eight moves, orthogonal ones first. *)
Definition moves : list (Z * Z) :=
  [(1, 0); (-1, 0); (0, 1); (0, -1); (1, 1); (1, -1); (-1, 1); (-1, -1)]%Z.

Definition grid_neighbors (c : cell) : list cell :=
  filter (fun m => valid m = true)
         (map (fun d => (fst c + fst d, snd c + snd d)%Z) moves).

Definition grid_cost (a b : cell) : float :=
  if decide (fst a = fst b \/ snd a = snd b) then step_size
  else step_size * sqrt 2.

(** The two heuristics. *)
Definition euclidean (c : cell) : float := Geo.dist2 (centre c) goal.
Definition manhattan (c : cell) : float :=
  Rabs (fst goal - fst (centre c)) + Rabs (snd goal - snd (centre c)).

Definition heuristic (name : string) : cell -> float :=
  if String.eqb name "manhattan" then manhattan else euclidean.

(** "The expanded node lies within [step_size / 2] of [goal]". *)
Definition near_goal (c : cell) : bool :=
  bool_decide (Geo.dist2 (centre c) goal <= step_size / 2).

(** The cells of the bounding box. *)
Definition box_cells : list cell := list_prod (seqZ 0 (nx + 1)) (seqZ 0 (ny + 1)).
Definition box : gset cell := list_to_set box_cells.

(** More steps than the box has cells. *)
Definition enough_steps : nat := S (Z.to_nat ((nx + 1) * (ny + 1))).

(** Modelled from the spec: [AStarPlanner.plan] on the grid, from the cell
    [start] (how [start] is snapped to a cell is not said).  Section 7:
    [InvalidInputError] for a non-positive [step_size], a [heuristic_weight]
    outside [[0, inf)] and a start outside the permitted area, "raised
    immediately at entry, before any search work begins"; a search that ends
    without a path returns [None]. *)
Definition plan (heuristic_name : string) (heuristic_weight : float) (start : cell)
  : Geometry.py (option (list cell)) :=
  if decide (step_size <= 0) then Geometry.raise Geometry.InvalidInputError
  else if decide (heuristic_weight < 0) then Geometry.raise Geometry.InvalidInputError
  else if negb (valid start) then Geometry.raise Geometry.InvalidInputError
  else
    match search grid_neighbors grid_cost (heuristic heuristic_name) near_goal
                 heuristic_weight enough_steps (init start) with
    | found path => Geometry.ret (Some path)
    | failure => Geometry.ret None
    | out_of_steps => Geometry.ret None
    end.

End Grid.

(** "Consistent heuristic, weight at most one": the straight-line heuristic
    with a weight in [[0, 1]]. *)
Definition optimal_setting (name : string) (w : float) : Prop :=
  String.eqb name "manhattan" = false /\ 0 <= w <= 1.

End AStar.

(* ------------------------------------------------------------------------- *)
(** ** The sampling planner of section 4.6 *)
(* ------------------------------------------------------------------------- *)

Module RRT.

Definition point : Type := (float * float)%type.

(** [TreeNode] (section 3): position, cost from the root, index of the parent. *)
Record TreeNode := {
  position : point;
  cost : float;
  parent : option nat
}.

(** Modelled from the spec: [RRTPlanner.plan] and [RRTStarPlanner.plan]
    ([core/global_planner/rrt.py] is not among the files), section 4.6, steps
    1 to 8, with the random source of section 5 passed in: draw [k] is a number
    of [[0, 1)] and a point of the search area.  [search_radius] is [None] for
    RRT and the radius for RRT-star. *)
Section Planner.
Variable is_segment_colliding : point -> point -> bool.
Variable step_size : float.
Variable goal_sample_rate : float.
Variable max_iter : Z.
Variable search_radius : option float.
Variable draw : nat -> float * point.

(** Step 2: "sample a point uniformly at random inside [search_area] with
    probability [1 - goal_sample_rate], else sample [goal] directly". *)
Definition sample (k : nat) (goal : point) : point :=
  if decide (fst (draw k) < goal_sample_rate) then goal else snd (draw k).

Definition node_at (tree : list TreeNode) (i : nat) : TreeNode :=
  nth i tree {| position := (0, 0); cost := 0; parent := None |}.

(** Step 3: the nearest node, "ties broken by earliest insertion index". *)
Fixpoint nearest_from (q : point) (best : nat) (best_d : float) (i : nat)
    (rest : list TreeNode) : nat :=
  match rest with
  | [] => best
  | n :: rest' =>
      if decide (Geo.dist2 (position n) q < best_d)
      then nearest_from q i (Geo.dist2 (position n) q) (S i) rest'
      else nearest_from q best best_d (S i) rest'
  end.

Definition nearest (tree : list TreeNode) (q : point) : nat :=
  match tree with
  | [] => O
  | n :: rest => nearest_from q O (Geo.dist2 (position n) q) 1 rest
  end.

(** Step 4: "steer from the nearest node toward the sample by at most
    [step_size]". *)
Definition steer (from to : point) : point :=
  let d := Geo.dist2 from to in
  if decide (d <= step_size) then to
  else (fst from + step_size * (fst to - fst from) / d,
        snd from + step_size * (snd to - snd from) / d).

(** Step 6, first half: the indices of the nodes within [radius] of [p]. *)
Definition near (tree : list TreeNode) (p : point) (radius : float) : list nat :=
  filter (fun i => Geo.dist2 (position (node_at tree i)) p <= radius)
         (seq 0 (length tree)).

(** The cost of the candidate through the node [i]. *)
Definition cost_through (tree : list TreeNode) (i : nat) (p : point) : float :=
  cost (node_at tree i) + Geo.dist2 (position (node_at tree i)) p.

(** Step 6: "choose as parent whichever neighbor (including the original
    nearest) yields the lowest candidate cost with a collision-free connecting
    segment". *)
Definition choose_parent (tree : list TreeNode) (p : point) (first : nat)
    (neighbours : list nat) : nat :=
  fold_left
    (fun best i =>
       if negb (is_segment_colliding (position (node_at tree i)) p)
          && bool_decide (cost_through tree i p < cost_through tree best p)
       then i else best)
    neighbours first.

(** Whether [j] is [i] or an ancestor of [i]; the chain is followed for at
    most [fuel] steps. *)
Fixpoint descends_from (fuel : nat) (tree : list TreeNode) (j i : nat) : bool :=
  if decide (i = j) then true
  else match fuel with
       | O => false
       | S fuel' =>
           match parent (node_at tree i) with
           | Some p => descends_from fuel' tree j p
           | None => false
           end
       end.

(** Step 6, second half: "if reparenting it through the candidate strictly
    reduces its cost and the connecting segment is collision-free, rewire it
    (and propagate the cost delta to its descendants)". *)
Definition rewire_one (new : nat) (tree : list TreeNode) (j : nat) : list TreeNode :=
  let p := position (node_at tree new) in
  let qj := position (node_at tree j) in
  let better := cost (node_at tree new) + Geo.dist2 p qj in
  if bool_decide (better < cost (node_at tree j)) && negb (is_segment_colliding p qj)
  then
    let delta := cost (node_at tree j) - better in
    let moved := <[j := {| position := qj; cost := cost (node_at tree j);
                           parent := Some new |}]> tree in
    imap (fun i n =>
            if descends_from (length tree) moved j i
            then {| position := position n; cost := cost n - delta; parent := parent n |}
            else n) moved
  else tree.

(** One successful insertion: the tree with the candidate, wired as step 5
    (RRT) or step 6 (RRT-star) says. *)
Definition insert (tree : list TreeNode) (from : nat) (p : point) : list TreeNode :=
  match search_radius with
  | None =>
      tree ++ [{| position := p; cost := cost_through tree from p; parent := Some from |}]
  | Some radius =>
      let neighbours := near tree p radius in
      let best := choose_parent tree p from neighbours in
      let tree' :=
        tree ++ [{| position := p; cost := cost_through tree best p;
                    parent := Some best |}] in
      fold_left (rewire_one (length tree)) neighbours tree'
  end.

(** Step 7: "reconstruct the path via parent back-references". *)
Fixpoint path_to (fuel : nat) (tree : list TreeNode) (i : nat) : list point :=
  match fuel with
  | O => [position (node_at tree i)]
  | S fuel' =>
      match parent (node_at tree i) with
      | Some p => path_to fuel' tree p ++ [position (node_at tree i)]
      | None => [position (node_at tree i)]
      end
  end.

(** Steps 2 to 8: [iterations] more iterations from draw [k] on.  [None] is
    the planner's [None]. *)
Fixpoint grow (iterations : nat) (k : nat) (goal : point) (tree : list TreeNode)
  : option (list point) :=
  match iterations with
  | O => None
  | S iterations' =>
      let q := sample k goal in
      let from := nearest tree q in
      let p := steer (position (node_at tree from)) q in
      if is_segment_colliding (position (node_at tree from)) p
      then grow iterations' (S k) goal tree
      else
        let tree' := insert tree from p in
        if bool_decide (Geo.dist2 p goal <= step_size)
           && negb (is_segment_colliding p goal)
        then Some (path_to (length tree') tree' (length tree) ++ [goal])
        else grow iterations' (S k) goal tree'
  end.

(** The check at entry (section 7). *)
Definition bad_radius : Prop :=
  match search_radius with Some radius => radius <= 0 | None => False end.

Definition malformed : Prop :=
  step_size <= 0 \/ goal_sample_rate < 0 \/ 1 < goal_sample_rate \/ (max_iter <= 0)%Z
  \/ bad_radius.

#[local] Instance malformed_dec : Decision malformed.
Proof. unfold malformed, bad_radius. destruct search_radius; apply _. Defined.

(** [plan(start, goal, search_area)]: the search area is where the draws come
    from.  "If [start == goal], return a one-point path [[start]] immediately
    without sampling." *)
Definition plan (start goal : point) : Geometry.py (option (list point)) :=
  if decide malformed then Geometry.raise Geometry.InvalidInputError
  else if decide (start = goal) then Geometry.ret (Some [start])
  else
    Geometry.ret
      (grow (Z.to_nat max_iter) O goal
            [{| position := start; cost := 0; parent := None |}]).

End Planner.

End RRT.

(* ------------------------------------------------------------------------- *)
(** ** [sensors/camera_model.py] *)
(* ------------------------------------------------------------------------- *)

Module Camera.

(** The exceptions of the camera code: the [ValueError] of the constructor,
    and the [ZeroDivisionError] of a float division by zero. *)
Inductive exn := ValueError | ZeroDivisionError.

(** A call that returns a value or raises. *)
Inductive result (A : Type) : Type :=
| ok (a : A)
| raises (e : exn).
Arguments ok {A} a.
Arguments raises {A} e.

#[export] Instance result_ret : MRet result := @ok.
#[export] Instance result_bind : MBind result :=
  fun A B f m => match m with ok a => f a | raises e => raises e end.

(** Python's [a / b] on floats. *)
Definition div (a b : float) : result float :=
  if decide (b = 0) then raises ZeroDivisionError else ok (a / b).

(** The dataclass [CameraSpecs]. *)
Record CameraSpecs := {
  sensor_width_mm : float;
  sensor_height_mm : float;
  focal_length_mm : float;
  image_width_px : Z;
  image_height_px : Z;
  specs_name : string
}.

(** [CameraModel]: the object holds its [specs]. *)
Record CameraModel := { specs : CameraSpecs }.

(** [CameraModel.__init__] with [_validate_specs] (lines 20-26). *)
Definition CameraModel_init (specs : CameraSpecs) : result CameraModel :=
  if decide (focal_length_mm specs <= 0) then raises ValueError
  else ok {| specs := specs |}.

(** [CameraModel.calculate_fov] (lines 28-36). *)
Definition calculate_fov (self : CameraModel) : result (float * float) :=
  let sp := specs self in
  h ← div (sensor_width_mm sp) (2 * focal_length_mm sp);
  let hfov := 2 * atan h in
  v ← div (sensor_height_mm sp) (2 * focal_length_mm sp);
  let vfov := 2 * atan v in
  mret (Geometry.degrees hfov, Geometry.degrees vfov).

(** [CameraModel.calculate_gsd] (lines 38-55). *)
Definition calculate_gsd (self : CameraModel) (altitude_m : float) : result float :=
  let sp := specs self in
  if decide (altitude_m <= 0) then ok 0.0
  else
    pixel ← div (sensor_width_mm sp) (IZR (image_width_px sp));
    focal_m ← div (focal_length_mm sp) 1000.0;
    scale ← div altitude_m focal_m;
    let gsd_m := pixel * scale in
    mret (gsd_m * 100).

(** [CameraModel.calculate_footprint] (lines 57-72). *)
Definition calculate_footprint (self : CameraModel) (altitude_m : float)
  : result (float * float) :=
  let sp := specs self in
  if decide (altitude_m <= 0) then ok (0.0, 0.0)
  else
    width_on_ground ← div (sensor_width_mm sp * altitude_m) (focal_length_mm sp);
    height_on_ground ← div (sensor_height_mm sp * altitude_m) (focal_length_mm sp);
    mret (width_on_ground, height_on_ground).

(** The dict [calculate_survey_parameters] returns. *)
Record Survey := {
  strip_distance : float;
  trigger_distance : float;
  gsd : float;
  footprint_width : float;
  footprint_height : float
}.

(** [CameraModel.calculate_survey_parameters] (lines 74-104). *)
Definition calculate_survey_parameters (self : CameraModel)
    (altitude_m overlap_percent sidelap_percent : float) : result Survey :=
  fp ← calculate_footprint self altitude_m;
  let strip_dist := fst fp * (1 - sidelap_percent / 100.0) in
  let trigger_dist := snd fp * (1 - overlap_percent / 100.0) in
  g ← calculate_gsd self altitude_m;
  mret {| strip_distance := strip_dist; trigger_distance := trigger_dist; gsd := g;
          footprint_width := fst fp; footprint_height := snd fp |}.

(** [RX1R_II] (lines 107-114). *)
Definition RX1R_II : CameraSpecs :=
  {| sensor_width_mm := 35.9; sensor_height_mm := 24.0; focal_length_mm := 35.0;
     image_width_px := 7952; image_height_px := 5304; specs_name := "Sony RX1R II" |}.

(** The dataclass [CameraInfo]. *)
Record CameraInfo := {
  name : string;
  manufacturer : string;
  sensor_width : float;
  sensor_height : float;
  image_width : Z;
  image_height : Z;
  focal_length : float
}.

Definition camera (name manufacturer : string) (sensor_width sensor_height : float)
    (image_width image_height : Z) (focal_length : float) : CameraInfo :=
  {| name := name; manufacturer := manufacturer; sensor_width := sensor_width;
     sensor_height := sensor_height; image_width := image_width;
     image_height := image_height; focal_length := focal_length |}.

(** [CameraCalculator.calculate_gsd] (lines 257-277); the name differs
    because [calculate_gsd] is taken by the method of [CameraModel]. *)
Definition calculator_gsd (altitude focal_length sensor_width : float) (image_width : Z)
  : float :=
  if decide (focal_length <= 0 \/ (image_width <= 0)%Z) then 0.0
  else
    let gsd := (sensor_width / IZR image_width) * (altitude / focal_length) in
    gsd / 1000.0.

(** [CameraCalculator.calculate_ground_coverage] (lines 279-293). *)
Definition calculate_ground_coverage (altitude focal_length sensor_width sensor_height : float)
  : float * float :=
  if decide (focal_length <= 0) then (0.0, 0.0)
  else
    let width := (sensor_width / focal_length) * altitude in
    let height := (sensor_height / focal_length) * altitude in
    (width, height).

(** [CameraCalculator.calculate_field_of_view] (lines 295-310). *)
Definition calculate_field_of_view (focal_length sensor_width sensor_height : float)
  : float * float :=
  if decide (focal_length <= 0) then (0.0, 0.0)
  else
    let h_fov := 2 * atan (sensor_width / (2 * focal_length)) in
    let v_fov := 2 * atan (sensor_height / (2 * focal_length)) in
    (Geometry.degrees h_fov, Geometry.degrees v_fov).

(** [CameraCalculator.calculate_spacing_from_overlap] (lines 312-338). *)
Definition calculate_spacing_from_overlap (altitude : float) (camera : CameraInfo)
    (front_overlap side_overlap : float) : float * float :=
  let ground :=
    calculate_ground_coverage altitude (focal_length camera) (sensor_width camera)
                              (sensor_height camera) in
  let line_spacing := fst ground * (1 - side_overlap / 100.0) in
  let photo_interval := snd ground * (1 - front_overlap / 100.0) in
  (line_spacing, photo_interval).

(** The [CameraInfo] of a [CameraSpecs]: the same optics under the other
    class's field names. *)
Definition info_of_specs (sp : CameraSpecs) : CameraInfo :=
  camera (specs_name sp) "" (sensor_width_mm sp) (sensor_height_mm sp)
         (image_width_px sp) (image_height_px sp) (focal_length_mm sp).

End Camera.

(* ------------------------------------------------------------------------- *)
(** ** [ui/widgets/map_widget.py]: the lists of [MapWidget] *)
(* ------------------------------------------------------------------------- *)

Module MapWidget.

(** [MAX_CORNERS = 100], [MIN_CORNERS_FOR_POLYGON = 3] (lines 25-26). *)
Definition MAX_CORNERS : nat := 100.
Definition MIN_CORNERS_FOR_POLYGON : nat := 3.

(** A [folium.Marker] of a corner: its location and the number in its popup. *)
Record Marker := { location : LatLon; number : nat }.

(** The lists the widget keeps, and its mode.  The folium map that is drawn
    ([self.current_map]) is rebuilt from them and is not part of the state. *)
Record t := {
  corners : list LatLon;
  markers : list Marker;
  paths : list (list LatLon);
  edit_mode : bool
}.

(** [__init__] (lines 64-84). *)
Definition init : t := {| corners := []; markers := []; paths := []; edit_mode := true |}.

(** [add_corner] (lines 600-642): the new state and the boolean it returns. *)
Definition add_corner (lat lon : float) (m : t) : t * bool :=
  if (MAX_CORNERS <=? length (corners m))%nat then (m, false)
  else
    let index := length (corners m) in
    ({| corners := corners m ++ [(lat, lon)];
        markers := markers m ++ [{| location := (lat, lon); number := index + 1 |}];
        paths := paths m;
        edit_mode := edit_mode m |}, true).

(** [move_corner] (lines 644-663): [self.corners[index] = (lat, lon)] when
    [0 <= index < len(self.corners)]. *)
Definition move_corner (index : Z) (lat lon : float) (m : t) : t :=
  if ((0 <=? index) && (index <? Z.of_nat (length (corners m))))%Z
  then {| corners := <[Z.to_nat index := (lat, lon)]> (corners m);
          markers := markers m; paths := paths m; edit_mode := edit_mode m |}
  else m.

(** [clear_corners] (lines 774-782). *)
Definition clear_corners (m : t) : t :=
  {| corners := []; markers := []; paths := paths m; edit_mode := edit_mode m |}.

(** [clear_paths] (lines 784-808): the map is rebuilt, and a marker is
    appended to [self.markers] for every corner. *)
Definition clear_paths (m : t) : t :=
  {| corners := corners m;
     markers :=
       markers m ++ imap (fun i c => {| location := c; number := i + 1 |}) (corners m);
     paths := [];
     edit_mode := edit_mode m |}.

(** [on_map_clicked] (lines 840-844): the new state, and the arguments of
    [corner_added.emit] when the signal is emitted. *)
Definition on_map_clicked (lat lon : float) (m : t) : t * option (float * float) :=
  if edit_mode m then
    let '(m', added) := add_corner lat lon m in
    (m', if added then Some (lat, lon) else None)
  else (m, None).

(** [on_marker_moved] (lines 846-849): [corner_moved] is emitted in every
    case. *)
Definition on_marker_moved (index : Z) (lat lon : float) (m : t)
  : t * (Z * float * float) :=
  (move_corner index lat lon m, (index, lat, lon)).

(** [display_path] (lines 851-911): what it does to the lists. *)
Definition display_path (path : list LatLon) (m : t) : t :=
  if (length path <? 2)%nat then m else clear_paths m.

(** [set_edit_mode] (lines 913-921). *)
Definition set_edit_mode (enabled : bool) (m : t) : t :=
  {| corners := corners m; markers := markers m; paths := paths m; edit_mode := enabled |}.

(** [get_corner_count], [get_max_corners], [get_remaining_corners],
    [can_add_corner] (lines 923-937). *)
Definition get_corner_count (m : t) : nat := length (corners m).
Definition get_max_corners (m : t) : nat := MAX_CORNERS.
Definition get_remaining_corners (m : t) : Z :=
  (Z.of_nat MAX_CORNERS - Z.of_nat (length (corners m)))%Z.
Definition can_add_corner (m : t) : bool := (length (corners m) <? MAX_CORNERS)%nat.

End MapWidget.

(* ------------------------------------------------------------------------- *)
(** ** [MainWindow] and its [MapWidget]: the two corner lists *)
(* ------------------------------------------------------------------------- *)

Module App.

(** The window with the map widget that [create_map_widget] builds
    ([main_window.py], lines 144-154): [corner_added] is connected to
    [on_corner_added], [corner_moved] to [on_corner_moved].  The obstacle list
    of the window is in module [ObstacleManager]. *)
Record t := {
  window : MainWindow.t;
  map_widget : MapWidget.t
}.

Definition init : t := {| window := MainWindow.init_variables; map_widget := MapWidget.init |}.

Definition set_corners (cs : list LatLon) (w : MainWindow.t) : MainWindow.t :=
  {| MainWindow.corners := cs;
     MainWindow.waypoints := MainWindow.waypoints w;
     MainWindow.current_algorithm := MainWindow.current_algorithm w;
     MainWindow.current_vehicle_type := MainWindow.current_vehicle_type w;
     MainWindow.flight_params := MainWindow.flight_params w |}.

(** A click on the map: [MapWidget.on_map_clicked], and through the signal
    [MainWindow.on_corner_added]. *)
Definition map_clicked (lat lon : float) (app : t) : t :=
  let '(m', emitted) := MapWidget.on_map_clicked lat lon (map_widget app) in
  match emitted with
  | Some (lat', lon') =>
      {| window := MainWindow.on_corner_added lat' lon' (window app); map_widget := m' |}
  | None => {| window := window app; map_widget := m' |}
  end.

(** [MainWindow.on_corner_moved] (lines 607-612). *)
Definition on_corner_moved (index : Z) (lat lon : float) (w : MainWindow.t) : MainWindow.t :=
  if ((0 <=? index) && (index <? Z.of_nat (length (MainWindow.corners w))))%Z
  then set_corners (<[Z.to_nat index := (lat, lon)]> (MainWindow.corners w)) w
  else w.

(** A marker is dragged: [MapWidget.on_marker_moved], and through the signal
    [MainWindow.on_corner_moved]. *)
Definition marker_moved (index : Z) (lat lon : float) (app : t) : t :=
  let '(m', (index', lat', lon')) := MapWidget.on_marker_moved index lat lon (map_widget app) in
  {| window := on_corner_moved index' lat' lon' (window app); map_widget := m' |}.

(** [MainWindow.on_manual_corner_added] (lines 585-605). *)
Definition on_manual_corner_added (lat lon : float) (app : t) : t :=
  let w := window app in
  if (MainWindow.MAX_CORNERS <=? length (MainWindow.corners w))%nat then app
  else
    {| window := set_corners (MainWindow.corners w ++ [(lat, lon)]) w;
       map_widget := (MapWidget.add_corner lat lon (map_widget app)).1 |}.

(** [for lat, lon in corners: self.map_widget.add_corner(lat, lon)]. *)
Definition add_corners (cs : list LatLon) (m : MapWidget.t) : MapWidget.t :=
  fold_left (fun m c => (MapWidget.add_corner (fst c) (snd c) m).1) cs m.

(** [MainWindow.on_delete_last_corner] (lines 453-472): the last corner is
    popped from both lists, the map is rebuilt with [init_map], and every
    corner the window still has is passed to [add_corner]. *)
Definition on_delete_last_corner (app : t) : t :=
  let w := window app in
  let m := map_widget app in
  match MainWindow.corners w with
  | [] => app
  | _ :: _ =>
      let remaining := removelast (MainWindow.corners w) in
      let m1 :=
        match MapWidget.corners m with
        | [] => m
        | _ :: _ =>
            {| MapWidget.corners := removelast (MapWidget.corners m);
               MapWidget.markers := removelast (MapWidget.markers m);
               MapWidget.paths := MapWidget.paths m;
               MapWidget.edit_mode := MapWidget.edit_mode m |}
        end in
      {| window := set_corners remaining w; map_widget := add_corners remaining m1 |}
  end.

(** [MainWindow._sync_corners_from_editor] (lines 1067-1086), the slot of the
    polygon editor's [corners_changed] and [polygon_completed]. *)
Definition _sync_corners_from_editor (cs : list LatLon) (app : t) : t :=
  let m := map_widget app in
  let m0 :=
    {| MapWidget.corners := []; MapWidget.markers := [];
       MapWidget.paths := MapWidget.paths m; MapWidget.edit_mode := MapWidget.edit_mode m |} in
  {| window := set_corners cs (window app); map_widget := add_corners cs m0 |}.

(** [MainWindow.on_clear_corners] (lines 965-970). *)
Definition on_clear_corners (app : t) : t :=
  {| window := set_corners [] (window app);
     map_widget := MapWidget.clear_corners (map_widget app) |}.

(** [MainWindow.on_clear_paths] (lines 957-963). *)
Definition on_clear_paths (app : t) : t :=
  {| window := MainWindow.set_waypoints [] (window app);
     map_widget := MapWidget.clear_paths (map_widget app) |}.

(** [MainWindow.on_clear_all_silent] (lines 983-988), without the obstacles. *)
Definition on_clear_all_silent (app : t) : t := on_clear_paths (on_clear_corners app).

(** [MainWindow.on_clear_all] (lines 972-981); [reply_yes] answers the
    question. *)
Definition on_clear_all (reply_yes : bool) (app : t) : t :=
  if reply_yes then on_clear_all_silent app else app.

(** The end of a successful [on_preview_paths] or [_auto_generate_path]:
    [self.waypoints = path] and [self.map_widget.display_path(path, altitude)]. *)
Definition show_path (path : list LatLon) (app : t) : t :=
  {| window := MainWindow.set_waypoints path (window app);
     map_widget := MapWidget.display_path path (map_widget app) |}.

(** What can happen to the two corner lists. *)
Inductive Event :=
| click (lat lon : float)
| drag (index : Z) (lat lon : float)
| manual (lat lon : float)
| delete_last
| clear_corners
| clear_paths
| clear_all (reply_yes : bool)
| editor (cs : list LatLon)
| shown (path : list LatLon)
| mode (enabled : bool).

Definition step (ev : Event) (app : t) : t :=
  match ev with
  | click lat lon => map_clicked lat lon app
  | drag index lat lon => marker_moved index lat lon app
  | manual lat lon => on_manual_corner_added lat lon app
  | delete_last => on_delete_last_corner app
  | clear_corners => on_clear_corners app
  | clear_paths => on_clear_paths app
  | clear_all reply_yes => on_clear_all reply_yes app
  | editor cs => _sync_corners_from_editor cs app
  | shown path => show_path path app
  | mode enabled =>
      {| window := window app;
         map_widget := MapWidget.set_edit_mode enabled (map_widget app) |}
  end.

Definition run (events : list Event) (app : t) : t :=
  fold_left (fun app ev => step ev app) events app.

(** An editor list that respects the editor's cap of [MAX_CORNERS]
    ([PolygonEditorWindow(max_corners=MAX_CORNERS)], line 1036). *)
Definition capped (ev : Event) : Prop :=
  match ev with
  | editor cs => (length cs <= MainWindow.MAX_CORNERS)%nat
  | _ => True
  end.

Definition is_delete_last (ev : Event) : bool :=
  match ev with delete_last => true | _ => false end.

(** The caps: [len(self.corners) <= MAX_CORNERS], in the map and in the window. *)
Definition map_capped (app : t) : Prop :=
  (length (MapWidget.corners (map_widget app)) <= MapWidget.MAX_CORNERS)%nat.

Definition window_capped (app : t) : Prop :=
  (length (MainWindow.corners (window app)) <= MainWindow.MAX_CORNERS)%nat.

(** The two lists hold the same corners. *)
Definition in_step (app : t) : Prop :=
  MapWidget.corners (map_widget app) = MainWindow.corners (window app).

(** Three corners. *)
Definition field : list LatLon := [(23.70, 120.41); (23.71, 120.42); (23.70, 120.43)].

(** The first two of them. *)
Definition field_start : list LatLon := [(23.70, 120.41); (23.71, 120.42)].

(** A window and a map that both hold [cs], one marker per corner. *)
Definition holding (cs : list LatLon) : t :=
  {| window := set_corners cs MainWindow.init_variables;
     map_widget :=
       {| MapWidget.corners := cs;
          MapWidget.markers :=
            imap (fun i c => {| MapWidget.location := c; MapWidget.number := i + 1 |}) cs;
          MapWidget.paths := [];
          MapWidget.edit_mode := true |} |}.

End App.

(* ------------------------------------------------------------------------- *)
(** ** [ui/widgets/parameter_panel.py]: the parameters dict of [ParameterPanel] *)
(* ------------------------------------------------------------------------- *)

Module ParameterPanel.

(** [self.parameters]: the keys are those of [__init__]; every call site of
    [update_parameter] uses one of them. *)
Record Parameters := {
  altitude : float;
  speed : float;
  angle : float;
  spacing : float;
  yaw_speed : float;
  subdivisions : Z;
  region_spacing : float;
  reduce_overlap : bool;
  flight_mode : string;
  algorithm : string;
  vehicle_type : string;
  vehicle_model : string;
  turn_radius : float
}.

(** [__init__] (lines 34-58). *)
Definition init : Parameters := {|
  altitude := 50.0; speed := 10.0; angle := 0.0; spacing := 20.0; yaw_speed := 60.0;
  subdivisions := 1; region_spacing := 3.0; reduce_overlap := true;
  flight_mode := "smart_collision"; algorithm := "grid"; vehicle_type := "多旋翼";
  vehicle_model := "DJI Mavic 3"; turn_radius := 50.0
|}.

(** A key of the dict with a value for it. *)
Inductive Setting :=
| set_altitude (v : float)
| set_speed (v : float)
| set_angle (v : float)
| set_spacing (v : float)
| set_yaw_speed (v : float)
| set_subdivisions (v : Z)
| set_region_spacing (v : float)
| set_reduce_overlap (v : bool)
| set_flight_mode (v : string)
| set_algorithm (v : string)
| set_vehicle_type (v : string)
| set_vehicle_model (v : string)
| set_turn_radius (v : float).

(** [self.parameters[key] = value]. *)
Definition store (kv : Setting) (p : Parameters) : Parameters :=
  let 'Build_Parameters a s g sp y sub r ro fm alg vt vm tr := p in
  match kv with
  | set_altitude v => Build_Parameters v s g sp y sub r ro fm alg vt vm tr
  | set_speed v => Build_Parameters a v g sp y sub r ro fm alg vt vm tr
  | set_angle v => Build_Parameters a s v sp y sub r ro fm alg vt vm tr
  | set_spacing v => Build_Parameters a s g v y sub r ro fm alg vt vm tr
  | set_yaw_speed v => Build_Parameters a s g sp v sub r ro fm alg vt vm tr
  | set_subdivisions v => Build_Parameters a s g sp y v r ro fm alg vt vm tr
  | set_region_spacing v => Build_Parameters a s g sp y sub v ro fm alg vt vm tr
  | set_reduce_overlap v => Build_Parameters a s g sp y sub r v fm alg vt vm tr
  | set_flight_mode v => Build_Parameters a s g sp y sub r ro v alg vt vm tr
  | set_algorithm v => Build_Parameters a s g sp y sub r ro fm v vt vm tr
  | set_vehicle_type v => Build_Parameters a s g sp y sub r ro fm alg v vm tr
  | set_vehicle_model v => Build_Parameters a s g sp y sub r ro fm alg vt v tr
  | set_turn_radius v => Build_Parameters a s g sp y sub r ro fm alg vt vm v
  end.

(** The dict [{key: value}] that [parameters_changed] carries, as
    [MainWindow.on_parameters_changed] reads it: it looks for ['algorithm'],
    ['vehicle_type'] and its seven [flight_keys]; ['vehicle_model'] sets a
    field that planning does not read, and any other key is not looked at. *)
Definition emitted (kv : Setting) : MainWindow.ParamUpdate :=
  let none := MainWindow.Build_ParamUpdate None None None None None None None None None in
  match kv with
  | set_altitude v => MainWindow.Build_ParamUpdate None None (Some v) None None None None None None
  | set_speed v => MainWindow.Build_ParamUpdate None None None (Some v) None None None None None
  | set_angle v => MainWindow.Build_ParamUpdate None None None None (Some v) None None None None
  | set_spacing v => MainWindow.Build_ParamUpdate None None None None None (Some v) None None None
  | set_yaw_speed v => MainWindow.Build_ParamUpdate None None None None None None (Some v) None None
  | set_subdivisions v => MainWindow.Build_ParamUpdate None None None None None None None (Some v) None
  | set_region_spacing v => MainWindow.Build_ParamUpdate None None None None None None None None (Some v)
  | set_algorithm v => MainWindow.Build_ParamUpdate (Some v) None None None None None None None None
  | set_vehicle_type v => MainWindow.Build_ParamUpdate None (Some v) None None None None None None None
  | set_reduce_overlap _ | set_flight_mode _ | set_vehicle_model _ | set_turn_radius _ => none
  end.

(** [update_parameter] (lines 506-516): the new dict and the signal. *)
Definition update_parameter (kv : Setting) (p : Parameters)
  : Parameters * MainWindow.ParamUpdate :=
  (store kv p, emitted kv).

(** [get_parameters] (lines 518-525): a copy of the dict. *)
Definition get_parameters (p : Parameters) : Parameters := p.

(** Python's [l[index]] for an [int] index: a negative index counts from the
    end, and an index outside [[-len(l), len(l))] raises [IndexError]
    ([None]). *)
Definition py_index {A} (l : list A) (index : Z) : option A :=
  if (0 <=? index)%Z then l !! Z.to_nat index
  else if (- Z.of_nat (length l) <=? index)%Z
       then l !! Z.to_nat (Z.of_nat (length l) + index)
       else None.

(** The list of [on_algorithm_changed]. *)
Definition algorithms : list string :=
  ["grid"; "spiral"; "astar"; "rrt"; "rrt_star"; "dijkstra"; "dwa"].

(** [on_algorithm_changed] (lines 224-248):
    [algorithms[index] if index < len(algorithms) else 'grid'], then
    [update_parameter('algorithm', algorithm)]; [None] is the [IndexError]. *)
Definition on_algorithm_changed (index : Z) (p : Parameters)
  : option (Parameters * MainWindow.ParamUpdate) :=
  algorithm ← (if (index <? Z.of_nat (length algorithms))%Z
               then py_index algorithms index else Some "grid");
  Some (update_parameter (set_algorithm algorithm) p).

(** [on_angle_changed] (lines 491-494): [float(value)] of the slider's [int]. *)
Definition on_angle_changed (value : Z) (p : Parameters)
  : Parameters * MainWindow.ParamUpdate :=
  update_parameter (set_angle (IZR value)) p.

(** [on_subdivision_changed] (lines 496-499): [index + 1]. *)
Definition on_subdivision_changed (index : Z) (p : Parameters)
  : Parameters * MainWindow.ParamUpdate :=
  update_parameter (set_subdivisions (index + 1)) p.

(** [on_flight_mode_changed] (lines 501-504). *)
Definition on_flight_mode_changed (text : string) (p : Parameters)
  : Parameters * MainWindow.ParamUpdate :=
  update_parameter
    (set_flight_mode (if String.eqb text "智能避撞" then "smart_collision" else "synchronous")) p.

(** The panel with the window its signal is connected to
    ([create_control_panel], [main_window.py] line 272): every
    [update_parameter] reaches [MainWindow.on_parameters_changed]. *)
Definition deliver (kv : Setting) (pw : Parameters * MainWindow.t)
  : Parameters * MainWindow.t :=
  let '(p', signal) := update_parameter kv (fst pw) in
  (p', MainWindow.on_parameters_changed signal (snd pw)).

Definition delivered (settings : list Setting) : Parameters * MainWindow.t :=
  fold_left (fun pw kv => deliver kv pw) settings (init, MainWindow.init_variables).

(** The values the panel and the window both keep. *)
Definition agree (pw : Parameters * MainWindow.t) : Prop :=
  let p := fst pw in
  let w := snd pw in
  let fp := MainWindow.flight_params w in
  MainWindow.altitude fp = altitude p
  /\ MainWindow.speed fp = speed p
  /\ MainWindow.angle fp = angle p
  /\ MainWindow.spacing fp = spacing p
  /\ MainWindow.yaw_speed fp = yaw_speed p
  /\ MainWindow.subdivisions fp = subdivisions p
  /\ MainWindow.region_spacing fp = region_spacing p
  /\ MainWindow.current_algorithm w = algorithm p
  /\ MainWindow.current_vehicle_type w = vehicle_type p.

(** Whether a planner call is the one of the last [else] of
    [on_preview_paths]: a [CoverageParameters] built from spacing and angle
    alone. *)
Definition is_fallback (call : MainWindow.PlannerCall) : bool :=
  match call with
  | MainWindow.plan_coverage params _ =>
      match MainWindow.cp_is_fixed_wing params with None => true | Some _ => false end
  | _ => false
  end.

End ParameterPanel.

(* ------------------------------------------------------------------------- *)
(** ** [MainWindow.on_export_waypoints] *)
(* ------------------------------------------------------------------------- *)

Module WaypointExport.

(** The keyword arguments of one [create_waypoint_line(...)] call
    ([utils/file_io.py] is not among the files): an argument the call leaves
    out is [None]. *)
Record WaypointLine := {
  seq : nat;
  command : Z;
  lat : option float;
  lon : option float;
  alt : option float;
  param1 : option float;
  param2 : option float;
  current : Z;
  autocontinue : Z
}.

(** One row of the CSV file, before it is formatted:
    [f"{i},{lat:.8f},{lon:.8f},{altitude:.1f},{speed:.1f}"]. *)
Record CsvRow := {
  row_sequence : nat;
  row_latitude : float;
  row_longitude : float;
  row_altitude : float;
  row_speed : float
}.

(** What is written: the rows after the CSV header, or the lines after
    ['QGC WPL 110'] that are handed to [write_waypoints]. *)
Inductive Written :=
| csv_file (filepath : string) (rows : list CsvRow)
| waypoints_file (filepath : string) (lines : list WaypointLine).

(** How [on_export_waypoints] ends: the "no data" warning, a cancelled file
    dialog, the error box of the [except] clause, or the file and the number
    of waypoints in the success message. *)
Inductive Outcome :=
| warning_no_data
| cancelled
| export_error
| exported (file : Written) (count : nat).

(** [s.endswith(suffix)]: some tail of [s] is [suffix]. *)
Fixpoint endswith (s suffix : string) : bool :=
  String.eqb s suffix
  || match s with
     | EmptyString => false
     | String _ s' => endswith s' suffix
     end.

(** [MAV_CMD_NAV_WAYPOINT], [MAV_CMD_NAV_TAKEOFF],
    [MAV_CMD_NAV_RETURN_TO_LAUNCH] (the comments of lines 843-869). *)
Definition NAV_WAYPOINT : Z := 16.
Definition NAV_TAKEOFF : Z := 22.
Definition NAV_RETURN_TO_LAUNCH : Z := 20.

(** The item of waypoint [p], the [i]-th of [enumerate(self.waypoints, start=2)]
    counted from 0 (lines 857-865). *)
Definition waypoint_item (altitude : float) (i : nat) (p : LatLon) : WaypointLine :=
  {| seq := i + 2; command := NAV_WAYPOINT; lat := Some (fst p); lon := Some (snd p);
     alt := Some altitude; param1 := Some 0.0; param2 := Some 2.0; current := 0;
     autocontinue := 1 |}.

(** The lines of the QGC branch (lines 839-872) for the waypoints
    [home :: rest]. *)
Definition waypoint_lines (home : LatLon) (rest : list LatLon) (altitude : float)
  : list WaypointLine :=
  let waypoints := home :: rest in
  [ {| seq := 0; command := NAV_WAYPOINT; lat := Some (fst home); lon := Some (snd home);
       alt := Some 0.0; param1 := None; param2 := None; current := 1; autocontinue := 1 |};
    {| seq := 1; command := NAV_TAKEOFF; lat := Some (fst home); lon := Some (snd home);
       alt := Some altitude; param1 := Some 15.0; param2 := None; current := 0;
       autocontinue := 1 |} ]
  ++ imap (waypoint_item altitude) waypoints
  ++ [ {| seq := length waypoints + 2; command := NAV_RETURN_TO_LAUNCH; lat := None;
          lon := None; alt := None; param1 := None; param2 := None; current := 0;
          autocontinue := 1 |} ].

(** The row of waypoint [p], the [i]-th of [enumerate(self.waypoints)]
    (lines 831-832). *)
Definition csv_row (altitude speed : float) (i : nat) (p : LatLon) : CsvRow :=
  {| row_sequence := i; row_latitude := fst p; row_longitude := snd p;
     row_altitude := altitude; row_speed := speed |}.

(** [on_export_waypoints] (lines 806-888).  [filepath] and [selected_filter]
    are what the file dialog returns (an empty path when it is cancelled);
    [writable] tells whether writing the file succeeds. *)
Definition on_export_waypoints (filepath selected_filter : string) (writable : bool)
    (w : MainWindow.t) : Outcome :=
  match MainWindow.waypoints w with
  | [] => warning_no_data
  | home :: rest =>
      let waypoints := home :: rest in
      if String.eqb filepath "" then cancelled
      else
        let altitude := MainWindow.altitude (MainWindow.flight_params w) in
        let speed := MainWindow.speed (MainWindow.flight_params w) in
        if String.eqb selected_filter "CSV Files (*.csv)" || endswith filepath ".csv"
        then
          let filepath :=
            if endswith filepath ".csv" then filepath else filepath ++ ".csv" in
          if writable
          then exported (csv_file filepath (imap (csv_row altitude speed) waypoints))
                        (length waypoints)
          else export_error
        else
          let filepath :=
            if endswith filepath ".waypoints" then filepath
            else filepath ++ ".waypoints" in
          if writable
          then exported (waypoints_file filepath (waypoint_lines home rest altitude))
                        (length waypoints)
          else export_error
  end%string.

(** The path a file was written to. *)
Definition path_of (file : Written) : string :=
  match file with
  | csv_file filepath _ => filepath
  | waypoints_file filepath _ => filepath
  end.

(** A window that holds the three waypoints of [App.field]. *)
Definition surveyed : MainWindow.t := MainWindow.set_waypoints App.field MainWindow.init_variables.

End WaypointExport.

(* ========================================================================= *)
(** * Part II: the theorems *)
(* ========================================================================= *)


(* ------------------------------------------------------------------------- *)
(** ** Binary64: rounding stays between representable bounds *)
(* ------------------------------------------------------------------------- *)

Module Binary64Facts.
Import Binary64.

#[local] Open Scope Z_scope.

(** A significand of at most 53 bits, scaled by a power of two, is a float. *)
Lemma representable_scaled (m e : Z) :
  Z.abs m < 2 ^ 53 -> 0 <= e -> representable (m * 2 ^ e).
Proof.
  intros Hm He k Hk Hle.
  assert (k <= e) as Hke.
  { destruct (Z_le_gt_dec k e) as [|Hgt]; [done|exfalso].
    rewrite Z.abs_mul, (Z.abs_eq (2 ^ e)) in Hle by (apply Z.pow_nonneg; lia).
    assert (2 ^ (e + 53) <= 2 ^ (k + 52)) by (apply Z.pow_le_mono_r; lia).
    assert (Z.abs m * 2 ^ e < 2 ^ 53 * 2 ^ e).
    { apply Z.mul_lt_mono_pos_r; [apply Z.pow_pos_nonneg; lia|done]. }
    rewrite <- Z.pow_add_r in * by lia. rewrite (Z.add_comm 53 e) in *. lia. }
  exists (m * 2 ^ (e - k)).
  rewrite <- Z.mul_assoc, <- Z.pow_add_r by lia. f_equal. f_equal. lia.
Qed.

(** Rounding to nearest goes to the floor or, when the division is not
    exact, possibly one above it. *)
Lemma rne_div_cases (a b : Z) :
  0 < b ->
  rne_div a b = a / b \/ (rne_div a b = a / b + 1 /\ a mod b <> 0).
Proof.
  intros Hb. unfold rne_div.
  pose proof (Z.mod_pos_bound a b Hb).
  destruct (2 * (a mod b) ?= b) eqn:Hc.
  - apply Z.compare_eq in Hc. destruct (Z.even (a / b)); [by left|right]. split; [done|lia].
  - by left.
  - apply Z.compare_gt_iff in Hc. right. split; [done|lia].
Qed.

(** Rounding a non-negative integer does not pass a float above it. *)
Lemma round_mag_le (x hi : Z) :
  0 <= x <= hi -> representable hi -> 0 <= round_mag x 1 <= hi.
Proof.
  intros [Hx Hhi] Hrep. unfold round_mag, ulp_exp. rewrite Z.div_1_r, Z.mul_1_l.
  set (k := Z.max 0 (Z.log2 x - 52)).
  assert (0 <= k) as Hk by lia.
  assert (0 < 2 ^ k) as Hd by (apply Z.pow_pos_nonneg; lia).
  pose proof (Z.div_mod x (2 ^ k) ltac:(lia)) as Hdm.
  pose proof (Z.mod_pos_bound x (2 ^ k) Hd) as Hr.
  assert (0 <= x / 2 ^ k) as Hq by (apply Z.div_pos; lia).
  destruct (rne_div_cases x (2 ^ k) Hd) as [-> | [-> Hnz]].
  - split; nia.
  - split; [nia|].
    assert (0 < k) as Hkpos.
    { destruct (Z.eq_dec k 0) as [Hk0|]; [|lia].
      rewrite Hk0, Z.pow_0_r, Z.mod_1_r in Hnz. done. }
    assert (0 < x) as Hxpos.
    { destruct (Z.eq_dec x 0) as [->|]; [|lia]. by rewrite Z.mod_0_l in Hnz by lia. }
    assert (k + 52 = Z.log2 x) as Hlog by lia.
    destruct (Z.log2_spec x Hxpos) as [Hlo _].
    destruct (Hrep k Hk) as [c Hc].
    { rewrite Hlog, Z.abs_eq by lia. lia. }
    subst hi. set (q := x / 2 ^ k) in *. set (d := 2 ^ k) in *.
    assert (q < c) as Hqc by (apply (Z.mul_lt_mono_pos_r d); lia).
    apply Z.mul_le_mono_nonneg_r; lia.
Qed.

(** The rounded sum of two floats stays within a float that bounds the exact
    sum, and keeps the sign of the exact sum. *)
Lemma round_within (x hi : Z) :
  Z.abs x <= hi -> representable hi -> hi < overflow ->
  exists n, round x 1 = finite n /\ Z.abs n <= hi /\ (0 <= x -> 0 <= n).
Proof.
  intros Hx Hrep Hov. unfold round.
  destruct (round_mag_le (Z.abs x) hi) as [Hlo Hup]; [lia|done|].
  set (m := round_mag (Z.abs x) 1) in *.
  assert (Z.abs (Z.sgn x * m) <= hi) as Hn.
  { pose proof (Z.sgn_spec x). lia. }
  exists (Z.sgn x * m).
  destruct (Z.leb_spec overflow (Z.abs (Z.sgn x * m))); [lia|].
  split; [done|]. split; [done|]. intros H0. pose proof (Z.sgn_spec x). nia.
Qed.

Section Normalisation.

(** A positive float [P] whose double is a float too, as [np.pi] is. *)
Variable P : Z.
Hypothesis P_pos : 0 < P.
Hypothesis P_float : representable P.
Hypothesis P2_float : representable (2 * P).
Hypothesis P2_finite : 2 * P < overflow.

(** [(t % (2 * P)) - P] for a finite [t] is a finite float in [[-P, P]]. *)
Lemma mod_minus_within (a : Z) :
  exists n, fsub (py_mod (finite a) (finite (2 * P))) (finite P) = finite n
            /\ - P <= n <= P.
Proof.
  assert (forall x, Z.abs x <= P -> exists n, round x 1 = finite n /\ - P <= n <= P)
    as Hsub.
  { intros x Hx. destruct (round_within x P) as (n & Hn & Habs & _); [done|done|lia|].
    exists n. split; [done|lia]. }
  unfold py_mod, fmod. destruct (Z.eqb_spec (2 * P) 0) as [|_]; [lia|].
  pose proof (Z.rem_bound_abs a (2 * P) ltac:(lia)) as Hrem.
  set (r := Z.rem a (2 * P)) in *. cbn [is_zero is_neg].
  destruct (Z.eqb_spec r 0) as [Hr0|Hr0].
  - unfold fsub. cbn [fneg fadd]. apply Hsub. lia.
  - destruct (Z.ltb_spec (2 * P) 0) as [|_]; [lia|].
    destruct (Z.ltb_spec r 0) as [Hneg|Hpos]; cbn [Bool.eqb negb].
    + cbn [fadd].
      destruct (round_within (r + 2 * P) (2 * P)) as (n1 & -> & Habs & Hsign);
        [lia|done|done|].
      unfold fsub. cbn [fneg fadd]. apply Hsub. lia.
    + unfold fsub. cbn [fneg fadd]. apply Hsub. lia.
Qed.

End Normalisation.

Lemma pi_positive : 0 < pi_units.
Proof. unfold pi_units. apply Z.mul_pos_pos; [lia|]. apply Z.pow_pos_nonneg; lia. Qed.

Lemma pi_is_a_float : representable pi_units.
Proof. apply representable_scaled; lia. Qed.

Lemma two_pi_is_a_float : representable (2 * pi_units).
Proof.
  replace (2 * pi_units) with (7074237752028440 * 2 ^ 1024).
  - apply representable_scaled; lia.
  - unfold pi_units. replace 1024 with (Z.succ 1023) by lia.
    rewrite Z.pow_succ_r by lia. set (p := 2 ^ 1023). lia.
Qed.

Lemma two_pi_is_finite : 2 * pi_units < overflow.
Proof.
  unfold pi_units, overflow. replace 2098 with (1075 + 1023) by lia.
  rewrite Z.pow_add_r, Z.mul_assoc by lia.
  apply Z.mul_lt_mono_pos_r; [apply Z.pow_pos_nonneg; lia|].
  change (2 ^ 1075) with (2 ^ 53 * 2 ^ 1022).
  assert (0 < 2 ^ 1022) by (apply Z.pow_pos_nonneg; lia). nia.
Qed.

(** [2 * np.pi] is computed without a rounding error. *)
Lemma two_times_pi : fmul two pi = finite (2 * pi_units).
Proof. vm_compute. reflexivity. Qed.

End Binary64Facts.
(* ------------------------------------------------------------------------- *)
(** ** The store *)
(* ------------------------------------------------------------------------- *)

Module StoreFacts.
Import Store.

Lemma new_ref_fresh {V} (s : store V) : s !! new_ref s = None.
Proof. apply not_elem_of_dom. unfold new_ref. apply is_fresh. Qed.

Lemma alloc_new {V} (v : V) (s : store V) : (alloc v s).1 !! (alloc v s).2 = Some v.
Proof. unfold alloc. cbn. apply lookup_insert_eq. Qed.

Lemma alloc_other {V} (v : V) (s : store V) (r : ref) :
  r <> (alloc v s).2 -> (alloc v s).1 !! r = s !! r.
Proof. unfold alloc. cbn. intros Hr. by rewrite lookup_insert_ne. Qed.

Lemma alloc_live {V} (v w : V) (s : store V) (r : ref) :
  s !! r = Some w -> r <> (alloc v s).2 /\ (alloc v s).1 !! r = Some w.
Proof.
  intros Hr.
  assert (r <> (alloc v s).2) as Hne.
  { intros ->. cbn in Hr. by rewrite new_ref_fresh in Hr. }
  split; [done|]. by rewrite alloc_other.
Qed.

Lemma update_same {V} (r : ref) (f : V -> V) (s : store V) (v : V) :
  s !! r = Some v -> update r f s !! r = Some (f v).
Proof. intros Hr. unfold update. rewrite Hr. apply lookup_insert_eq. Qed.

Lemma update_other {V} (r r' : ref) (f : V -> V) (s : store V) :
  r' <> r -> update r f s !! r' = s !! r'.
Proof.
  intros Hne. unfold update. destruct (s !! r); [|done].
  by rewrite lookup_insert_ne.
Qed.

End StoreFacts.

(* ------------------------------------------------------------------------- *)
(** ** Area and distance *)
(* ------------------------------------------------------------------------- *)

Module GeoFacts.
Import Geo.

(** *** Sums written as loops *)

Lemma fold_left_add_acc (f : nat -> float) (l : list nat) (acc : float) :
  fold_left (fun acc i => acc + f i) l acc
  = acc + fold_left (fun acc i => acc + f i) l 0.
Proof.
  revert acc. induction l as [|i l IH]; intros acc; cbn; [lra|].
  rewrite IH, (IH (0 + f i)). lra.
Qed.

Lemma fold_left_add_shift (f : nat -> float) (l : list nat) (acc : float) :
  fold_left (fun acc i => acc + f i) (map S l) acc
  = fold_left (fun acc i => acc + f (S i)) l acc.
Proof. revert acc. induction l as [|i l IH]; intros acc; cbn; [done|]. by rewrite IH. Qed.

Lemma loop_sum_S (f : nat -> float) (n : nat) :
  loop_sum f (S n) = f 0%nat + loop_sum (fun i => f (S i)) n.
Proof.
  unfold loop_sum. cbn [seq fold_left].
  rewrite fold_left_add_acc, <- seq_shift, fold_left_add_shift. lra.
Qed.

Lemma loop_sum_ext (f g : nat -> float) (n : nat) :
  (forall i, (i < n)%nat -> f i = g i) -> loop_sum f n = loop_sum g n.
Proof.
  revert f g. induction n as [|n IH]; intros f g H; [reflexivity|].
  rewrite !loop_sum_S, (H 0%nat) by lia. f_equal.
  apply IH. intros i Hi. apply H. lia.
Qed.

(** *** The shoelace loop is the closed chain sum *)

Lemma cross_antisym (a b : float * float) : cross b a = - cross a b.
Proof. unfold cross. lra. Qed.

Lemma loop_sum_chain (d : float * float) (q : list (float * float)) :
  loop_sum (fun i => cross (nth i q d) (nth (i + 1) q d)) (length q - 1) = chain_sum q.
Proof.
  induction q as [|a [|b t] IH]; [reflexivity|reflexivity|].
  replace (length (a :: b :: t) - 1)%nat with (S (length (b :: t) - 1))
    by (cbn [length]; lia).
  rewrite loop_sum_S.
  change (chain_sum (a :: b :: t)) with (cross a b + chain_sum (b :: t)).
  rewrite <- IH. cbn [nth Nat.add]. f_equal.
Qed.

Lemma fold_shoelace_step (p : list (float * float)) (n : nat) (l : list nat) (acc : float) :
  fold_left (shoelace_step p n) l acc
  = acc + fold_left
            (fun acc i => acc + cross (item p i) (item p ((i + 1) mod n))) l 0.
Proof.
  revert acc. induction l as [|i l IH]; intros acc; cbn [fold_left]; [lra|].
  rewrite IH.
  rewrite (fold_left_add_acc
             (fun i => cross (item p i) (item p ((i + 1) mod n))) l (0 + _)).
  unfold shoelace_step, cross. lra.
Qed.

Lemma shoelace_loop_sum (p : list (float * float)) :
  shoelace p
  = loop_sum (fun i => cross (item p i) (item p ((i + 1) mod length p))) (length p).
Proof. unfold shoelace, loop_sum. rewrite fold_shoelace_step. lra. Qed.

Lemma shoelace_closed (p : list (float * float)) : shoelace p = closed_sum p.
Proof.
  rewrite shoelace_loop_sum. destruct p as [|a r]; [reflexivity|].
  unfold closed_sum. rewrite <- (loop_sum_chain (0, 0)).
  rewrite length_app. cbn [length]. rewrite Nat.add_sub.
  apply loop_sum_ext. intros i Hi. unfold item.
  rewrite (app_nth1 (a :: r) [a]) by (cbn [length]; lia). f_equal.
  destruct (decide (i + 1 < S (length r))%nat) as [Hlt|Hge].
  - rewrite Nat.mod_small by lia. by rewrite app_nth1 by (cbn [length]; lia).
  - assert (i + 1 = S (length r))%nat as -> by lia.
    rewrite Nat.Div0.mod_same. rewrite app_nth2 by (cbn [length]; lia).
    cbn [length]. by rewrite Nat.sub_diag.
Qed.

(** *** Rotation and reversal of the closed chain *)

Lemma chain_sum_snoc (u : list (float * float)) (x y : float * float) :
  chain_sum (u ++ [x; y]) = chain_sum (u ++ [x]) + cross x y.
Proof.
  induction u as [|c [|c' u'] IH]; cbn [app chain_sum] in *; [lra|lra|].
  rewrite IH. lra.
Qed.

Lemma closed_sum_rotate1 (a : float * float) (r : list (float * float)) :
  closed_sum (r ++ [a]) = closed_sum (a :: r).
Proof.
  destruct r as [|b r']; [reflexivity|].
  change (closed_sum ((b :: r') ++ [a])) with (chain_sum (((b :: r') ++ [a]) ++ [b])).
  change (closed_sum (a :: b :: r'))
    with (cross a b + chain_sum ((b :: r') ++ [a])).
  rewrite <- app_assoc.
  change ([a] ++ [b]) with [a; b].
  rewrite (chain_sum_snoc (b :: r') a b). lra.
Qed.

Lemma rotate_start_S {A} (k : nat) (a : A) (r : list A) :
  (k <= length r)%nat -> rotate_start (S k) (a :: r) = rotate_start k (r ++ [a]).
Proof.
  intros Hk. unfold rotate_start. cbn [skipn firstn].
  rewrite skipn_app, firstn_app.
  replace (k - length r)%nat with 0%nat by lia. cbn [skipn firstn].
  by rewrite app_nil_r, <- app_assoc.
Qed.

Lemma rotate_start_all {A} (k : nat) (l : list A) :
  (length l <= k)%nat -> rotate_start k l = l.
Proof.
  intros Hk. unfold rotate_start.
  by rewrite skipn_all2, firstn_all2 by lia.
Qed.

Lemma closed_sum_rotate (k : nat) (l : list (float * float)) :
  closed_sum (rotate_start k l) = closed_sum l.
Proof.
  revert l. induction k as [|k IH]; intros l.
  - unfold rotate_start. cbn. by rewrite app_nil_r.
  - destruct l as [|a r]; [reflexivity|].
    destruct (decide (k <= length r)%nat) as [Hk|Hk].
    + by rewrite rotate_start_S, IH, closed_sum_rotate1.
    + rewrite rotate_start_all; [done|]. cbn [length]. lia.
Qed.

Lemma chain_sum_rev (q : list (float * float)) : chain_sum (rev q) = - chain_sum q.
Proof.
  induction q as [|x [|y q'] IH]; [cbn; lra|cbn; lra|].
  change (rev (x :: y :: q')) with ((rev q' ++ [y]) ++ [x]).
  rewrite <- app_assoc. cbn [app]. rewrite chain_sum_snoc.
  change (rev q' ++ [y]) with (rev (y :: q')). rewrite IH.
  cbn [chain_sum]. rewrite (cross_antisym x y). lra.
Qed.

Lemma closed_sum_rev (l : list (float * float)) : closed_sum (rev l) = - closed_sum l.
Proof.
  destruct l as [|a r]; [cbn; lra|].
  cbn [rev]. rewrite closed_sum_rotate1. unfold closed_sum.
  rewrite <- chain_sum_rev. f_equal.
  cbn [app rev]. rewrite rev_app_distr. reflexivity.
Qed.

(** *** The centroid and the projected polygon under rotation and reversal *)

Lemma fold_left_Rplus_acc (l : list float) (a : float) :
  fold_left Rplus l a = a + fold_left Rplus l 0.
Proof.
  revert a. induction l as [|x l IH]; intros a; cbn; [lra|].
  rewrite IH, (IH (0 + x)). lra.
Qed.

Lemma py_sum_cons (x : float) (l : list float) : py_sum (x :: l) = x + py_sum l.
Proof. unfold py_sum. cbn. rewrite fold_left_Rplus_acc. lra. Qed.

Lemma py_sum_perm (l l' : list float) : Permutation l l' -> py_sum l = py_sum l'.
Proof.
  induction 1 as [|x l l' _ IH|x y l|l l' l'' _ IH1 _ IH2].
  - reflexivity.
  - by rewrite !py_sum_cons, IH.
  - rewrite !py_sum_cons. lra.
  - by rewrite IH1.
Qed.

Lemma rotate_start_perm {A} (k : nat) (l : list A) : Permutation (rotate_start k l) l.
Proof.
  unfold rotate_start. rewrite Permutation_app_comm. by rewrite firstn_skipn.
Qed.

Lemma map_rotate_start {A B} (f : A -> B) (k : nat) (l : list A) :
  map f (rotate_start k l) = rotate_start k (map f l).
Proof. unfold rotate_start. by rewrite map_app, skipn_map, firstn_map. Qed.

Lemma length_rotate_start {A} (k : nat) (l : list A) :
  length (rotate_start k l) = length l.
Proof. apply Permutation_length, rotate_start_perm. Qed.

(** [_calculate_area] in terms of the closed chain sum. *)
Lemma area_closed_sum (corners : list LatLon) :
  _calculate_area corners
  = if (length corners <? 3)%nat then 0.0
    else
      Rabs (closed_sum
              (map (fun c => latlon_to_xy
                               (py_sum (map fst corners) / INR (length corners))
                               (py_sum (map snd corners) / INR (length corners))
                               (fst c) (snd c)) corners)) / 2.0.
Proof. unfold _calculate_area. by rewrite shoelace_closed. Qed.

Lemma area_rotate (k : nat) (corners : list LatLon) :
  _calculate_area (rotate_start k corners) = _calculate_area corners.
Proof.
  rewrite !area_closed_sum, length_rotate_start.
  destruct (length corners <? 3)%nat; [done|].
  rewrite (py_sum_perm _ _ (Permutation_map fst (rotate_start_perm k corners))),
          (py_sum_perm _ _ (Permutation_map snd (rotate_start_perm k corners))).
  by rewrite map_rotate_start, closed_sum_rotate.
Qed.

Lemma area_rev (corners : list LatLon) :
  _calculate_area (rev corners) = _calculate_area corners.
Proof.
  rewrite !area_closed_sum, length_rev.
  destruct (length corners <? 3)%nat; [done|].
  rewrite (py_sum_perm _ _ (Permutation_map fst (Permutation_sym (Permutation_rev corners)))),
          (py_sum_perm _ _ (Permutation_map snd (Permutation_sym (Permutation_rev corners)))).
  by rewrite map_rev, closed_sum_rev, Rabs_Ropp.
Qed.

Lemma area_nonneg (corners : list LatLon) : 0 <= _calculate_area corners.
Proof.
  unfold _calculate_area. destruct (length corners <? 3)%nat; [lra|].
  pose proof (Rabs_pos (shoelace
    (map (fun c => latlon_to_xy (py_sum (map fst corners) / INR (length corners))
                                (py_sum (map snd corners) / INR (length corners))
                                (fst c) (snd c)) corners))).
  lra.
Qed.

(** C2.  For a polygon of at least three corners, [_calculate_area] gives the
    same value from whichever corner the list starts and in whichever
    direction it runs, and the value is never negative. *)
Theorem area_invariant (corners : list LatLon) :
  (3 <= length corners)%nat ->
  (forall k, _calculate_area (rotate_start k corners) = _calculate_area corners)
  /\ _calculate_area (rev corners) = _calculate_area corners
  /\ 0 <= _calculate_area corners.
Proof.
  intros _. split; [|split].
  - intros k. apply area_rotate.
  - apply area_rev.
  - apply area_nonneg.
Qed.

Lemma area_invariant_witness :
  (forall k, _calculate_area (rotate_start k triangle) = _calculate_area triangle)
  /\ _calculate_area (rev triangle) = _calculate_area triangle
  /\ 0 <= _calculate_area triangle.
Proof. apply area_invariant. cbn. lia. Defined.

(** *** The scale of the UI's projection *)

(** Machin-like bounds from the Standard Library, with four and three terms. *)
Lemma PI_bounds : 3.1415 < PI < 3.1421.
Proof.
  pose proof (PI_2_3_7_ineq 1) as [Hlo Hup].
  unfold sum_f_R0, tg_alt, PI_2_3_7_tg, Ratan_seq in Hlo, Hup.
  simpl in Hlo, Hup. lra.
Qed.

Lemma effective_radius_bounds : 6365000 < effective_radius < 6367000.
Proof.
  pose proof PI_bounds as [Hlo Hup]. unfold effective_radius.
  split.
  - apply Rmult_lt_reg_r with PI; [lra|].
    unfold Rdiv. rewrite Rmult_assoc, Rinv_l by lra. lra.
  - apply Rmult_lt_reg_r with PI; [lra|].
    unfold Rdiv. rewrite Rmult_assoc, Rinv_l by lra. lra.
Qed.

Lemma latlon_to_xy_spec (center_lat center_lon lat lon : float) :
  latlon_to_xy center_lat center_lon lat lon
  = spec_geo_to_local effective_radius center_lat center_lon lat lon.
Proof.
  pose proof PI_neq0.
  unfold latlon_to_xy, spec_geo_to_local, effective_radius, radians.
  f_equal; field; done.
Qed.

Lemma segment_distance_spec (lat1 lon1 lat2 lon2 : float) :
  segment_distance (lat1, lon1) (lat2, lon2)
  = dist2 (spec_geo_to_local effective_radius ((lat1 + lat2) / 2) lon1 lat1 lon1)
          (spec_geo_to_local effective_radius ((lat1 + lat2) / 2) lon1 lat2 lon2).
Proof.
  pose proof PI_neq0.
  unfold segment_distance, dist2, spec_geo_to_local, effective_radius, radians.
  cbn [fst snd]. f_equal. field. done.
Qed.

Lemma total_distance_loop_sum (path : list LatLon) :
  total_distance path
  = loop_sum (fun i => segment_distance (waypoint path i) (waypoint path (i + 1)))
             (length path - 1).
Proof.
  unfold total_distance, loop_sum.
  rewrite (fold_left_add_acc
             (fun i => segment_distance (waypoint path i) (waypoint path (i + 1)))).
  lra.
Qed.

Lemma total_distance_path_length (path : list LatLon) :
  total_distance path = path_length path.
Proof.
  rewrite total_distance_loop_sum. unfold waypoint.
  induction path as [|a [|b t] IH]; [reflexivity|reflexivity|].
  replace (length (a :: b :: t) - 1)%nat with (S (length (b :: t) - 1))
    by (cbn [length]; lia).
  rewrite loop_sum_S.
  change (path_length (a :: b :: t)) with (segment_distance a b + path_length (b :: t)).
  rewrite <- IH. cbn [nth Nat.add]. f_equal.
Qed.

(** C1, as stated, fails: one degree of latitude north of the centre is
    [111111.0] m in [_calculate_area], which is the specification's
    [y = (lat - lat0) in radians * R] for neither of the two radii. *)
Lemma projection_is_not_a_spec_radius :
  ~ exists R0 : float,
      (R0 = mean_radius \/ R0 = equatorial_radius)
      /\ latlon_to_xy 0 0 1 0 = spec_geo_to_local R0 0 0 1 0.
Proof.
  intros (R0 & HR0 & Heq). pose proof PI_bounds as [Hlo _].
  unfold latlon_to_xy, spec_geo_to_local, radians in Heq.
  injection Heq as _ Hy.
  unfold mean_radius, equatorial_radius in HR0.
  destruct HR0 as [-> | ->]; lra.
Qed.

(** C1, amended.  The UI's projection and distance are equirectangular with
    the flat scale [111111.0] m per degree, that is with the radius
    [111111.0 * 180 / pi] (between 6,365 km and 6,367 km: neither 6,371,000 m
    nor 6,378,137 m), used in the polygon-area projection about the centroid
    and in the total-distance loop; the loop adds, over consecutive waypoints,
    the planar distance of the two points projected about the segment's own
    mid-latitude. *)
Theorem ui_projection_scale :
  (forall center_lat center_lon lat lon,
      latlon_to_xy center_lat center_lon lat lon
      = spec_geo_to_local effective_radius center_lat center_lon lat lon)
  /\ (forall lat1 lon1 lat2 lon2,
        segment_distance (lat1, lon1) (lat2, lon2)
        = dist2 (spec_geo_to_local effective_radius ((lat1 + lat2) / 2) lon1 lat1 lon1)
                (spec_geo_to_local effective_radius ((lat1 + lat2) / 2) lon1 lat2 lon2))
  /\ (forall path, total_distance path = path_length path)
  /\ effective_radius < mean_radius
  /\ effective_radius < equatorial_radius.
Proof.
  pose proof effective_radius_bounds as [_ Hup].
  split; [exact latlon_to_xy_spec|].
  split; [exact segment_distance_spec|].
  split; [exact total_distance_path_length|].
  unfold mean_radius, equatorial_radius. split; lra.
Qed.

End GeoFacts.
(* ------------------------------------------------------------------------- *)
(** ** [MainWindow]: which planner is built, and with which numbers *)
(* ------------------------------------------------------------------------- *)

Module MainWindowFacts.
Import MainWindow.

Lemma two_corners (cs : list LatLon) :
  (MIN_CORNERS <= length cs)%nat ->
  exists c0 c1 rest, cs = c0 :: c1 :: rest.
Proof.
  unfold MIN_CORNERS. destruct cs as [|c0 [|c1 rest]]; cbn; try lia.
  intros _. by exists c0, c1, rest.
Qed.

Lemma select_rrt (w : t) (star : bool) c0 c1 rest :
  corners w = c0 :: c1 :: rest ->
  current_algorithm w = (if star then "rrt_star" else "rrt") ->
  select_planner w
  = rrt_plan (preview_rrt star) c0 (corners_last c0 (corners w)) (degree_box c0 (corners w)).
Proof.
  intros Hcs Halg. unfold select_planner. rewrite Halg, Hcs.
  by destruct star.
Qed.

Lemma select_astar (w : t) c0 c1 rest :
  corners w = c0 :: c1 :: rest ->
  current_algorithm w = "astar" ->
  select_planner w
  = astar_plan (preview_astar w None) c0 (corners_last c0 (corners w)) (corners w).
Proof.
  intros Hcs Halg. unfold select_planner. by rewrite Halg, Hcs.
Qed.

Lemma select_dijkstra (w : t) c0 c1 rest :
  corners w = c0 :: c1 :: rest ->
  current_algorithm w = "dijkstra" ->
  select_planner w
  = astar_plan (preview_astar w (Some 0.0)) c0 (corners_last c0 (corners w)) (corners w).
Proof.
  intros Hcs Halg. unfold select_planner. by rewrite Halg, Hcs.
Qed.

Lemma select_coverage (w : t) :
  current_algorithm w <> "astar" -> current_algorithm w <> "dijkstra" ->
  current_algorithm w <> "rrt" -> current_algorithm w <> "rrt_star" ->
  current_algorithm w <> "dwa" ->
  exists params, select_planner w = plan_coverage params (corners w)
                 /\ cp_spacing params = spacing (flight_params w).
Proof.
  intros Ha Hd Hr Hrs Hw. unfold select_planner.
  apply String.eqb_neq in Ha, Hd, Hr, Hrs, Hw.
  rewrite Ha, Hd, Hr, Hrs, Hw.
  destruct (current_algorithm w =? "grid")%string;
    destruct (current_algorithm w =? "spiral")%string; cbn;
    eexists; split; reflexivity.
Qed.

(** C7.  In every preview that passes the corner guard, the sampling planners
    get the literal [step_size = 0.0001] ([search_radius = 0.0005] for RRT-star)
    and are run on the corners as they are, in degrees (start, goal and the
    bounding box are read off [self.corners]); the grid-search planner gets
    [step_size = flight_params['spacing']] and the coverage planner
    [spacing = flight_params['spacing']], whose initial value is [20.0]. *)
Theorem preview_mixes_units (w : t) :
  (MIN_CORNERS <= length (corners w))%nat ->
  (forall star : bool,
      current_algorithm w = (if star then "rrt_star" else "rrt") ->
      exists c0,
        head (corners w) = Some c0 /\
        select_planner w
        = rrt_plan {| rrt_step_size := 0.0001; rrt_goal_sample_rate := 0.1;
                      rrt_max_iter := 1000;
                      rrt_search_radius := if star then Some 0.0005 else None |}
                   c0 (corners_last c0 (corners w)) (degree_box c0 (corners w)))
  /\ (current_algorithm w = "astar" \/ current_algorithm w = "dijkstra" ->
      exists planner start goal,
        select_planner w = astar_plan planner start goal (corners w)
        /\ as_step_size planner = spacing (flight_params w))
  /\ (current_algorithm w = "grid" \/ current_algorithm w = "spiral" ->
      exists params,
        select_planner w = plan_coverage params (corners w)
        /\ cp_spacing params = spacing (flight_params w))
  /\ spacing (flight_params init_variables) = 20.0.
Proof.
  intros Hlen. destruct (two_corners _ Hlen) as (c0 & c1 & rest & Hcs).
  split; [|split; [|split]].
  - intros star Halg. exists c0. split; [by rewrite Hcs|].
    by apply (select_rrt w star c0 c1 rest).
  - intros [Halg|Halg].
    + eexists _, _, _. split; [by apply (select_astar w c0 c1 rest)|reflexivity].
    + eexists _, _, _. split; [by apply (select_dijkstra w c0 c1 rest)|reflexivity].
  - intros Halg. apply select_coverage; destruct Halg as [-> | ->]; discriminate.
  - reflexivity.
Qed.

Lemma preview_mixes_units_witness :
  select_planner rrt_window
  = rrt_plan (preview_rrt false) (23.70, 120.41) (23.71, 120.42)
             (degree_box (23.70, 120.41) (corners rrt_window)).
Proof.
  destruct (preview_mixes_units rrt_window) as [Hrrt _].
  { unfold MIN_CORNERS. cbn. lia. }
  destruct (Hrrt false) as (c0 & Hhead & Hsel); [reflexivity|].
  cbn in Hhead. injection Hhead as <-. exact Hsel.
Defined.

End MainWindowFacts.

(* ------------------------------------------------------------------------- *)
(** ** [MainWindow]: a boundary with fewer than three corners *)
(* ------------------------------------------------------------------------- *)

Module ShortBoundary.
Import MainWindow.

(** C6, as stated, fails: with two corners the preview ends in the warning box
    of the guard, not in an exception, even when the planner behind it would
    raise on every call. *)
Lemma short_boundary_no_exception :
  ~ ended_with_exception
      (on_preview_paths always_raises (fun _ => None) (fun _ _ => None)
         two_corner_window).
Proof.
  unfold ended_with_exception. cbn. intros [H|[]]. discriminate H.
Qed.

(** C6, amended.  With fewer than [MIN_CORNERS = 3] corners no planner is
    reached: [on_preview_paths] shows the boundary warning and returns with the
    window unchanged, [_auto_generate_path] returns silently, and
    [_calculate_area] returns [0.0]; none of them raises. *)
Theorem short_boundary_is_guarded
    (run : PlannerCall -> PlanOutcome)
    (calculate_coverage_area : list LatLon -> option float)
    (estimate_mission_time : list LatLon -> float -> option float)
    (w : t) :
  (length (corners w) < MIN_CORNERS)%nat ->
  on_preview_paths run calculate_coverage_area estimate_mission_time w
  = (w, [warning_boundary])
  /\ _auto_generate_path run w = (w, [])
  /\ Geo._calculate_area (corners w) = 0.0.
Proof.
  intros Hlen. unfold on_preview_paths, _auto_generate_path, Geo._calculate_area.
  apply Nat.ltb_lt in Hlen. rewrite Hlen.
  unfold MIN_CORNERS in Hlen. by rewrite Hlen.
Qed.

Lemma short_boundary_is_guarded_witness :
  on_preview_paths always_raises (fun _ => None) (fun _ _ => None) two_corner_window
  = (two_corner_window, [warning_boundary])
  /\ _auto_generate_path always_raises two_corner_window = (two_corner_window, [])
  /\ Geo._calculate_area (corners two_corner_window) = 0.0.
Proof.
  apply short_boundary_is_guarded. unfold MIN_CORNERS. cbn. lia.
Defined.

End ShortBoundary.

(* ------------------------------------------------------------------------- *)
(** ** [PolygonEditorWidget]: the corner list never exceeds [max_corners] *)
(* ------------------------------------------------------------------------- *)

Module PolygonEditorFacts.
Import PolygonEditor.

Lemma max_corners_step (o : Op) (e : t) : max_corners (step o e) = max_corners e.
Proof.
  destruct o; cbn; try reflexivity.
  - unfold _on_map_clicked, add_corner. by repeat case_match.
  - unfold add_corner. by case_match.
  - unfold remove_corner. by case_match.
  - unfold undo_last_corner, remove_corner. by repeat case_match.
  - unfold clear_all_corners. by repeat case_match.
  - unfold _on_delete_selected. generalize (rows_descending rows). intros l.
    revert e. induction l as [|i l IH]; intros e; cbn; [done|].
    rewrite IH. unfold remove_corner. by case_match.
  - unfold _on_import_corners. by repeat case_match.
Qed.

Lemma length_py_slice_to {A} (k : Z) (l : list A) :
  (0 <= k)%Z -> (Z.of_nat (length (py_slice_to k l)) <= k)%Z.
Proof.
  intros Hk. unfold py_slice_to.
  destruct (Z.leb_spec 0 k); [|lia]. rewrite length_firstn. lia.
Qed.

Lemma py_slice_to_firstn {A} (k : Z) (l : list A) :
  (0 <= k)%Z -> py_slice_to k l = firstn (Z.to_nat k) l.
Proof. intros Hk. unfold py_slice_to. by destruct (Z.leb_spec 0 k); [|lia]. Qed.

Lemma length_import_loop (entries : list (option LatLon)) (acc : list LatLon) :
  (length (import_loop entries acc) <= length acc + length entries)%nat.
Proof.
  revert acc. induction entries as [|[c|] rest IH]; intros acc; cbn; [lia| |lia].
  specialize (IH (acc ++ [c])). rewrite length_app in IH. cbn in IH. lia.
Qed.

Lemma within_cap_remove (index : Z) (e : t) :
  within_cap e -> within_cap (remove_corner index e).
Proof.
  unfold within_cap, remove_corner. intros H.
  destruct (Z.leb_spec 0 index); cbn; [|done].
  destruct (Z.ltb_spec index (Z.of_nat (length (corners e)))); cbn; [|done].
  rewrite length_delete; [lia|]. apply lookup_lt_is_Some. lia.
Qed.

Lemma within_cap_add (lat lon : float) (e : t) :
  within_cap e -> within_cap (add_corner lat lon e).
Proof.
  unfold within_cap, add_corner, at_cap. intros H.
  destruct (Z.leb_spec (max_corners e) (Z.of_nat (length (corners e)))); cbn; [done|].
  rewrite length_app. cbn. lia.
Qed.

Lemma within_cap_import (file : ImportFile) (reply_yes : bool) (e : t) :
  within_cap e -> within_cap (_on_import_corners file reply_yes e).
Proof.
  unfold within_cap. intros H.
  assert (0 <= max_corners e)%Z as Hmax by lia.
  destruct file as [| |entries]; cbn; try done.
  destruct entries as [|x entries]; [done|].
  set (l := x :: entries).
  destruct (Z.ltb_spec (max_corners e) (Z.of_nat (length l))).
  - destruct reply_yes; [|done].
    change (Z.of_nat (length (import_loop (py_slice_to (max_corners e) l) []))
            <= max_corners e)%Z.
    pose proof (length_import_loop (py_slice_to (max_corners e) l) []) as Hl.
    pose proof (length_py_slice_to (max_corners e) l Hmax).
    change (length (@nil LatLon)) with 0%nat in Hl. lia.
  - change (Z.of_nat (length (import_loop l [])) <= max_corners e)%Z.
    pose proof (length_import_loop l []) as Hl.
    change (length (@nil LatLon)) with 0%nat in Hl. lia.
Qed.

(** Each operation keeps the invariant. *)
Lemma within_cap_step (o : Op) (e : t) : within_cap e -> within_cap (step o e).
Proof.
  intros H. destruct o; cbn.
  - unfold _on_map_clicked. repeat case_match; try done. by apply within_cap_add.
  - by apply within_cap_add.
  - by apply within_cap_remove.
  - unfold undo_last_corner. case_match; [done|]. by apply within_cap_remove.
  - unfold clear_all_corners. repeat case_match; try done.
    unfold within_cap in *. cbn. lia.
  - unfold _on_delete_selected. generalize (rows_descending rows). intros l.
    revert e H. induction l as [|i l IH]; intros e H; cbn; [done|].
    apply IH. by apply within_cap_remove.
  - by apply within_cap_import.
  - unfold set_corners, within_cap in *. cbn.
    apply length_py_slice_to. lia.
  - exact H.
Qed.

(** From a fresh widget with a non-negative cap, the invariant holds after
    any sequence of operations. *)
Lemma within_cap_run (ops : list Op) (cap : Z) :
  (0 <= cap)%Z -> within_cap (run ops (init cap)).
Proof.
  intros Hcap. unfold run.
  assert (within_cap (init cap)) as H by (unfold within_cap; cbn; lia).
  revert H. generalize (init cap). induction ops as [|o ops IH]; intros e H; cbn; [done|].
  apply IH. by apply within_cap_step.
Qed.

(** C9.  [len(self.corners) <= self.max_corners] (default 100) is kept by every
    operation of the editor.  At the cap, a map click and [add_corner] leave
    the list as it is; [set_corners] keeps the first [max_corners] entries of
    its argument; an import replaces the list by corners read from the first
    [max_corners] entries of the file, or leaves it as it is.  The main
    window's own list has the same cap ([MAX_CORNERS = 100]) on a map click. *)
Theorem corner_cap_is_kept (e : t) :
  within_cap e ->
  (forall o : Op, within_cap (step o e))
  /\ (forall lat lon, at_cap e = true ->
        add_corner lat lon e = e /\ _on_map_clicked lat lon e = e)
  /\ (forall cs, corners (set_corners cs e) = firstn (Z.to_nat (max_corners e)) cs)
  /\ (forall entries reply_yes,
        let e' := _on_import_corners (import_loaded entries) reply_yes e in
        corners e' = corners e
        \/ corners e' = import_loop (firstn (Z.to_nat (max_corners e)) entries) [])
  /\ max_corners (init MAX_CORNERS) = 100%Z
  /\ (forall (w : MainWindow.t) lat lon,
        (MainWindow.MAX_CORNERS <= length (MainWindow.corners w))%nat ->
        MainWindow.on_corner_added lat lon w = w).
Proof.
  intros H.
  assert (0 <= max_corners e)%Z as Hmax by (unfold within_cap in H; lia).
  repeat split.
  - intros o. by apply within_cap_step.
  - unfold add_corner. by rewrite H0.
  - unfold _on_map_clicked, add_corner. rewrite H0. by destruct (edit_mode e).
  - intros cs. cbn. by apply py_slice_to_firstn.
  - intros entries reply_yes. cbn.
    destruct entries as [|x entries]; [by left|].
    set (l := x :: entries).
    destruct (Z.ltb_spec (max_corners e) (Z.of_nat (length l))).
    + destruct reply_yes; [right|by left].
      change (import_loop (py_slice_to (max_corners e) l) []
              = import_loop (firstn (Z.to_nat (max_corners e)) l) []).
      by rewrite py_slice_to_firstn.
    + right.
      change (import_loop l [] = import_loop (firstn (Z.to_nat (max_corners e)) l) []).
      rewrite firstn_all2; [done|lia].
  - intros w lat lon Hw. unfold MainWindow.on_corner_added.
    apply Nat.leb_le in Hw. by rewrite Hw.
Qed.

Lemma corner_cap_is_kept_witness :
  within_cap two_corner_editor
  /\ forall o : Op, within_cap (step o two_corner_editor).
Proof.
  assert (within_cap two_corner_editor) as H.
  { unfold within_cap, two_corner_editor, add_corner, at_cap, MAX_CORNERS. simpl. lia. }
  split; [exact H|].
  exact (proj1 (corner_cap_is_kept two_corner_editor H)).
Defined.

End PolygonEditorFacts.

(* ------------------------------------------------------------------------- *)
(** ** [SensorFusionEngine.predict_state] *)
(* ------------------------------------------------------------------------- *)

Module SensorFusionFacts.
Import Store StoreFacts Binary64 Binary64Facts SensorFusion.

(** Line 93 on a float [new_yaw]: when [new_yaw + np.pi] is finite the result
    lies in the closed interval [[-pi, pi]]; otherwise it is NaN. *)
Lemma normalized_range (new_yaw : f64) :
  match fadd new_yaw pi with
  | finite _ => fle (fneg pi) (normalized new_yaw) = true
                /\ fle (normalized new_yaw) pi = true
  | _ => normalized new_yaw = nan
  end.
Proof.
  unfold normalized. rewrite two_times_pi.
  destruct (fadd new_yaw pi) as [a|s|]; [|done|done].
  destruct (mod_minus_within pi_units pi_positive pi_is_a_float two_pi_is_a_float
              two_pi_is_finite a) as (n & Hn & Hlo & Hhi).
  unfold pi. rewrite Hn. cbn [fneg fle].
  split; by apply Z.leb_le.
Qed.

(** C10, amended.  Whatever the stored state and whatever [dt],
    [predict_state] returns a [VehicleState] object that did not exist before,
    whose yaw is
    [(yaw + yaw_rate * dt + pi) % (2 * pi) - pi] in binary64; the object
    [self._state] refers to, and every other live object, is as it was.  When
    [yaw + yaw_rate * dt + pi] is finite the returned yaw lies in the closed
    interval [[-pi, pi]]; when it is an infinity or NaN the returned yaw is
    NaN. *)
Theorem predict_state_yaw_within_pi
    (e : t) (s : store VehicleState) (st : VehicleState) (dt now : f64) :
  s !! _state e = Some st ->
  exists (s' : store VehicleState) (r : ref) (st' : VehicleState),
    predict_state dt now e s = Some (s', r)
    /\ s !! r = None
    /\ r <> _state e
    /\ s' !! _state e = Some st
    /\ (forall r', r' <> r -> s' !! r' = s !! r')
    /\ s' !! r = Some st'
    /\ yaw st' = fsub (py_mod (fadd (fadd (yaw st) (fmul (yaw_rate st) dt)) pi)
                              (fmul two pi)) pi
    /\ match fadd (fadd (yaw st) (fmul (yaw_rate st) dt)) pi with
       | finite _ => fle (fneg pi) (yaw st') = true /\ fle (yaw st') pi = true
       | _ => yaw st' = nan
       end.
Proof.
  intros Hst. unfold predict_state. rewrite Hst.
  destruct (alloc_live (predicted st dt now) st s (_state e) Hst) as [Hne Hold].
  exists (alloc (predicted st dt now) s).1, (alloc (predicted st dt now) s).2,
         (predicted st dt now).
  split; [done|]. split; [apply new_ref_fresh|]. split; [done|]. split; [done|].
  split; [intros r' Hr'; by apply alloc_other|]. split; [apply alloc_new|].
  split; [done|]. cbn [predicted yaw].
  apply (normalized_range (fadd (yaw st) (fmul (yaw_rate st) dt))).
Qed.

Lemma predict_state_yaw_within_pi_witness :
  exists (s' : store VehicleState) (r : ref) (st' : VehicleState),
    predict_state one zero {| _state := 1%positive; use_vio := false |}
                  {[ 1%positive := turning ]} = Some (s', r)
    /\ ({[ 1%positive := turning ]} : store VehicleState) !! r = None
    /\ r <> 1%positive
    /\ s' !! 1%positive = Some turning
    /\ (forall r', r' <> r -> s' !! r' = ({[ 1%positive := turning ]} : store VehicleState) !! r')
    /\ s' !! r = Some st'
    /\ yaw st' = fsub (py_mod (fadd (fadd (yaw turning) (fmul (yaw_rate turning) one)) pi)
                              (fmul two pi)) pi
    /\ match fadd (fadd (yaw turning) (fmul (yaw_rate turning) one)) pi with
       | finite _ => fle (fneg pi) (yaw st') = true /\ fle (yaw st') pi = true
       | _ => yaw st' = nan
       end.
Proof.
  apply (predict_state_yaw_within_pi {| _state := 1%positive; use_vio := false |}
           {[ 1%positive := turning ]} turning one zero).
  reflexivity.
Defined.

(** C10, as stated, fails: the half-open interval is not kept.  A new engine
    receives the yaw
    [-3.1415926535897936], the float just below [-np.pi], from MAVLink; the
    prediction over [dt = 0.1] then adds [np.pi], which gives
    [-4.440892098500626e-16]; [%] adds [2 * np.pi] to it, which rounds to
    [2 * np.pi]; and the returned yaw is [np.pi] itself, which is not below
    [np.pi]. *)
Lemma predict_state_reaches_pi :
  let s1 := update_from_mavlink (attitude below_minus_pi) zero (init ∅).2 (init ∅).1 in
  exists (s' : store VehicleState) (r : ref) (st' : VehicleState),
    predict_state tenth zero (init ∅).2 s1 = Some (s', r)
    /\ s' !! r = Some st'
    /\ yaw st' = pi
    /\ flt (yaw st') pi = false.
Proof.
  cbv zeta.
  eexists _, _, _. split; [vm_compute; reflexivity|].
  split; [vm_compute; reflexivity|].
  split; vm_compute; reflexivity.
Qed.

End SensorFusionFacts.

(* ------------------------------------------------------------------------- *)
(** ** Who shares a list with whom *)
(* ------------------------------------------------------------------------- *)

Module ObstacleManagerFacts.
Import Store StoreFacts ObstacleManager.

(** The dialog's list is a new object: nothing a caller does to a list that
    existed before the dialog can reach it. *)
Lemma dialog_init_copies (arg : option ref) (s : lists) :
  let '(s', d) := init arg s in
  s !! obstacles d = None
  /\ contents s' (obstacles d)
     = match arg with Some r => contents s r | None => [] end
  /\ forall r f, s !! r <> None ->
       contents (caller_mutates r f s') (obstacles d) = contents s' (obstacles d).
Proof.
  unfold init. cbn. repeat split.
  - apply new_ref_fresh.
  - unfold contents. by rewrite lookup_insert_eq.
  - intros r f Hr. unfold contents, caller_mutates.
    rewrite update_other; [done|]. intros Heq. apply Hr. rewrite <- Heq.
    apply new_ref_fresh.
Qed.

(** [get_obstacles] hands out a new object: changing it leaves the dialog's
    list as it was. *)
Lemma get_obstacles_copies (d : Dialog) (s : lists) (l : list Obstacle) :
  s !! obstacles d = Some l ->
  let '(s', r) := get_obstacles d s in
  r <> obstacles d
  /\ contents s' r = l
  /\ forall f, contents (caller_mutates r f s') (obstacles d) = l.
Proof.
  intros Hl. unfold get_obstacles.
  destruct (alloc_live (contents s (obstacles d)) l s (obstacles d) Hl) as [Hne Hold].
  cbn. repeat split.
  - intros Heq. by apply Hne.
  - unfold contents. by rewrite lookup_insert_eq, Hl.
  - intros f. unfold contents, caller_mutates. rewrite update_other by done.
    unfold alloc in Hold. cbn in Hold. unfold contents in Hold. by rewrite Hold.
Qed.

(** The editor's [set_corners] and [get_corners] do the same for corners. *)
Lemma set_corners_copies (arg : ref) (e : Editor) (s : corner_lists) (l : list LatLon) :
  s !! arg = Some l ->
  let '(s', e') := set_corners arg e s in
  e_corners e' <> arg
  /\ s' !! e_corners e' = Some (PolygonEditor.py_slice_to (e_max_corners e) l)
  /\ forall f, update arg f s' !! e_corners e' = s' !! e_corners e'.
Proof.
  intros Hl. unfold set_corners. rewrite Hl. cbn.
  assert (new_ref s <> arg) as Hne.
  { intros Heq. rewrite <- Heq in Hl. by rewrite new_ref_fresh in Hl. }
  repeat split; [done|apply lookup_insert_eq|].
  intros f. by rewrite update_other.
Qed.

Lemma get_corners_copies (e : Editor) (s : corner_lists) (l : list LatLon) :
  s !! e_corners e = Some l ->
  let '(s', r) := get_corners e s in
  r <> e_corners e
  /\ s' !! r = Some l
  /\ forall f, update r f s' !! e_corners e = Some l.
Proof.
  intros Hl. unfold get_corners. rewrite Hl. cbn.
  assert (new_ref s <> e_corners e) as Hne.
  { intros Heq. rewrite <- Heq in Hl. by rewrite new_ref_fresh in Hl. }
  repeat split; [done|apply lookup_insert_eq|].
  intros f. rewrite update_other by done. by rewrite lookup_insert_ne.
Qed.

(** [on_obstacles_changed] keeps the object it is handed, and [on_apply] hands
    out the dialog's own list: from then on the window and the dialog hold one
    and the same list, and what the dialog appends shows in the window. *)
Lemma applied_list_is_shared (d : Dialog) (w : Window) (s : lists)
    (o : Obstacle) (l : list Obstacle) :
  s !! obstacles d = Some l ->
  let w' := on_obstacles_changed (on_apply d) w in
  w_obstacles w' = obstacles d
  /\ contents s (w_obstacles w') = l
  /\ contents (on_add_obstacle o d s) (w_obstacles w') = l ++ [o].
Proof.
  intros Hl. cbn. repeat split.
  - unfold contents, on_apply. by rewrite Hl.
  - unfold contents, on_add_obstacle, on_apply.
    by rewrite (update_same _ _ _ l).
Qed.

(** C8 at its failing input.  [MainWindow.on_obstacles_changed] keeps the list
    it is handed: what the caller appends afterwards is in the window's list.
    With the dialog as that caller, after "add, apply, add" the window holds
    both obstacles, the one that was applied and the one that was not. *)
Theorem window_shares_applied_list :
  store_then_append = [tower; mast] /\ apply_then_add = [tower; mast].
Proof. split; reflexivity. Qed.

End ObstacleManagerFacts.

(* ------------------------------------------------------------------------- *)
(** ** [CoordinateTransform] and [RotatedCoordinateSystem]: there and back *)
(* ------------------------------------------------------------------------- *)

Module GeometryFacts.
Import Geometry.

Section Wrappers.
Variable make_transformer : float -> float -> CoordinateTransformer.

(** The plain wrapper adds nothing to the transformer. *)
Lemma wrapper_round_trip (center_lat center_lon lat lon x y : float) :
  exact_inverse (make_transformer center_lat center_lon) ->
  let self := CoordinateTransform_init make_transformer center_lat center_lon in
  latlon_to_xy self lat lon = ret (x, y) ->
  xy_to_latlon self x y = ret (lat, lon).
Proof.
  intros Hinv self. unfold latlon_to_xy, xy_to_latlon, self. cbn.
  destruct (geo_to_local _ lat lon) as [[x' y']|e] eqn:Hgeo; cbn; [|done].
  intros [= <- <-]. by rewrite (Hinv _ _ _ _ Hgeo).
Qed.

(** The inverse rotation undoes the rotation: [cos^2 + sin^2 = 1]. *)
Lemma inverse_rotation_undoes (a x y : float) :
  matvec ((cos a, sin a), (- sin a, cos a))
         (matvec ((cos a, - sin a), (sin a, cos a)) (x, y)) = (x, y).
Proof.
  pose proof (sin2_cos2 a) as H. unfold Rsqr in H. unfold float in *.
  cbn [matvec fst snd]. f_equal.
  - transitivity (x * (sin a * sin a + cos a * cos a)); [ring|rewrite H; ring].
  - transitivity (y * (sin a * sin a + cos a * cos a)); [ring|rewrite H; ring].
Qed.

Lemma rotated_round_trip (center_lat center_lon angle_deg lat lon x y : float) :
  exact_inverse (make_transformer center_lat center_lon) ->
  let self := RotatedCoordinateSystem_init make_transformer center_lat center_lon angle_deg in
  rotated_latlon_to_xy self lat lon = ret (x, y) ->
  rotated_xy_to_latlon self x y = ret (lat, lon).
Proof.
  intros Hinv self. unfold rotated_latlon_to_xy, rotated_xy_to_latlon, self. cbn -[matvec].
  destruct (geo_to_local _ lat lon) as [[x' y']|e] eqn:Hgeo; cbn -[matvec]; [|done].
  intros [= <- <-]. set (a := Geo.radians angle_deg).
  change (cos a * x' + - sin a * y', sin a * x' + cos a * y')
    with (matvec ((cos a, - sin a), (sin a, cos a)) (x', y')).
  rewrite inverse_rotation_undoes. cbn [fst snd].
  by rewrite (Hinv _ _ _ _ Hgeo).
Qed.

End Wrappers.

(** Where its divisors are not zero the specification's inverse is exact. *)
Lemma spec_transformer_exact (R0 lat0 lon0 : float) :
  R0 <> 0 -> cos (Geo.radians lat0) <> 0 ->
  exact_inverse (spec_transformer R0 lat0 lon0).
Proof.
  intros HR Hcos lat lon x y. cbn.
  destruct (decide (Rabs lat <= 90 /\ Rabs lon <= 180)); [|done].
  intros [= <- <-].
  pose proof PI_neq0. unfold float in *.
  unfold degrees, Geo.radians, Geo.spec_geo_to_local.
  f_equal. f_equal; unfold float; field; done.
Qed.

(** C3.  With the specification's projection and its algebraic inverse,
    converting a valid [(lat, lon)] to local coordinates and back gives
    [(lat, lon)] again, through [CoordinateTransform] and through
    [RotatedCoordinateSystem] whatever its angle; in particular every point
    within 50 km of the origin comes back within [1e-6] degrees.  The two
    hypotheses say that the inverse divides by numbers that are not zero: the
    radius, and [cos] of the origin's latitude, which no float latitude makes
    zero. *)
Theorem round_trip_away_from_poles (R0 lat0 lon0 angle_deg lat lon : float) :
  R0 <> 0 -> cos (Geo.radians lat0) <> 0 ->
  let plain := CoordinateTransform_init (spec_transformer R0) lat0 lon0 in
  let rotated := RotatedCoordinateSystem_init (spec_transformer R0) lat0 lon0 angle_deg in
  (forall x y, latlon_to_xy plain lat lon = ret (x, y) ->
               xy_to_latlon plain x y = ret (lat, lon))
  /\ (forall x y, rotated_latlon_to_xy rotated lat lon = ret (x, y) ->
                  rotated_xy_to_latlon rotated x y = ret (lat, lon))
  /\ round_trip_within (latlon_to_xy plain) (xy_to_latlon plain) lat lon
  /\ round_trip_within (rotated_latlon_to_xy rotated) (rotated_xy_to_latlon rotated)
       lat lon.
Proof.
  intros HR Hcos plain rotated.
  pose proof (spec_transformer_exact R0 lat0 lon0 HR Hcos) as Hexact.
  assert (forall x y, latlon_to_xy plain lat lon = ret (x, y) ->
                      xy_to_latlon plain x y = ret (lat, lon)) as Hplain.
  { intros x y. by apply (wrapper_round_trip (spec_transformer R0)). }
  assert (forall x y, rotated_latlon_to_xy rotated lat lon = ret (x, y) ->
                      rotated_xy_to_latlon rotated x y = ret (lat, lon)) as Hrot.
  { intros x y. by apply (rotated_round_trip (spec_transformer R0)). }
  split; [exact Hplain|]. split; [exact Hrot|].
  assert (Rabs 0 <= 0.000001) as Hzero by (rewrite Rabs_R0; lra).
  split.
  - intros x y Hxy _. exists lat, lon. rewrite (Hplain x y Hxy).
    unfold float in *. by rewrite !Rminus_diag.
  - intros x y Hxy _. exists lat, lon. rewrite (Hrot x y Hxy).
    unfold float in *. by rewrite !Rminus_diag.
Qed.

Lemma round_trip_away_from_poles_witness :
  let plain := CoordinateTransform_init (spec_transformer Geo.mean_radius) 0 0 in
  let rotated := RotatedCoordinateSystem_init (spec_transformer Geo.mean_radius) 0 0 30 in
  (forall x y, latlon_to_xy plain 0.1 0.1 = ret (x, y) ->
               xy_to_latlon plain x y = ret (0.1, 0.1))
  /\ (forall x y, rotated_latlon_to_xy rotated 0.1 0.1 = ret (x, y) ->
                  rotated_xy_to_latlon rotated x y = ret (0.1, 0.1))
  /\ round_trip_within (latlon_to_xy plain) (xy_to_latlon plain) 0.1 0.1
  /\ round_trip_within (rotated_latlon_to_xy rotated) (rotated_xy_to_latlon rotated)
       0.1 0.1.
Proof.
  apply (round_trip_away_from_poles Geo.mean_radius 0 0 30 0.1 0.1).
  - unfold Geo.mean_radius. lra.
  - unfold Geo.radians. rewrite Rmult_0_l, cos_0. lra.
Defined.

End GeometryFacts.

(* ------------------------------------------------------------------------- *)
(** ** The grid search: what it returns *)
(* ------------------------------------------------------------------------- *)

Module AStarFacts.
Import AStar.

Section Search.
Context {node : Type} `{Countable node}.
Variable neighbors : node -> list node.
Variable cost : node -> node -> float.
Variable h : node -> float.
Variable at_goal : node -> bool.
Variable w : float.
Variable start : node.
Variable universe : gset node.
Variable good : Prop.

Hypothesis cost_nonneg : forall a b, b ∈ neighbors a -> 0 <= cost a b.
Hypothesis consistent : good -> forall a b, b ∈ neighbors a -> h a <= cost a b + h b.
Hypothesis weight_range : good -> 0 <= w <= 1.
Hypothesis universe_start : start ∈ universe.
Hypothesis universe_closed : forall a b, a ∈ universe -> b ∈ neighbors a -> b ∈ universe.

Abbreviation Inv := (invariant neighbors cost at_goal start universe good).
Abbreviation reach := (reach neighbors cost).
Abbreviation path_cost := (path_cost cost).
Abbreviation relax := (relax cost).
Abbreviation expand := (expand neighbors cost).
Abbreviation f := (f h w).

(** *** The least key *)

Lemma argmin_in (key : node -> float) (best : node) (rest : list node) :
  argmin key best rest ∈ best :: rest.
Proof.
  revert best. induction rest as [|n rest IH]; intros best; cbn.
  - apply list_elem_of_here.
  - destruct (decide (key n < key best)).
    + apply list_elem_of_further, IH.
    + specialize (IH best). apply elem_of_cons in IH as [->|IH].
      * apply list_elem_of_here.
      * by do 2 apply list_elem_of_further.
Qed.

Lemma argmin_le_best (key : node -> float) (best : node) (rest : list node) :
  key (argmin key best rest) <= key best.
Proof.
  revert best. induction rest as [|n rest IH]; intros best; cbn; [lra|].
  destruct (decide (key n < key best)); [|apply IH].
  specialize (IH n). lra.
Qed.

Lemma argmin_least (key : node -> float) (best : node) (rest : list node) (x : node) :
  x ∈ best :: rest -> key (argmin key best rest) <= key x.
Proof.
  revert best. induction rest as [|n rest IH]; intros best Hx; cbn.
  - apply list_elem_of_singleton in Hx as ->. lra.
  - apply elem_of_cons in Hx as [->|Hx].
    + destruct (decide (key n < key best)).
      * pose proof (argmin_le_best key n rest). lra.
      * apply argmin_le_best.
    + apply elem_of_cons in Hx as [->|Hx].
      * destruct (decide (key n < key best)).
        -- apply argmin_le_best.
        -- pose proof (argmin_le_best key best rest). lra.
      * destruct (decide (key n < key best)); apply IH; by apply list_elem_of_further.
Qed.

(** *** Ways through the graph *)

Lemma reach_nonneg (a b : node) (c : float) : reach a b c -> 0 <= c.
Proof.
  induction 1 as [|b m c _ IH Hm]; [lra|].
  pose proof (cost_nonneg b m Hm). lra.
Qed.

Lemma reach_universe (b : node) (c : float) : reach start b c -> b ∈ universe.
Proof. induction 1; [done|]. by eapply universe_closed. Qed.

(** *** Parent chains *)

Lemma walk_last (tbl : gmap node (SearchNode (node := node))) (n : node) (path : list node) :
  walk tbl n path -> last path = Some n.
Proof. destruct 1; [done|]. apply last_snoc. Qed.

Lemma walk_in_table (tbl : gmap node (SearchNode (node := node))) (n : node) (path : list node) :
  walk tbl n path -> forall x, x ∈ path -> is_Some (tbl !! x).
Proof.
  induction 1 as [n gn Hn|n gn p path Hn _ IH]; intros x Hx.
  - apply list_elem_of_singleton in Hx as ->. by eexists.
  - apply elem_of_app in Hx as [Hx|Hx]; [by apply IH|].
    apply list_elem_of_singleton in Hx as ->. by eexists.
Qed.

Lemma walk_insert (tbl : gmap node (SearchNode (node := node))) (n m : node)
    (path : list node) (v : SearchNode) :
  walk tbl n path -> m ∉ path -> walk (<[m := v]> tbl) n path.
Proof.
  induction 1 as [n gn Hn|n gn p path Hn _ IH]; intros Hm.
  - apply (walk_root _ n gn). rewrite lookup_insert_ne; [done|].
    intros ->. apply Hm, list_elem_of_here.
  - apply not_elem_of_app in Hm as [Hm1 Hm2].
    apply (walk_parent _ n gn p); [|by apply IH].
    rewrite lookup_insert_ne; [done|].
    intros ->. apply Hm2, list_elem_of_here.
Qed.

Lemma reconstruct_walk (tbl : gmap node (SearchNode (node := node))) (n : node)
    (path : list node) :
  walk tbl n path -> forall fuel, (length path <= fuel)%nat -> reconstruct fuel tbl n = path.
Proof.
  induction 1 as [n gn Hn|n gn p path Hn _ IH]; intros fuel Hfuel.
  - destruct fuel; cbn; [done|]. by rewrite Hn.
  - rewrite length_app in Hfuel. cbn in Hfuel.
    destruct fuel; [lia|]. cbn. rewrite Hn, IH; [done|lia].
Qed.

Lemma path_cost_snoc (path : list node) (p n : node) :
  last path = Some p -> path_cost (path ++ [n]) = path_cost path + cost p n.
Proof.
  induction path as [|a [|b rest] IH]; [done| |].
  - intros [= ->]. cbn. lra.
  - intros Hlast. change (last (a :: b :: rest)) with (last (b :: rest)) in Hlast.
    specialize (IH Hlast). cbn [app AStar.path_cost] in *. rewrite IH. lra.
Qed.

(** *** The frontier *)

Lemma g_of_insert_ne (tbl : gmap node (SearchNode (node := node))) (m x : node)
    (v : SearchNode) :
  x <> m -> g_of (<[m := v]> tbl) x = g_of tbl x.
Proof. intros Hx. unfold g_of. by rewrite lookup_insert_ne. Qed.

Lemma g_of_lookup (tbl : gmap node (SearchNode (node := node))) (n : node) (sn : SearchNode) :
  tbl !! n = Some sn -> g_of tbl n = g sn.
Proof. intros Hn. unfold g_of. by rewrite Hn. Qed.

(** Every way from the start to a node that is not expanded yet crosses the
    open set, at a node whose [f] is at most the way's cost plus the weighted
    heuristic of its end. *)
Lemma frontier (st : state) (m : node) (c : float) :
  good -> Inv (fun _ _ => True) st -> reach start m c -> m ∉ closed st ->
  exists m', m' ∈ open st /\ f (table st) m' <= c + w * h m.
Proof.
  intros Hgood HI Hreach. pose proof (weight_range Hgood) as Hw. induction Hreach as [|b m c Hreach IH Hm]; intros Hopen.
  - exists start. split.
    + apply (inv_open _ _ _ _ _ _ _ _ HI). split; [|done].
      rewrite (inv_start _ _ _ _ _ _ _ _ HI). by eexists.
    + unfold AStar.f. rewrite (g_of_lookup _ _ _ (inv_start _ _ _ _ _ _ _ _ HI)). cbn. lra.
  - pose proof (cost_nonneg b m Hm) as Hc. pose proof (consistent Hgood b m Hm) as Hh.
    destruct (decide (b ∈ closed st)) as [Hb|Hb].
    + destruct (inv_relaxed _ _ _ _ _ _ _ _ HI b m Hb Hm I) as [Hsome Hle].
      specialize (Hle Hgood).
      pose proof (inv_optimal _ _ _ _ _ _ _ _ HI Hgood b c Hb Hreach) as Hopt.
      exists m. split; [by apply (inv_open _ _ _ _ _ _ _ _ HI)|].
      unfold AStar.f. lra.
    + destruct (IH Hb) as (m' & Hm' & Hf). exists m'. split; [done|].
      assert (w * h b <= w * (cost b m + h m)) by (apply Rmult_le_compat_l; lra).
      assert (w * cost b m <= 1 * cost b m) by (apply Rmult_le_compat_r; lra).
      lra.
Qed.

Lemma pop_least (st : state) (n0 : node) (rest : list node) (m : node) (c : float) :
  good -> Inv (fun _ _ => True) st -> open st = n0 :: rest ->
  reach start m c -> m ∉ closed st ->
  f (table st) (argmin (f (table st)) n0 rest) <= c + w * h m.
Proof.
  intros Hgood HI Hopen Hreach Hm.
  destruct (frontier st m c Hgood HI Hreach Hm) as (m' & Hm' & Hf).
  rewrite Hopen in Hm'.
  pose proof (argmin_least (f (table st)) n0 rest m' Hm'). lra.
Qed.

(** *** One neighbour *)

(** Writing a better entry for a node that is not expanded. *)
Lemma set_node_inv (relaxed : node -> node -> Prop) (st : state) (n m : node)
    (open' : list node) :
  Inv relaxed st -> n ∈ closed st -> m ∈ neighbors n -> m ∉ closed st ->
  (forall sn, table st !! m = Some sn -> g_of (table st) n + cost n m < g sn) ->
  (forall x, x ∈ open' <-> x ∈ open st \/ x = m) ->
  Inv (fun a b => relaxed a b \/ (a = n /\ b = m))
      {| open := open';
         table := <[m := {| g := g_of (table st) n + cost n m; parent := Some n |}]>
                    (table st);
         closed := closed st |}.
Proof.
  intros HI Hn Hm Hmc Hbetter Hopen'.
  destruct (inv_closed _ _ _ _ _ _ _ _ HI n Hn) as [[sn_n Hsn_n] _].
  assert (n <> m) as Hnm by (intros ->; done).
  pose proof (inv_reach _ _ _ _ _ _ _ _ HI n sn_n Hsn_n) as Hreach_n.
  pose proof (reach_nonneg _ _ _ Hreach_n) as Hg_n.
  pose proof (cost_nonneg n m Hm) as Hc.
  rewrite <- (g_of_lookup _ _ _ Hsn_n) in Hreach_n, Hg_n.
  assert (m <> start) as Hms.
  { intros ->. specialize (Hbetter _ (inv_start _ _ _ _ _ _ _ _ HI)). cbn in Hbetter. lra. }
  assert (forall x, x ∈ closed st -> x <> m) as Hclosed_ne by (intros x Hx ->; done).
  split; cbn [open table closed].
  - rewrite lookup_insert_ne by done. apply (inv_start _ _ _ _ _ _ _ _ HI).
  - intros x. rewrite Hopen', (inv_open _ _ _ _ _ _ _ _ HI x).
    destruct (decide (x = m)) as [->|Hx].
    + rewrite lookup_insert_eq. split; [intros _; split; [by eexists|done]|by right].
    + rewrite lookup_insert_ne by done. split; [intros [?|?]; [done|done]|by left].
  - intros x Hx. destruct (inv_closed _ _ _ _ _ _ _ _ HI x Hx) as [Hsome Hgoal].
    split; [|done]. rewrite lookup_insert_ne; [done|]. intros <-. done.
  - intros x. destruct (decide (x = m)) as [->|Hx].
    + intros _. apply (universe_closed n m); [|done].
      apply (inv_universe _ _ _ _ _ _ _ _ HI). by eexists.
    + rewrite lookup_insert_ne by done. apply (inv_universe _ _ _ _ _ _ _ _ HI).
  - intros x sn. destruct (decide (x = m)) as [->|Hx].
    + rewrite lookup_insert_eq. intros [= <-]. cbn. by apply reach_step.
    + rewrite lookup_insert_ne by done. apply (inv_reach _ _ _ _ _ _ _ _ HI).
  - intros a b Ha Hb [HR|[-> ->]].
    + destruct (inv_relaxed _ _ _ _ _ _ _ _ HI a b Ha Hb HR) as [Hsome Hle].
      rewrite (g_of_insert_ne _ m a) by (by apply Hclosed_ne).
      destruct (decide (b = m)) as [->|Hbm].
      * rewrite lookup_insert_eq. split; [by eexists|]. intros Hgood.
        specialize (Hle Hgood).
        destruct Hsome as [sn_m Hsn_m]. specialize (Hbetter _ Hsn_m).
        rewrite (g_of_lookup _ _ _ Hsn_m) in Hle.
        unfold g_of at 1. rewrite lookup_insert_eq. cbn. lra.
      * rewrite lookup_insert_ne by done. by rewrite g_of_insert_ne.
    + rewrite lookup_insert_eq. split; [by eexists|]. intros _.
      rewrite (g_of_insert_ne _ m n) by done.
      unfold g_of at 1. rewrite lookup_insert_eq. cbn. lra.
  - intros Hgood a c Ha Hreach. rewrite g_of_insert_ne by (by apply Hclosed_ne).
    by apply (inv_optimal _ _ _ _ _ _ _ _ HI).
  - intros x sn. destruct (decide (x = m)) as [->|Hx].
    + rewrite lookup_insert_eq. intros [= <-]. cbn.
      destruct (inv_walk _ _ _ _ _ _ _ _ HI n sn_n Hsn_n) as (path & Hwalk & Hnodup & Hcl & Hcost).
      assert (m ∉ path) as Hm_path.
      { intros Hin. destruct (decide (m = n)) as [->|Hne]; [done|].
        by apply Hmc, Hcl. }
      exists (path ++ [m]). repeat split.
      * apply (walk_parent _ m (g_of (table st) n + cost n m) n);
          [apply lookup_insert_eq|by apply walk_insert].
      * apply NoDup_app. repeat split; [done| |apply NoDup_singleton].
        intros y Hy Hy'. apply list_elem_of_singleton in Hy' as ->. done.
      * intros y Hy Hym. apply elem_of_app in Hy as [Hy|Hy].
        -- destruct (decide (y = n)) as [->|Hyn]; [done|by apply Hcl].
        -- by apply list_elem_of_singleton in Hy.
      * rewrite (path_cost_snoc _ n) by (by eapply walk_last).
        rewrite Hcost. by rewrite (g_of_lookup _ _ _ Hsn_n).
    + rewrite lookup_insert_ne by done. intros Hsn.
      destruct (inv_walk _ _ _ _ _ _ _ _ HI x sn Hsn) as (path & Hwalk & Hnodup & Hcl & Hcost).
      exists path. repeat split; [|done|done|done].
      apply walk_insert; [done|]. intros Hin. apply Hmc, Hcl; [done|]. done.
Qed.

Lemma relax_inv (relaxed : node -> node -> Prop) (st : state) (n m : node) :
  Inv relaxed st -> n ∈ closed st -> m ∈ neighbors n ->
  Inv (fun a b => relaxed a b \/ (a = n /\ b = m)) (relax n st m)
  /\ closed (relax n st m) = closed st.
Proof.
  intros HI Hn Hm. unfold AStar.relax.
  destruct (inv_closed _ _ _ _ _ _ _ _ HI n Hn) as [[sn_n Hsn_n] _].
  pose proof (inv_reach _ _ _ _ _ _ _ _ HI n sn_n Hsn_n) as Hreach_n.
  rewrite <- (g_of_lookup _ _ _ Hsn_n) in Hreach_n.
  assert (forall st', st' = st ->
            (is_Some (table st !! m)
             /\ (good -> g_of (table st) m <= g_of (table st) n + cost n m)) ->
            Inv (fun a b => relaxed a b \/ (a = n /\ b = m)) st') as Hsame.
  { intros st' -> Hnew. split.
    - apply (inv_start _ _ _ _ _ _ _ _ HI).
    - apply (inv_open _ _ _ _ _ _ _ _ HI).
    - apply (inv_closed _ _ _ _ _ _ _ _ HI).
    - apply (inv_universe _ _ _ _ _ _ _ _ HI).
    - apply (inv_reach _ _ _ _ _ _ _ _ HI).
    - intros a b Ha Hb [HR|[-> ->]]; [by apply (inv_relaxed _ _ _ _ _ _ _ _ HI)|done].
    - apply (inv_optimal _ _ _ _ _ _ _ _ HI).
    - apply (inv_walk _ _ _ _ _ _ _ _ HI). }
  destruct (decide (m ∈ closed st)) as [Hmc|Hmc].
  { split; [|done]. apply Hsame; [done|].
    split; [by apply (inv_closed _ _ _ _ _ _ _ _ HI)|]. intros Hgood.
    apply (inv_optimal _ _ _ _ _ _ _ _ HI Hgood); [done|]. by apply reach_step. }
  destruct (table st !! m) as [sn_m|] eqn:Hsn_m.
  - destruct (decide (g_of (table st) n + cost n m < g sn_m)) as [Hlt|Hge].
    + split; [|done]. apply set_node_inv; try done.
      * intros sn Hsn. by simplify_eq.
      * intros x. split; [by left|]. intros [Hx | ->]; [done|].
        apply (inv_open _ _ _ _ _ _ _ _ HI). split; [by eexists|done].
    + split; [|done]. apply Hsame; [done|]. split; [by eexists|]. intros _.
      rewrite (g_of_lookup _ _ _ Hsn_m). lra.
  - split; [|done]. apply set_node_inv; try done.
    + intros sn Hsn. by simplify_eq.
    + intros x. rewrite elem_of_app, list_elem_of_singleton. done.
Qed.

(** *** One expansion *)

Lemma inv_weaken (relaxed relaxed' : node -> node -> Prop) (st : state) :
  Inv relaxed st ->
  (forall a b, a ∈ closed st -> b ∈ neighbors a -> relaxed' a b -> relaxed a b) ->
  Inv relaxed' st.
Proof.
  intros HI Himp. split.
  - apply (inv_start _ _ _ _ _ _ _ _ HI).
  - apply (inv_open _ _ _ _ _ _ _ _ HI).
  - apply (inv_closed _ _ _ _ _ _ _ _ HI).
  - apply (inv_universe _ _ _ _ _ _ _ _ HI).
  - apply (inv_reach _ _ _ _ _ _ _ _ HI).
  - intros a b Ha Hb HR. apply (inv_relaxed _ _ _ _ _ _ _ _ HI); [done|done|by apply Himp].
  - apply (inv_optimal _ _ _ _ _ _ _ _ HI).
  - apply (inv_walk _ _ _ _ _ _ _ _ HI).
Qed.

Lemma close_inv (st : state) (n0 : node) (rest : list node) :
  Inv (fun _ _ => True) st -> open st = n0 :: rest ->
  let n := argmin (f (table st)) n0 rest in
  at_goal n = false ->
  (n ∉ closed st) /\ Inv (fun a _ => a <> n) (close n st).
Proof.
  intros HI Hopen n Hgoal.
  assert (n ∈ open st) as Hn by (rewrite Hopen; apply argmin_in).
  destruct (proj1 (inv_open _ _ _ _ _ _ _ _ HI n) Hn) as [Hsome Hnc].
  split; [done|]. split; cbn [open table closed close].
  - apply (inv_start _ _ _ _ _ _ _ _ HI).
  - intros x. rewrite list_elem_of_filter, (inv_open _ _ _ _ _ _ _ _ HI x).
    rewrite not_elem_of_union, not_elem_of_singleton. tauto.
  - intros x Hx. apply elem_of_union in Hx as [Hx|Hx].
    + apply elem_of_singleton in Hx as ->. done.
    + by apply (inv_closed _ _ _ _ _ _ _ _ HI).
  - apply (inv_universe _ _ _ _ _ _ _ _ HI).
  - apply (inv_reach _ _ _ _ _ _ _ _ HI).
  - intros a b Ha Hb Hne. apply (inv_relaxed _ _ _ _ _ _ _ _ HI); [|done|done].
    apply elem_of_union in Ha as [Ha|Ha]; [|done].
    by apply elem_of_singleton in Ha.
  - intros Hgood a c Ha Hreach. apply elem_of_union in Ha as [Ha|Ha].
    + apply elem_of_singleton in Ha as ->.
      pose proof (pop_least st n0 rest n c Hgood HI Hopen Hreach Hnc) as Hle.
      fold n in Hle. unfold AStar.f in Hle. lra.
    + by apply (inv_optimal _ _ _ _ _ _ _ _ HI).
  - intros x sn Hsn.
    destruct (inv_walk _ _ _ _ _ _ _ _ HI x sn Hsn) as (path & Hwalk & Hnodup & Hcl & Hcost).
    exists path. repeat split; [done|done| |done].
    intros y Hy Hyx. apply elem_of_union. right. by apply Hcl.
Qed.

Lemma fold_relax_inv (n : node) (l : list node) (relaxed : node -> node -> Prop)
    (st : state) :
  Inv relaxed st -> n ∈ closed st -> (forall m, m ∈ l -> m ∈ neighbors n) ->
  Inv (fun a b => relaxed a b \/ (a = n /\ b ∈ l)) (fold_left (relax n) l st)
  /\ closed (fold_left (relax n) l st) = closed st.
Proof.
  revert relaxed st. induction l as [|m l IH]; intros relaxed st HI Hn Hl; cbn [fold_left].
  - split; [|done]. apply (inv_weaken relaxed); [done|].
    intros a b _ _ [HR|[_ Hb]]; [done|]. by apply elem_of_nil in Hb.
  - destruct (relax_inv relaxed st n m HI Hn) as [HI1 Hc1].
    { apply Hl, list_elem_of_here. }
    destruct (IH _ (relax n st m) HI1) as [HI2 Hc2].
    { by rewrite Hc1. }
    { intros x Hx. by apply Hl, list_elem_of_further. }
    split; [|by rewrite Hc2, Hc1].
    apply (inv_weaken _ _ _ HI2).
    intros a b _ _ [HR|[-> Hb]]; [by left; left|].
    apply elem_of_cons in Hb as [->|Hb]; [left; by right|right; done].
Qed.

Lemma expand_inv (st : state) (n0 : node) (rest : list node) :
  Inv (fun _ _ => True) st -> open st = n0 :: rest ->
  let n := argmin (f (table st)) n0 rest in
  at_goal n = false ->
  Inv (fun _ _ => True) (expand n st)
  /\ (n ∉ closed st)
  /\ closed (expand n st) = {[ n ]} ∪ closed st.
Proof.
  intros HI Hopen n Hgoal.
  destruct (close_inv st n0 rest HI Hopen Hgoal) as [Hnc HI1]. fold n in HI1.
  destruct (fold_relax_inv n (neighbors n) _ (close n st) HI1) as [HI2 Hc2].
  { cbn. apply elem_of_union. left. by apply elem_of_singleton. }
  { done. }
  split; [|split; [done|exact Hc2]].
  apply (inv_weaken _ _ _ HI2). intros a b _ Hb _.
  destruct (decide (a = n)) as [->|Hne]; [by right|by left].
Qed.

Lemma init_inv : Inv (fun _ _ => True) (init start).
Proof.
  split; cbn [init open table closed].
  - apply lookup_singleton_eq.
  - intros x. rewrite list_elem_of_singleton. split.
    + intros ->. rewrite lookup_singleton_eq. split; [by eexists|set_solver].
    + intros [[sn Hsn] _]. by apply lookup_singleton_Some in Hsn as [-> _].
  - intros x Hx. by apply elem_of_empty in Hx.
  - intros x [sn Hsn]. by apply lookup_singleton_Some in Hsn as [<- _].
  - intros x sn Hsn. apply lookup_singleton_Some in Hsn as [<- <-]. apply reach_here.
  - intros a b Ha. by apply elem_of_empty in Ha.
  - intros _ a c Ha. by apply elem_of_empty in Ha.
  - intros x sn Hsn. apply lookup_singleton_Some in Hsn as [<- <-].
    exists [start]. repeat split.
    + apply (walk_root _ start 0). apply lookup_singleton_eq.
    + apply NoDup_singleton.
    + intros y Hy Hne. by apply list_elem_of_singleton in Hy.
Qed.

(** *** The whole search *)

Lemma path_length_le_table (tbl : gmap node (SearchNode (node := node))) (n : node)
    (path : list node) :
  walk tbl n path -> NoDup path -> (length path <= size tbl)%nat.
Proof.
  intros Hwalk Hnodup.
  rewrite <- (size_list_to_set (C := gset node) path Hnodup), <- (size_dom tbl).
  apply subseteq_size. intros x Hx. apply elem_of_list_to_set in Hx.
  apply elem_of_dom. by eapply walk_in_table.
Qed.

(** The counter never runs out: each step expands a node of the universe that
    was not expanded before. *)
Lemma search_ends (steps : nat) (st : state) :
  Inv (fun _ _ => True) st ->
  (size universe < steps + size (closed st))%nat ->
  search neighbors cost h at_goal w steps st <> out_of_steps.
Proof.
  revert st. induction steps as [|steps IH]; intros st HI Hsize.
  - exfalso. assert (closed st ⊆ universe) as Hsub.
    { intros x Hx. apply (inv_universe _ _ _ _ _ _ _ _ HI).
      by apply (inv_closed _ _ _ _ _ _ _ _ HI). }
    apply subseteq_size in Hsub. lia.
  - cbn [search]. destruct (open st) as [|n0 rest] eqn:Hopen; [done|].
    destruct (at_goal (argmin (f (table st)) n0 rest)) eqn:Hgoal; [done|].
    destruct (expand_inv st n0 rest HI Hopen Hgoal) as (HI' & Hnc & Hc).
    apply IH; [done|]. rewrite Hc, size_union by (by apply disjoint_singleton_l).
    rewrite size_singleton. lia.
Qed.

(** A path that is returned ends at a node [t] near the goal, is a way from
    the start of the cost that is reported, and no way to a node near the goal
    beats it by more than the weighted difference of the heuristics. *)
Lemma search_found (steps : nat) (st : state) (path : list node) :
  Inv (fun _ _ => True) st ->
  search neighbors cost h at_goal w steps st = found path ->
  exists t, at_goal t = true
            /\ reach start t (path_cost path)
            /\ (good -> forall m c, at_goal m = true -> reach start m c ->
                  path_cost path + w * h t <= c + w * h m).
Proof.
  revert st. induction steps as [|steps IH]; intros st HI; [done|].
  cbn [search]. destruct (open st) as [|n0 rest] eqn:Hopen; [done|].
  set (n := argmin (f (table st)) n0 rest).
  destruct (at_goal n) eqn:Hgoal.
  - intros [= <-].
    assert (n ∈ open st) as Hn by (rewrite Hopen; apply argmin_in).
    destruct (proj1 (inv_open _ _ _ _ _ _ _ _ HI n) Hn) as [[sn Hsn] Hnc].
    destruct (inv_walk _ _ _ _ _ _ _ _ HI n sn Hsn) as (path & Hwalk & Hnodup & _ & Hcost).
    rewrite (reconstruct_walk _ _ _ Hwalk) by (by eapply path_length_le_table).
    exists n. split; [done|]. rewrite Hcost. split.
    + by apply (inv_reach _ _ _ _ _ _ _ _ HI).
    + intros Hgood m c Hm Hreach.
      assert (m ∉ closed st) as Hmc.
      { intros Hmc. destruct (inv_closed _ _ _ _ _ _ _ _ HI m Hmc) as [_ Hf]. congruence. }
      pose proof (pop_least st n0 rest m c Hgood HI Hopen Hreach Hmc) as Hle.
      fold n in Hle. unfold AStar.f in Hle. by rewrite (g_of_lookup _ _ _ Hsn) in Hle.
  - destruct (expand_inv st n0 rest HI Hopen Hgoal) as (HI' & _ & _).
    by apply IH.
Qed.

(** A search that fails has expanded every node that can be reached, and
    none of them is near the goal. *)
Lemma search_failure (steps : nat) (st : state) :
  Inv (fun _ _ => True) st ->
  search neighbors cost h at_goal w steps st = failure ->
  forall m c, reach start m c -> at_goal m = false.
Proof.
  revert st. induction steps as [|steps IH]; intros st HI; [done|].
  cbn [search]. destruct (open st) as [|n0 rest] eqn:Hopen.
  - intros _ m c Hreach.
    assert (forall x, is_Some (table st !! x) -> x ∈ closed st) as Hall.
    { intros x Hx. destruct (decide (x ∈ closed st)) as [|Hxc]; [done|].
      assert (x ∈ open st) as Hxo by (by apply (inv_open _ _ _ _ _ _ _ _ HI)).
      rewrite Hopen in Hxo. by apply elem_of_nil in Hxo. }
    assert (m ∈ closed st) as Hm.
    { induction Hreach as [|b m c _ IHr Hm].
      - apply Hall. rewrite (inv_start _ _ _ _ _ _ _ _ HI). by eexists.
      - apply Hall. by apply (inv_relaxed _ _ _ _ _ _ _ _ HI b m). }
    by apply (inv_closed _ _ _ _ _ _ _ _ HI).
  - destruct (at_goal (argmin (f (table st)) n0 rest)) eqn:Hgoal; [done|].
    destruct (expand_inv st n0 rest HI Hopen Hgoal) as (HI' & _ & _).
    by apply IH.
Qed.

End Search.

(** *** The grid as a search space *)

Section Grid.
Variable step_size : float.
Variables x0 y0 : float.
Variables nx ny : Z.
Variable free : Z * Z -> bool.
Variable goal : float * float.
Hypothesis step_pos : 0 < step_size.

Abbreviation centre := (centre step_size x0 y0).
Abbreviation grid_neighbors := (grid_neighbors nx ny free).
Abbreviation grid_cost := (grid_cost step_size).
Abbreviation euclidean := (euclidean step_size x0 y0 goal).
Abbreviation near_goal := (near_goal step_size x0 y0 goal).
Abbreviation box := (box nx ny).

Lemma dist2_dist_euc (p q : float * float) :
  Geo.dist2 p q = dist_euc (fst p) (snd p) (fst q) (snd q).
Proof. unfold Geo.dist2, dist_euc, Rsqr. f_equal. ring. Qed.

Lemma dist2_triangle (p q r : float * float) :
  Geo.dist2 p q <= Geo.dist2 p r + Geo.dist2 r q.
Proof. rewrite !dist2_dist_euc. apply triangle. Qed.

Lemma dist2_sym (p q : float * float) : Geo.dist2 p q = Geo.dist2 q p.
Proof. rewrite !dist2_dist_euc. apply distance_symm. Qed.

Lemma dist2_centres (a b : cell) :
  Geo.dist2 (centre a) (centre b)
  = sqrt (IZR ((fst b - fst a) ^ 2 + (snd b - snd a) ^ 2)) * step_size.
Proof.
  unfold Geo.dist2, AStar.centre. cbn [fst snd].
  rewrite !Z.pow_2_r, plus_IZR, !mult_IZR, !minus_IZR.
  replace ((x0 + IZR (fst b) * step_size - (x0 + IZR (fst a) * step_size)) ^ 2
           + (y0 + IZR (snd b) * step_size - (y0 + IZR (snd a) * step_size)) ^ 2)
    with (((IZR (fst b) - IZR (fst a)) * (IZR (fst b) - IZR (fst a))
           + (IZR (snd b) - IZR (snd a)) * (IZR (snd b) - IZR (snd a)))
          * (step_size * step_size)) by ring.
  rewrite sqrt_mult_alt by (apply Rplus_le_le_0_compat; apply Rle_0_sqr).
  rewrite sqrt_square by lra. done.
Qed.

Lemma neighbor_move (a b : cell) :
  b ∈ grid_neighbors a ->
  valid nx ny free b = true
  /\ ((fst b - fst a) ^ 2 + (snd b - snd a) ^ 2 = 1
       /\ (fst a = fst b \/ snd a = snd b)
      \/ (fst b - fst a) ^ 2 + (snd b - snd a) ^ 2 = 2
         /\ ~ (fst a = fst b \/ snd a = snd b))%Z.
Proof.
  unfold AStar.grid_neighbors. rewrite list_elem_of_filter.
  intros [Hvalid Hb]. split; [done|].
  apply list_elem_of_In, in_map_iff in Hb as (d & <- & Hd).
  cbn [fst snd]. unfold moves in Hd. cbn [In] in Hd.
  destruct Hd as [<-|[<-|[<-|[<-|[<-|[<-|[<-|[<-|[]]]]]]]]]; cbn [fst snd]; lia.
Qed.

Lemma grid_cost_dist (a b : cell) :
  b ∈ grid_neighbors a -> grid_cost a b = Geo.dist2 (centre a) (centre b).
Proof.
  intros Hb. apply neighbor_move in Hb as [_ Hb].
  rewrite dist2_centres. unfold AStar.grid_cost.
  destruct Hb as [[-> Horth]|[-> Hdiag]].
  - destruct (decide (fst a = fst b \/ snd a = snd b)); [|done].
    rewrite sqrt_1. lra.
  - destruct (decide (fst a = fst b \/ snd a = snd b)); [done|]. lra.
Qed.

Lemma grid_cost_nonneg (a b : cell) : b ∈ grid_neighbors a -> 0 <= grid_cost a b.
Proof.
  intros _. unfold AStar.grid_cost. pose proof (sqrt_pos 2).
  destruct (decide (fst a = fst b \/ snd a = snd b)); nra.
Qed.

(** The straight-line distance to the goal never drops by more than the cost
    of the move. *)
Lemma euclidean_consistent (a b : cell) :
  b ∈ grid_neighbors a -> euclidean a <= grid_cost a b + euclidean b.
Proof.
  intros Hb. rewrite (grid_cost_dist a b Hb). unfold AStar.euclidean.
  apply dist2_triangle.
Qed.

Lemma valid_in_box (c : cell) : valid nx ny free c = true -> c ∈ box.
Proof.
  unfold valid, in_box. intros Hc.
  apply andb_true_iff in Hc as [Hc _].
  repeat (apply andb_true_iff in Hc as [Hc ?]).
  unfold AStar.box, box_cells. apply elem_of_list_to_set, list_elem_of_In.
  destruct c as [i j]. apply in_prod_iff. cbn [fst snd] in *.
  split; apply list_elem_of_In, elem_of_seqZ; lia.
Qed.

Lemma size_list_to_set_le (l : list cell) :
  (size (list_to_set (C := gset cell) l) <= length l)%nat.
Proof.
  induction l as [|c l IH]; cbn [list_to_set length].
  - by rewrite size_empty.
  - rewrite size_union_alt, size_singleton.
    assert (size (list_to_set (C := gset cell) l ∖ {[c]}) <= size (list_to_set (C := gset cell) l))%nat.
    { apply subseteq_size, subseteq_difference_l. done. }
    lia.
Qed.

Lemma box_size : (size box < enough_steps nx ny)%nat.
Proof.
  unfold AStar.box, enough_steps, box_cells.
  pose proof (size_list_to_set_le (list_prod (seqZ 0 (nx + 1)) (seqZ 0 (ny + 1)))) as Hle.
  unfold cell in *. rewrite length_prod, !length_seqZ in Hle.
  assert (Z.to_nat (nx + 1) * Z.to_nat (ny + 1) <= Z.to_nat ((nx + 1) * (ny + 1)))%nat; [|lia].
  destruct (Z.le_gt_cases 0 (nx + 1)) as [Hx|Hx]; destruct (Z.le_gt_cases 0 (ny + 1)) as [Hy|Hy].
  - rewrite Z2Nat.inj_mul by done. lia.
  - rewrite (Z2Nat.nonpos (ny + 1)) by lia. lia.
  - rewrite (Z2Nat.nonpos (nx + 1)) by lia. lia.
  - rewrite (Z2Nat.nonpos (nx + 1)) by lia. lia.
Qed.

(** Two cells near the goal are equally far from it: they are the same cell,
    or the goal is half-way between them. *)
Lemma near_goal_same_distance (a b : cell) :
  near_goal a = true -> near_goal b = true -> euclidean a = euclidean b.
Proof.
  unfold AStar.near_goal, AStar.euclidean. intros Ha Hb.
  apply bool_decide_eq_true in Ha, Hb.
  destruct (decide (a = b)) as [->|Hne]; [done|].
  pose proof (dist2_triangle (centre a) (centre b) goal) as Htri.
  rewrite (dist2_sym goal (centre b)) in Htri.
  rewrite dist2_centres in Htri.
  assert (1 <= (fst b - fst a) ^ 2 + (snd b - snd a) ^ 2)%Z as Hsq.
  { destruct a as [ai aj], b as [bi bj]. cbn [fst snd].
    assert (ai <> bi \/ aj <> bj) as [?|?] by (destruct (decide (ai = bi)); [right; congruence|by left]); nia. }
  apply IZR_le in Hsq.
  assert (1 <= sqrt (IZR ((fst b - fst a) ^ 2 + (snd b - snd a) ^ 2))) as Hroot.
  { rewrite <- sqrt_1. by apply sqrt_le_1_alt. }
  assert (step_size <= sqrt (IZR ((fst b - fst a) ^ 2 + (snd b - snd a) ^ 2)) * step_size)
    by nra.
  lra.
Qed.

End Grid.

(** *** [plan] *)

Section Plan.
Variable step_size : float.
Variables x0 y0 : float.
Variables nx ny : Z.
Variable free : Z * Z -> bool.
Variable goal : float * float.
Variable start : cell.
Hypothesis step_pos : 0 < step_size.
Hypothesis start_valid : valid nx ny free start = true.

Abbreviation grid_neighbors := (grid_neighbors nx ny free).
Abbreviation grid_cost := (grid_cost step_size).
Abbreviation near_goal := (near_goal step_size x0 y0 goal).
Abbreviation heuristic := (heuristic step_size x0 y0 goal).
Abbreviation grid_reach := (reach grid_neighbors grid_cost).
Abbreviation grid_search w name :=
  (search grid_neighbors grid_cost (heuristic name) near_goal w
          (enough_steps nx ny) (init start)).

Lemma heuristic_consistent (name : string) (w : float) :
  optimal_setting name w ->
  forall a b, b ∈ grid_neighbors a -> heuristic name a <= grid_cost a b + heuristic name b.
Proof.
  intros [Hname _] a b Hb. unfold AStar.heuristic. rewrite Hname.
  exact (euclidean_consistent step_size x0 y0 nx ny free goal step_pos a b Hb).
Qed.

Lemma box_closed (a b : cell) : a ∈ box nx ny -> b ∈ grid_neighbors a -> b ∈ box nx ny.
Proof.
  intros _ Hb. apply (valid_in_box _ _ free).
  by apply (neighbor_move nx ny free a b).
Qed.

Lemma grid_inv (name : string) (w : float) :
  invariant grid_neighbors grid_cost near_goal start (box nx ny)
            (optimal_setting name w) (fun _ _ => True) (init start).
Proof.
  apply (init_inv grid_neighbors grid_cost (heuristic name) near_goal w).
  - intros a b. by apply grid_cost_nonneg.
  - by apply heuristic_consistent.
  - by intros [_ ?].
  - by apply (valid_in_box _ _ free).
  - apply box_closed.
Qed.

(** The search of [plan] ends, by a path or by an empty open set. *)
Lemma grid_search_ends (name : string) (w : float) : grid_search w name <> out_of_steps.
Proof.
  apply (search_ends grid_neighbors grid_cost (heuristic name) near_goal w start
           (box nx ny) (optimal_setting name w)).
  - intros a b. by apply grid_cost_nonneg.
  - by apply heuristic_consistent.
  - by intros [_ ?].
  - apply box_closed.
  - apply grid_inv.
  - cbn [init closed]. rewrite size_empty, Nat.add_0_r. apply box_size.
Qed.

Lemma grid_search_found (name : string) (w : float) (path : list cell) :
  grid_search w name = found path ->
  exists t, near_goal t = true
            /\ grid_reach start t (path_cost grid_cost path)
            /\ (optimal_setting name w ->
                forall m c, near_goal m = true -> grid_reach start m c ->
                  path_cost grid_cost path + w * heuristic name t <= c + w * heuristic name m).
Proof.
  apply (search_found grid_neighbors grid_cost (heuristic name) near_goal w start
           (box nx ny) (optimal_setting name w)).
  - intros a b. by apply grid_cost_nonneg.
  - by apply heuristic_consistent.
  - by intros [_ ?].
  - apply box_closed.
  - apply grid_inv.
Qed.

Lemma grid_search_failure (name : string) (w : float) :
  grid_search w name = failure ->
  forall m c, grid_reach start m c -> near_goal m = false.
Proof.
  apply (search_failure grid_neighbors grid_cost (heuristic name) near_goal w start
           (box nx ny) (optimal_setting name w)).
  - intros a b. by apply grid_cost_nonneg.
  - by apply heuristic_consistent.
  - by intros [_ ?].
  - apply box_closed.
  - apply grid_inv.
Qed.

End Plan.

(** *** Dijkstra and A-star *)

Lemma dijkstra_selection (w : MainWindow.t) :
  MainWindow.select_planner (MainWindow.with_algorithm "dijkstra" w)
  = MainWindow.with_weight (Some 0.0)
      (MainWindow.select_planner (MainWindow.with_algorithm "astar" w)).
Proof.
  unfold MainWindow.select_planner. cbn.
  by destruct (MainWindow.corners w) as [|c0 [|c1 rest]].
Qed.

Lemma astar_selection (w : MainWindow.t) :
  MainWindow.select_planner (MainWindow.with_algorithm "astar" w) = MainWindow.no_call
  \/ exists start goal,
       MainWindow.select_planner (MainWindow.with_algorithm "astar" w)
       = MainWindow.astar_plan
           {| MainWindow.as_collision_checker := false;
              MainWindow.as_step_size := MainWindow.spacing (MainWindow.flight_params w);
              MainWindow.as_heuristic := "euclidean";
              MainWindow.as_heuristic_weight := None |}
           start goal (MainWindow.corners w).
Proof.
  unfold MainWindow.select_planner. cbn.
  destruct (MainWindow.corners w) as [|c0 [|c1 rest]]; [by left|by left|].
  right. by eexists _, _.
Qed.

Lemma equal_cost_searches (step_size x0 y0 : float) (nx ny : Z) (free : Z * Z -> bool)
    (goal : float * float) (start : cell) :
  0 < step_size -> valid nx ny free start = true ->
  match search (grid_neighbors nx ny free) (grid_cost step_size)
               (heuristic step_size x0 y0 goal "euclidean")
               (near_goal step_size x0 y0 goal) 0.0 (enough_steps nx ny) (init start),
        search (grid_neighbors nx ny free) (grid_cost step_size)
               (heuristic step_size x0 y0 goal "euclidean")
               (near_goal step_size x0 y0 goal) 1 (enough_steps nx ny) (init start) with
  | found p0, found p1 =>
      path_cost (grid_cost step_size) p0 = path_cost (grid_cost step_size) p1
  | failure, failure => True
  | _, _ => False
  end.
Proof.
  intros Hstep Hstart.
  pose proof (grid_search_ends step_size x0 y0 nx ny free goal start Hstep Hstart
                "euclidean" 0.0) as Hend0.
  pose proof (grid_search_ends step_size x0 y0 nx ny free goal start Hstep Hstart
                "euclidean" 1) as Hend1.
  pose proof (grid_search_found step_size x0 y0 nx ny free goal start Hstep Hstart
                "euclidean" 0.0) as Hfound0.
  pose proof (grid_search_found step_size x0 y0 nx ny free goal start Hstep Hstart
                "euclidean" 1) as Hfound1.
  pose proof (grid_search_failure step_size x0 y0 nx ny free goal start Hstep Hstart
                "euclidean" 0.0) as Hfail0.
  pose proof (grid_search_failure step_size x0 y0 nx ny free goal start Hstep Hstart
                "euclidean" 1) as Hfail1.
  assert (optimal_setting "euclidean" 0.0) as Hgood0 by (split; [done|lra]).
  assert (optimal_setting "euclidean" 1) as Hgood1 by (split; [done|lra]).
  destruct (search _ _ _ _ 0.0 _ _) as [| |p0]; [done| |];
    destruct (search _ _ _ _ 1 _ _) as [| |p1]; try done.
  - destruct (Hfound1 p1 eq_refl) as (t1 & Ht1 & Hreach1 & _).
    specialize (Hfail0 eq_refl t1 _ Hreach1). congruence.
  - destruct (Hfound0 p0 eq_refl) as (t0 & Ht0 & Hreach0 & _).
    specialize (Hfail1 eq_refl t0 _ Hreach0). congruence.
  - destruct (Hfound0 p0 eq_refl) as (t0 & Ht0 & Hreach0 & Hopt0).
    destruct (Hfound1 p1 eq_refl) as (t1 & Ht1 & Hreach1 & Hopt1).
    specialize (Hopt0 Hgood0 t1 _ Ht1 Hreach1).
    specialize (Hopt1 Hgood1 t0 _ Ht0 Hreach0).
    pose proof (near_goal_same_distance step_size x0 y0 goal Hstep t0 t1 Ht0 Ht1) as Hsame.
    change (heuristic step_size x0 y0 goal "euclidean")
      with (euclidean step_size x0 y0 goal) in *.
    lra.
Qed.

(** C4.  The Dijkstra entry of the algorithm list builds the same
    [AStarPlanner] call as the A-star entry, with [heuristic_weight=0.0] as the
    one added argument; and on one grid, from one start cell, the planner of
    section 4.5 with the straight-line heuristic ends the same way with weight
    [0] and with weight [1]: with the same exception, with no path, or with two
    paths of the same total cost. *)
Theorem dijkstra_is_astar_with_weight_zero :
  (forall w : MainWindow.t,
      MainWindow.select_planner (MainWindow.with_algorithm "dijkstra" w)
      = MainWindow.with_weight (Some 0.0)
          (MainWindow.select_planner (MainWindow.with_algorithm "astar" w)))
  /\ (forall (step_size x0 y0 : float) (nx ny : Z) (free : Z * Z -> bool)
             (goal : float * float) (start : cell),
        match plan step_size x0 y0 nx ny free goal "euclidean" 0.0 start,
              plan step_size x0 y0 nx ny free goal "euclidean" 1 start with
        | Geometry.ret (Some p0), Geometry.ret (Some p1) =>
            path_cost (grid_cost step_size) p0 = path_cost (grid_cost step_size) p1
        | Geometry.ret None, Geometry.ret None => True
        | Geometry.raise e0, Geometry.raise e1 => e0 = e1
        | _, _ => False
        end).
Proof.
  split; [exact dijkstra_selection|].
  intros step_size x0 y0 nx ny free goal start. unfold plan.
  destruct (decide (step_size <= 0)) as [|Hstep]; [done|].
  destruct (decide (0.0 < 0)) as [|_]; [lra|].
  destruct (decide (1 < 0)) as [|_]; [lra|].
  destruct (valid nx ny free start) eqn:Hstart; cbn [negb]; [|done].
  assert (0 < step_size) as Hpos by lra.
  pose proof (equal_cost_searches step_size x0 y0 nx ny free goal start Hpos Hstart) as H.
  destruct (search _ _ _ _ 0.0 _ _) as [| |p0];
    destruct (search _ _ _ _ 1 _ _) as [| |p1]; done.
Qed.

End AStarFacts.

(* ------------------------------------------------------------------------- *)
(** ** A search that finds nothing *)
(* ------------------------------------------------------------------------- *)

Module PlanningFailure.
Import Geometry.

(** *** The grid search *)

Lemma astar_raise (step_size x0 y0 : float) (nx ny : Z) (free : Z * Z -> bool)
    (goal : float * float) (name : string) (w : float) (start : AStar.cell) (e : exn) :
  AStar.plan step_size x0 y0 nx ny free goal name w start = raise e ->
  e = InvalidInputError
  /\ (step_size <= 0 \/ w < 0 \/ AStar.valid nx ny free start = false).
Proof.
  unfold AStar.plan.
  destruct (decide (step_size <= 0)); [intros [= <-]; by auto|].
  destruct (decide (w < 0)); [intros [= <-]; by auto|].
  destruct (AStar.valid nx ny free start); cbn [negb]; [|intros [= <-]; by auto].
  by destruct (AStar.search _ _ _ _ _ _ _).
Qed.

Lemma astar_none (step_size x0 y0 : float) (nx ny : Z) (free : Z * Z -> bool)
    (goal : float * float) (name : string) (w : float) (start : AStar.cell) :
  0 < step_size -> 0 <= w -> AStar.valid nx ny free start = true ->
  AStar.plan step_size x0 y0 nx ny free goal name w start = ret None
  <-> (forall m c,
         AStar.reach (AStar.grid_neighbors nx ny free) (AStar.grid_cost step_size) start m c ->
         AStar.near_goal step_size x0 y0 goal m = false).
Proof.
  intros Hstep Hw Hstart. unfold AStar.plan.
  destruct (decide (step_size <= 0)); [lra|].
  destruct (decide (w < 0)); [lra|]. rewrite Hstart. cbn [negb].
  pose proof (AStarFacts.grid_search_ends step_size x0 y0 nx ny free goal start
                Hstep Hstart name w) as Hend.
  pose proof (AStarFacts.grid_search_found step_size x0 y0 nx ny free goal start
                Hstep Hstart name w) as Hfound.
  pose proof (AStarFacts.grid_search_failure step_size x0 y0 nx ny free goal start
                Hstep Hstart name w) as Hfail.
  destruct (AStar.search _ _ _ _ _ _ _) as [| |path]; [done| |].
  - split; [intros _; by apply Hfail|done].
  - split; [done|]. intros Hnone.
    destruct (Hfound path eq_refl) as (t & Ht & Hreach & _).
    specialize (Hnone t _ Hreach). congruence.
Qed.

(** *** The sampling search *)

Section Sampling.
Variable is_segment_colliding : RRT.point -> RRT.point -> bool.
Variable step_size goal_sample_rate : float.
Variable max_iter : Z.
Variable search_radius : option float.
Variable draw : nat -> float * RRT.point.

Abbreviation rrt_plan :=
  (RRT.plan is_segment_colliding step_size goal_sample_rate max_iter search_radius draw).
Abbreviation rrt_malformed :=
  (RRT.malformed step_size goal_sample_rate max_iter search_radius).

Lemma rrt_raise (start goal : RRT.point) (e : exn) :
  rrt_plan start goal = raise e -> e = InvalidInputError /\ rrt_malformed.
Proof.
  unfold RRT.plan. destruct (decide _) as [Hbad|_]; [by intros [= <-]|].
  by destruct (decide (start = goal)).
Qed.

Lemma rrt_returns (start goal : RRT.point) :
  ~ rrt_malformed -> exists r, rrt_plan start goal = ret r.
Proof.
  intros Hok. unfold RRT.plan. destruct (decide _) as [Hbad|_]; [done|].
  destruct (decide (start = goal)); by eexists.
Qed.

(** When no segment into the goal is free, every iteration is used up and the
    result is [None]. *)
Lemma grow_blocked (goal : RRT.point) :
  (forall p, is_segment_colliding p goal = true) ->
  forall iterations k tree,
    RRT.grow is_segment_colliding step_size goal_sample_rate search_radius draw
             iterations k goal tree = None.
Proof.
  intros Hblocked. induction iterations as [|iterations IH]; intros k tree; [done|].
  cbn [RRT.grow]. destruct (is_segment_colliding _ _); [apply IH|].
  rewrite Hblocked, andb_false_r. apply IH.
Qed.

Lemma rrt_none (start goal : RRT.point) :
  ~ rrt_malformed -> start <> goal ->
  (forall p, is_segment_colliding p goal = true) ->
  rrt_plan start goal = ret None.
Proof.
  intros Hok Hne Hblocked. unfold RRT.plan.
  destruct (decide _) as [Hbad|_]; [done|].
  destruct (decide (start = goal)); [done|].
  by rewrite grow_blocked.
Qed.

End Sampling.

(** *** The callers in [MainWindow] *)

Lemma preview_without_path
    (run : MainWindow.PlannerCall -> MainWindow.PlanOutcome)
    (calculate_coverage_area : list LatLon -> option float)
    (estimate_mission_time : list LatLon -> float -> option float)
    (w : MainWindow.t) (path : option (list LatLon)) :
  (MainWindow.MIN_CORNERS <= length (MainWindow.corners w))%nat ->
  MainWindow.planned_path run (MainWindow.select_planner w) = MainWindow.returned path ->
  MainWindow.falsy path = true ->
  fst (MainWindow.on_preview_paths run calculate_coverage_area estimate_mission_time w) = w
  /\ last (snd (MainWindow.on_preview_paths run calculate_coverage_area
                  estimate_mission_time w))
     = Some MainWindow.warning_path_failed
  /\ ~ In MainWindow.critical_error
         (snd (MainWindow.on_preview_paths run calculate_coverage_area
                 estimate_mission_time w)).
Proof.
  intros Hlen Hrun Hfalsy. unfold MainWindow.on_preview_paths.
  apply Nat.ltb_ge in Hlen. rewrite Hlen, Hrun, Hfalsy. cbn [fst snd].
  split; [done|]. split; [apply last_snoc|].
  destruct (MainWindow.select_planner w); cbn; intros H; intuition discriminate.
Qed.

Lemma auto_generate_without_path
    (run : MainWindow.PlannerCall -> MainWindow.PlanOutcome)
    (w : MainWindow.t) (path : option (list LatLon)) :
  (forall call, run call = MainWindow.returned path) ->
  MainWindow.falsy path = true ->
  MainWindow._auto_generate_path run w = (w, []).
Proof.
  intros Hrun Hfalsy. unfold MainWindow._auto_generate_path.
  destruct (_ <? _)%nat; [done|]. by rewrite Hrun, Hfalsy.
Qed.

(** On the grid of one free cell nothing but the start is reached. *)
Lemma single_cell_reach (step_size : float) (m : AStar.cell) (c : float) :
  AStar.reach (AStar.grid_neighbors 0 0 (fun _ => true)) (AStar.grid_cost step_size)
              (0, 0)%Z m c ->
  m = (0, 0)%Z.
Proof.
  induction 1 as [|b m c _ _ Hm]; [done|].
  unfold AStar.grid_neighbors in Hm. apply list_elem_of_filter in Hm as [Hvalid _].
  unfold AStar.valid, AStar.in_box in Hvalid. destruct m as [i j]. cbn [fst snd] in Hvalid.
  rewrite andb_true_r in Hvalid.
  repeat (apply andb_true_iff in Hvalid as [Hvalid ?]).
  f_equal; lia.
Qed.

Lemma far_goal : AStar.near_goal 1 0 0 (3, 4) (0, 0)%Z = false.
Proof.
  unfold AStar.near_goal, AStar.centre, Geo.dist2. cbn [fst snd].
  apply bool_decide_eq_false. intros Hnear.
  replace ((3 - (0 + 0 * 1)) ^ 2 + (4 - (0 + 0 * 1)) ^ 2) with (5 * 5) in Hnear
    by (unfold float; ring).
  rewrite sqrt_square in Hnear by lra. lra.
Qed.

(** C5. A planning call that uses up its search budget ends with the failure
    value [None], never with an exception; the only exception of a planner is
    [InvalidInputError], for input rejected at entry.  Grid search: [plan]
    raises only for a non-positive [step_size], a negative weight or an invalid
    start, and for accepted input it returns [None] exactly when no cell near
    the goal can be reached (the open set runs empty).  Sampling search:
    [plan] raises only for malformed parameters, returns a value for all other
    input, and returns [None] after [max_iter] iterations when no segment into
    the goal is free.  The callers: with [None] or an empty path from the
    planner, [on_preview_paths] shows the "path failed" warning, not the error
    dialog, and leaves the window as it was, and [_auto_generate_path] returns
    silently with the window as it was. *)
Theorem exhausted_search_is_not_an_exception :
  (forall step_size x0 y0 nx ny free goal name w start,
      (forall e,
          AStar.plan step_size x0 y0 nx ny free goal name w start = raise e ->
          e = InvalidInputError
          /\ (step_size <= 0 \/ w < 0 \/ AStar.valid nx ny free start = false))
      /\ (0 < step_size -> 0 <= w -> AStar.valid nx ny free start = true ->
          (exists r, AStar.plan step_size x0 y0 nx ny free goal name w start = ret r)
          /\ (AStar.plan step_size x0 y0 nx ny free goal name w start = ret None
              <-> (forall m c,
                     AStar.reach (AStar.grid_neighbors nx ny free)
                                 (AStar.grid_cost step_size) start m c ->
                     AStar.near_goal step_size x0 y0 goal m = false))))
  /\ (forall is_segment_colliding step_size goal_sample_rate max_iter search_radius
             draw start goal,
      (forall e,
          RRT.plan is_segment_colliding step_size goal_sample_rate max_iter
                   search_radius draw start goal = raise e ->
          e = InvalidInputError
          /\ RRT.malformed step_size goal_sample_rate max_iter search_radius)
      /\ (~ RRT.malformed step_size goal_sample_rate max_iter search_radius ->
          (exists r, RRT.plan is_segment_colliding step_size goal_sample_rate max_iter
                              search_radius draw start goal = ret r)
          /\ (start <> goal -> (forall p, is_segment_colliding p goal = true) ->
              RRT.plan is_segment_colliding step_size goal_sample_rate max_iter
                       search_radius draw start goal = ret None)))
  /\ (forall run calculate_coverage_area estimate_mission_time w path,
      (MainWindow.MIN_CORNERS <= length (MainWindow.corners w))%nat ->
      MainWindow.planned_path run (MainWindow.select_planner w)
      = MainWindow.returned path ->
      MainWindow.falsy path = true ->
      fst (MainWindow.on_preview_paths run calculate_coverage_area
             estimate_mission_time w) = w
      /\ last (snd (MainWindow.on_preview_paths run calculate_coverage_area
                      estimate_mission_time w))
         = Some MainWindow.warning_path_failed
      /\ ~ In MainWindow.critical_error
             (snd (MainWindow.on_preview_paths run calculate_coverage_area
                     estimate_mission_time w)))
  /\ (forall run w path,
      (forall call, run call = MainWindow.returned path) ->
      MainWindow.falsy path = true ->
      MainWindow._auto_generate_path run w = (w, [])).
Proof.
  split; [|split; [|split]].
  - intros. split; [intros e; apply astar_raise|].
    intros Hstep Hw Hstart. split; [|by apply astar_none].
    destruct (AStar.plan step_size x0 y0 nx ny free goal name w start) as [r|e] eqn:Hplan;
      [by eexists|].
    apply astar_raise in Hplan as [_ [?|[?|?]]]; [lra|lra|congruence].
  - intros. split; [intros e; apply rrt_raise|].
    intros Hok. split; [by apply rrt_returns|]. intros. by apply rrt_none.
  - intros run area time w path Hlen Hrun Hfalsy.
    by apply (preview_without_path run area time w path).
  - intros run w path Hrun Hfalsy. by apply (auto_generate_without_path run w path).
Qed.

Lemma exhausted_search_is_not_an_exception_witness :
  AStar.plan 1 0 0 0 0 (fun _ => true) (3, 4) "euclidean" 1 (0, 0)%Z = ret None
  /\ RRT.plan (fun _ _ => true) 1 0.5 10 None (fun _ => (0, (0, 0))) (0, 0) (3, 4)
     = ret None
  /\ MainWindow._auto_generate_path (fun _ => MainWindow.returned None)
       MainWindow.rrt_window = (MainWindow.rrt_window, []).
Proof.
  destruct exhausted_search_is_not_an_exception as (Hgrid & Hsampling & _ & Hauto).
  split; [|split].
  - apply (Hgrid 1 0 0 0%Z 0%Z (fun _ => true) (3, 4) "euclidean" 1 (0, 0)%Z);
      [lra|lra|reflexivity|].
    intros m c Hreach. rewrite (single_cell_reach _ _ _ Hreach). apply far_goal.
  - apply (Hsampling (fun _ _ => true) 1 0.5 10%Z None (fun _ => (0, (0, 0))) (0, 0) (3, 4)).
    + unfold RRT.malformed, RRT.bad_radius. intros [?|[?|[?|[?|[]]]]]; lra || lia.
    + intros [= ? _]. lra.
    + reflexivity.
  - apply (Hauto _ _ None); reflexivity.
Defined.

End PlanningFailure.

(* ------------------------------------------------------------------------- *)
(** ** [SensorFusionEngine]: feeding and reading *)
(* ------------------------------------------------------------------------- *)

Module SensorFusionMore.
Import Store StoreFacts Binary64 SensorFusion.

Section Feeding.

Variable arctan2 : f64 -> f64 -> f64.

Lemma feed_never_written (u : Update) (es : t * store VehicleState) :
  never_written es -> never_written (feed arctan2 u es).
Proof.
  intros (st & Hst & Hvz & Hrate). destruct es as [e s]. cbn [fst snd] in *.
  destruct u as [msg now|pose_matrix now]; cbn [feed fst snd].
  - unfold update_from_mavlink. eexists. split; [by apply update_same|]. by cbn.
  - unfold update_from_vio. cbn [fst snd _state]. eexists.
    split; [by apply update_same|]. by cbn.
Qed.

Lemma feed_at_origin (u : Update) (es : t * store VehicleState) :
  is_mavlink u = true -> at_origin es -> at_origin (feed arctan2 u es).
Proof.
  intros Hu (Hvio & st & Hst & Hx & Hy & Hz). destruct es as [e s]. cbn [fst snd] in *.
  destruct u as [msg now|pose_matrix now]; [|done]. cbn [feed fst snd].
  split; [done|]. unfold update_from_mavlink. eexists.
  split; [by apply update_same|]. by cbn.
Qed.

Lemma init_never_written (s : store VehicleState) :
  never_written ((init s).2, (init s).1) /\ at_origin ((init s).2, (init s).1).
Proof.
  unfold never_written, at_origin, init. cbn.
  split; [|split; [done|]]; exists default_state;
    (split; [apply lookup_insert_eq|by cbn]).
Qed.

Lemma fold_feed_never_written (updates : list Update) (es : t * store VehicleState) :
  never_written es ->
  never_written (fold_left (fun es u => feed arctan2 u es) updates es).
Proof.
  revert es. induction updates as [|u updates IH]; intros es Hes; [done|].
  cbn [fold_left]. apply IH. by apply feed_never_written.
Qed.

Lemma fold_feed_at_origin (updates : list Update) (es : t * store VehicleState) :
  forallb is_mavlink updates = true -> at_origin es ->
  at_origin (fold_left (fun es u => feed arctan2 u es) updates es).
Proof.
  revert es. induction updates as [|u updates IH]; intros es Hall Hes; [done|].
  cbn [forallb] in Hall. apply andb_true_iff in Hall as [Hu Hall].
  cbn [fold_left]. apply IH; [done|]. by apply feed_at_origin.
Qed.



End Feeding.


End SensorFusionMore.

(* ------------------------------------------------------------------------- *)
(** ** The batch conversions and the rotation *)
(* ------------------------------------------------------------------------- *)

Module GeometryMore.
Import Geometry.

Lemma comprehension_pointwise {A B} (f : A -> py B) (points : list A) :
  pointwise f points (comprehension f points).
Proof.
  induction points as [|p rest IH]; [by constructor|].
  cbn [comprehension]. destruct (f p) as [q|e] eqn:Hp; cbn.
  - unfold pointwise in IH. destruct (comprehension f rest) as [qs|e]; cbn.
    + by constructor.
    + destruct IH as (i & p' & Hi & Hraise & Hbefore).
      exists (S i), p'. split; [done|]. split; [done|].
      intros [|j] p'' Hj Hp''.
      * cbn in Hp''. injection Hp'' as <-. by exists q.
      * cbn in Hp''. apply (Hbefore j); [lia|done].
  - exists O, p. split; [done|]. split; [done|]. intros j p' Hj. lia.
Qed.

Lemma comprehension_round_trip {A B} (f : A -> py B) (g : B -> py A) (points : list A) :
  (forall p q, f p = ret q -> g q = ret p) ->
  (out ← comprehension f points; comprehension g out)
  = (_ ← comprehension f points; ret points).
Proof.
  intros Hback. induction points as [|p rest IH]; [done|].
  cbn [comprehension]. destruct (f p) as [q|e] eqn:Hp; cbn; [|done].
  destruct (comprehension f rest) as [qs|e]; cbn in *; [|done].
  by rewrite (Hback p q Hp), IH.
Qed.





End GeometryMore.

(* ------------------------------------------------------------------------- *)
(** ** The camera model and the survey calculator *)
(* ------------------------------------------------------------------------- *)

Module CameraFacts.
Import Camera.

Lemma div_ok (a b : float) : b <> 0 -> div a b = ok (a / b).
Proof. intros Hb. unfold div. by case_decide. Qed.

Lemma div_zero (a : float) : div a 0 = raises ZeroDivisionError.
Proof. unfold div. case_decide; [done|]. exfalso. auto. Qed.






Lemma half_angle_range (q : float) :
  0 <= q -> 0 <= Geometry.degrees (2 * atan q) <= 180.
Proof.
  intros Hq. pose proof PI_RGT_0 as Hpi. pose proof (atan_bound q) as [_ Hup].
  assert (0 <= atan q) as Hlow.
  { destruct Hq as [Hq| <-]; [|by rewrite atan_0; lra].
    pose proof (atan_increasing 0 q Hq) as H. rewrite atan_0 in H. lra. }
  unfold Geometry.degrees, float in *.
  assert (0 < 180 / PI) as Hk by (apply Rdiv_lt_0_compat; lra).
  split.
  - apply Rmult_le_pos; lra.
  - replace 180 with (PI * (180 / PI)) at 2 by (field; lra).
    apply Rmult_le_compat_r; lra.
Qed.





End CameraFacts.

(* ------------------------------------------------------------------------- *)
(** ** The corner list of the window and the corner list of the map *)
(* ------------------------------------------------------------------------- *)

Module AppFacts.
Import App.

Lemma add_corner_corners (lat lon : float) (m : MapWidget.t) :
  MapWidget.corners (MapWidget.add_corner lat lon m).1
  = if (MapWidget.MAX_CORNERS <=? length (MapWidget.corners m))%nat
    then MapWidget.corners m
    else MapWidget.corners m ++ [(lat, lon)].
Proof. unfold MapWidget.add_corner. by destruct (_ <=? _)%nat. Qed.

(** Passing a list of corners to [add_corner] one by one appends as many of
    them as the cap leaves room for. *)
Lemma add_corners_corners (cs : list LatLon) (m : MapWidget.t) :
  MapWidget.corners (add_corners cs m)
  = MapWidget.corners m
    ++ firstn (MapWidget.MAX_CORNERS - length (MapWidget.corners m)) cs.
Proof.
  revert m. induction cs as [|[lat lon] cs IH]; intros m.
  - cbn. by rewrite firstn_nil, app_nil_r.
  - unfold add_corners. cbn [fold_left fst snd]. fold (add_corners cs).
    rewrite IH, add_corner_corners.
    destruct (MapWidget.MAX_CORNERS <=? length (MapWidget.corners m))%nat eqn:Hcap.
    + apply Nat.leb_le in Hcap.
      replace (MapWidget.MAX_CORNERS - length (MapWidget.corners m))%nat with O by lia.
      done.
    + apply Nat.leb_gt in Hcap. rewrite length_app. cbn [length].
      replace (MapWidget.MAX_CORNERS - length (MapWidget.corners m))%nat
        with (S (MapWidget.MAX_CORNERS - (length (MapWidget.corners m) + 1))) by lia.
      cbn [firstn]. by rewrite <- app_assoc.
Qed.

Lemma add_corners_cap (cs : list LatLon) (m : MapWidget.t) :
  (length (MapWidget.corners m) <= MapWidget.MAX_CORNERS)%nat ->
  (length (MapWidget.corners (add_corners cs m)) <= MapWidget.MAX_CORNERS)%nat.
Proof.
  intros Hm. rewrite add_corners_corners, length_app, length_firstn. lia.
Qed.

Lemma length_removelast {A} (l : list A) : length (removelast l) = (length l - 1)%nat.
Proof.
  destruct l as [|a l] using rev_ind; [done|].
  rewrite removelast_last, length_app. cbn. lia.
Qed.


Lemma step_map_capped (ev : Event) (app : t) : map_capped app -> map_capped (step ev app).
Proof.
  unfold map_capped. intros Hm. destruct ev; cbn [step].
  - unfold map_clicked, MapWidget.on_map_clicked.
    destruct (MapWidget.edit_mode (map_widget app)); [|done].
    pose proof (add_corner_corners lat lon (map_widget app)) as Hadd.
    destruct (MapWidget.add_corner lat lon (map_widget app)) as [m' added] eqn:Hm'.
    cbn [fst] in Hadd.
    assert (length (MapWidget.corners m') <= MapWidget.MAX_CORNERS)%nat.
    { rewrite Hadd.
      destruct (MapWidget.MAX_CORNERS <=? length (MapWidget.corners (map_widget app)))%nat
        eqn:Hcap; [done|].
      apply Nat.leb_gt in Hcap. rewrite length_app. cbn. lia. }
    by destruct added.
  - unfold marker_moved, MapWidget.on_marker_moved, MapWidget.move_corner. cbn.
    destruct (_ && _); [|done]. cbn. by rewrite length_insert.
  - unfold on_manual_corner_added. destruct (_ <=? _)%nat; [done|]. cbn.
    rewrite add_corner_corners.
    destruct (MapWidget.MAX_CORNERS <=? length (MapWidget.corners (map_widget app)))%nat
      eqn:Hcap; [done|].
    apply Nat.leb_gt in Hcap. rewrite length_app. cbn. lia.
  - unfold on_delete_last_corner. destruct (MainWindow.corners (window app)); [done|].
    cbn [map_widget]. apply add_corners_cap.
    destruct (MapWidget.corners (map_widget app)) eqn:Hmc; [by rewrite Hmc|].
    cbn [MapWidget.corners]. rewrite length_removelast. cbn [length] in *. lia.
  - cbn. lia.
  - done.
  - unfold on_clear_all. destruct reply_yes; [|done]. cbn. lia.
  - unfold _sync_corners_from_editor. cbn [map_widget]. apply add_corners_cap. cbn. lia.
  - unfold show_path, MapWidget.display_path. cbn [map_widget].
    by destruct (length path <? 2)%nat.
  - done.
Qed.

Lemma step_window_capped (ev : Event) (app : t) :
  capped ev -> window_capped app -> window_capped (step ev app).
Proof.
  unfold window_capped. intros Hev Hw. destruct ev; cbn [step].
  - unfold map_clicked.
    destruct (MapWidget.on_map_clicked lat lon (map_widget app)) as [m' [[lat' lon']|]];
      [|done].
    cbn. unfold MainWindow.on_corner_added.
    destruct (MainWindow.MAX_CORNERS <=? _)%nat eqn:Hcap; [done|].
    apply Nat.leb_gt in Hcap. cbn. rewrite length_app. cbn. lia.
  - unfold marker_moved. cbn. unfold on_corner_moved.
    destruct (_ && _); [|done]. cbn. by rewrite length_insert.
  - unfold on_manual_corner_added.
    destruct (MainWindow.MAX_CORNERS <=? _)%nat eqn:Hcap; [done|].
    apply Nat.leb_gt in Hcap. cbn. rewrite length_app. cbn. lia.
  - unfold on_delete_last_corner.
    destruct (MainWindow.corners (window app)) eqn:Hc; [by rewrite Hc|].
    cbn [window set_corners MainWindow.corners]. rewrite length_removelast.
    cbn [length] in *. lia.
  - cbn. unfold MainWindow.MAX_CORNERS. lia.
  - done.
  - unfold on_clear_all. destruct reply_yes; [|done]. cbn. unfold MainWindow.MAX_CORNERS. lia.
  - done.
  - done.
  - done.
Qed.


Lemma run_map_capped (events : list Event) (app : t) :
  map_capped app -> map_capped (run events app).
Proof.
  revert app. induction events as [|ev events IH]; intros app Happ; [done|].
  cbn. apply IH. by apply step_map_capped.
Qed.

Lemma run_window_capped (events : list Event) (app : t) :
  Forall capped events -> window_capped app -> window_capped (run events app).
Proof.
  revert app. induction events as [|ev events IH]; intros app Hall Happ; [done|].
  inversion Hall; subst. cbn. apply IH; [done|]. by apply step_window_capped.
Qed.

Lemma step_in_step (ev : Event) (app : t) :
  capped ev -> is_delete_last ev = false ->
  in_step app /\ window_capped app -> in_step (step ev app).
Proof.
  unfold in_step, window_capped. intros Hev Hnot [Heq Hcap]. destruct ev; cbn [step].
  - unfold map_clicked, MapWidget.on_map_clicked.
    destruct (MapWidget.edit_mode (map_widget app)); [|done].
    unfold MapWidget.add_corner, MainWindow.on_corner_added. rewrite Heq.
    change MapWidget.MAX_CORNERS with MainWindow.MAX_CORNERS.
    destruct (MainWindow.MAX_CORNERS <=? length (MainWindow.corners (window app)))%nat;
      [done|].
    done.
  - unfold marker_moved, MapWidget.on_marker_moved, MapWidget.move_corner, on_corner_moved.
    cbn [fst snd map_widget window]. rewrite Heq.
    by destruct (_ && _).
  - unfold on_manual_corner_added.
    destruct (MainWindow.MAX_CORNERS <=? length (MainWindow.corners (window app)))%nat
      eqn:Hfull; [done|].
    cbn [window map_widget set_corners MainWindow.corners].
    rewrite add_corner_corners, Heq.
    change MapWidget.MAX_CORNERS with MainWindow.MAX_CORNERS. by rewrite Hfull.
  - done.
  - done.
  - done.
  - unfold on_clear_all. by destruct reply_yes.
  - unfold _sync_corners_from_editor. cbn [window map_widget set_corners MainWindow.corners].
    rewrite add_corners_corners. cbn [MapWidget.corners length List.app]. cbn in Hev.
    rewrite firstn_all2; [done|]. unfold MapWidget.MAX_CORNERS, MainWindow.MAX_CORNERS in *.
    lia.
  - unfold show_path, MapWidget.display_path. cbn [window map_widget].
    by destruct (length path <? 2)%nat.
  - done.
Qed.

Lemma run_in_step (events : list Event) (app : t) :
  Forall capped events -> Forall (fun ev => is_delete_last ev = false) events ->
  in_step app /\ window_capped app -> in_step (run events app) /\ window_capped (run events app).
Proof.
  revert app. induction events as [|ev events IH]; intros app Hcapped Hnot Happ; [done|].
  inversion Hcapped; subst. inversion Hnot; subst. cbn. apply IH; try done.
  split; [by apply step_in_step|]. apply step_window_capped; [done|]. apply Happ.
Qed.






Lemma length_markers_clear_paths (m : MapWidget.t) :
  length (MapWidget.markers (MapWidget.clear_paths m))
  = (length (MapWidget.markers m) + length (MapWidget.corners m))%nat.
Proof. cbn. by rewrite length_app, length_imap. Qed.



End AppFacts.

(* ------------------------------------------------------------------------- *)
(** ** The parameter panel and the window behind it *)
(* ------------------------------------------------------------------------- *)

Module ParameterPanelFacts.
Import ParameterPanel.

Lemma deliver_agree (kv : Setting) (pw : Parameters * MainWindow.t) :
  agree pw -> agree (deliver kv pw).
Proof.
  destruct pw as [p w]. unfold agree, deliver, update_parameter. cbn [fst snd].
  intros (Ha & Hs & Hg & Hsp & Hy & Hsub & Hr & Halg & Hvt).
  destruct p, kv; cbn in *; repeat split; done.
Qed.

Lemma deliver_turn_radius (kv : Setting) (pw : Parameters * MainWindow.t) :
  MainWindow.turn_radius (MainWindow.flight_params (deliver kv pw).2)
  = MainWindow.turn_radius (MainWindow.flight_params pw.2).
Proof. destruct pw as [p w]. by destruct kv. Qed.

Lemma fold_deliver_agree (settings : list Setting) (pw : Parameters * MainWindow.t) :
  agree pw -> agree (fold_left (fun pw kv => deliver kv pw) settings pw).
Proof.
  revert pw. induction settings as [|kv settings IH]; intros pw Hpw; [done|].
  cbn [fold_left]. apply IH. by apply deliver_agree.
Qed.

Lemma fold_deliver_turn_radius (settings : list Setting) (pw : Parameters * MainWindow.t) :
  MainWindow.turn_radius
    (MainWindow.flight_params (fold_left (fun pw kv => deliver kv pw) settings pw).2)
  = MainWindow.turn_radius (MainWindow.flight_params pw.2).
Proof.
  revert pw. induction settings as [|kv settings IH]; intros pw; [done|].
  cbn [fold_left]. by rewrite IH, deliver_turn_radius.
Qed.



Lemma in_algorithms (name : string) :
  In name algorithms ->
  forall w, MainWindow.current_algorithm w = name ->
            is_fallback (MainWindow.select_planner w) = false.
Proof.
  intros Hin w Hw. unfold MainWindow.select_planner. rewrite Hw.
  unfold algorithms in Hin. cbn [In] in Hin.
  destruct Hin as [<-|[<-|[<-|[<-|[<-|[<-|[<-|[]]]]]]]]; cbn;
    try done; by destruct (MainWindow.corners w) as [|? [|? ?]].
Qed.


End ParameterPanelFacts.

(* ------------------------------------------------------------------------- *)
(** ** The polygon editor: deleting a selection, exporting and importing *)
(* ------------------------------------------------------------------------- *)

Module PolygonEditorMore.
Import PolygonEditor.

Lemma import_loop_all (cs acc : list LatLon) :
  import_loop (map Some cs) acc = acc ++ cs.
Proof.
  revert acc. induction cs as [|c cs IH]; intros acc; cbn.
  - by rewrite app_nil_r.
  - by rewrite IH, <- app_assoc.
Qed.




(** *** Deleting the selected rows *)

Lemma keep_from_app (k : nat) (rows : list Z) (l1 l2 : list LatLon) :
  keep_from k rows (l1 ++ l2)
  = keep_from k rows l1 ++ keep_from (k + length l1) rows l2.
Proof.
  revert k. induction l1 as [|c l1 IH]; intros k; cbn [keep_from length app].
  - by rewrite Nat.add_0_r.
  - rewrite IH. replace (S k + length l1)%nat with (k + S (length l1))%nat by lia.
    by destruct (bool_decide _).
Qed.

Lemma keep_from_ext (k : nat) (rows rows' : list Z) (cs : list LatLon) :
  (forall i, (k <= i < k + length cs)%nat -> Z.of_nat i ∈ rows <-> Z.of_nat i ∈ rows') ->
  keep_from k rows cs = keep_from k rows' cs.
Proof.
  revert k. induction cs as [|c cs IH]; intros k Hagree; [done|].
  cbn [keep_from]. rewrite (IH (S k)).
  - assert (Z.of_nat k ∈ rows <-> Z.of_nat k ∈ rows') as Hk
      by (apply Hagree; cbn [length]; lia).
    by rewrite (bool_decide_ext (Z.of_nat k ∈ rows) (Z.of_nat k ∈ rows') Hk).
  - intros i Hi. apply Hagree. cbn [length]. lia.
Qed.

Lemma keep_from_none (k : nat) (rows : list Z) (cs : list LatLon) :
  (forall i, (k <= i < k + length cs)%nat -> Z.of_nat i ∉ rows) ->
  keep_from k rows cs = cs.
Proof.
  revert k. induction cs as [|c cs IH]; intros k Hnone; [done|].
  cbn [keep_from]. rewrite bool_decide_eq_false_2 by (apply Hnone; cbn [length]; lia).
  f_equal. apply IH. intros i Hi. apply Hnone. cbn [length]. lia.
Qed.

(** Removing one row when every other selected row is above the list or
    below the removed one. *)
Lemma remove_highest (d : Z) (ds : list Z) (cs : list LatLon) :
  Forall (fun x => (x < d)%Z) ds ->
  unselected ds (corners (remove_corner d (with_corners cs (init 0))))
  = unselected (d :: ds) cs.
Proof.
  intros Hbelow. rewrite Forall_forall in Hbelow.
  unfold remove_corner, unselected. cbn [corners with_corners].
  destruct ((0 <=? d) && (d <? Z.of_nat (length cs)))%Z eqn:Hrange.
  - apply andb_true_iff in Hrange as [H0 Hlt].
    apply Z.leb_le in H0. apply Z.ltb_lt in Hlt.
    set (n := Z.to_nat d). assert (n < length cs)%nat as Hn by lia.
    destruct (lookup_lt_is_Some_2 cs n Hn) as [c Hc].
    cbn [corners with_corners]. rewrite delete_take_drop.
    transitivity (keep_from 0 (d :: ds) (take n cs ++ c :: drop (S n) cs));
      [|by rewrite take_drop_middle].
    rewrite !keep_from_app. cbn [keep_from].
    rewrite length_take, Nat.min_l by lia. cbn [Nat.add].
    rewrite bool_decide_eq_true_2 by (subst n; rewrite Z2Nat.id by lia; apply elem_of_cons; by left).
    f_equal.
    + apply keep_from_ext. intros i Hi. rewrite length_take in Hi.
      rewrite elem_of_cons. split; [tauto|]. intros [Heq|]; [|done]. lia.
    + rewrite !keep_from_none; [done|..].
      * intros i Hi. rewrite elem_of_cons. intros [Heq|Hin]; [lia|].
        apply Hbelow in Hin. lia.
      * intros i Hi Hin. apply Hbelow in Hin. lia.
  - apply keep_from_ext. intros i Hi. rewrite elem_of_cons.
    split; [tauto|]. intros [Heq|]; [|done].
    apply andb_false_iff in Hrange as [H0|Hlt];
      [apply Z.leb_gt in H0|apply Z.ltb_ge in Hlt]; lia.
Qed.

Lemma corners_remove_corner (d : Z) (e : t) :
  corners (remove_corner d e) = corners (remove_corner d (with_corners (corners e) (init 0))).
Proof. unfold remove_corner. cbn [corners with_corners]. by destruct (_ && _). Qed.

Lemma fold_remove_descending (ds : list Z) (e : t) :
  StronglySorted (fun a b => (b < a)%Z) ds ->
  corners (fold_left (fun e index => remove_corner index e) ds e)
  = unselected ds (corners e).
Proof.
  intros Hsorted. revert e. induction Hsorted as [|d ds Hsorted IH Hbelow]; intros e.
  - cbn. unfold unselected. symmetry. apply keep_from_none.
    intros i _. apply not_elem_of_nil.
  - cbn [fold_left]. rewrite IH, corners_remove_corner. by apply remove_highest.
Qed.

Lemma strongly_sorted_reverse {A} (R : relation A) (l : list A) :
  StronglySorted R l -> StronglySorted (flip R) (reverse l).
Proof.
  induction 1 as [|x l Hl IH Hx]; [constructor|].
  rewrite reverse_cons. apply StronglySorted_app_2; [|done|repeat constructor].
  intros x1 x2 Hx1 Hx2. apply list_elem_of_singleton in Hx2 as ->.
  rewrite Forall_forall in Hx. apply Hx. by apply elem_of_reverse.
Qed.

Lemma strictly_sorted (l : list Z) :
  StronglySorted Z.le l -> NoDup l -> StronglySorted Z.lt l.
Proof.
  induction 1 as [|x l Hl IH Hx]; intros Hnodup; [constructor|].
  apply NoDup_cons in Hnodup as [Hnotin Hnodup]. constructor; [by apply IH|].
  rewrite Forall_forall in *. intros y Hy. specialize (Hx y Hy).
  assert (x <> y) by (intros ->; done). lia.
Qed.

Lemma rows_descending_sorted (rows : list Z) :
  StronglySorted (fun a b => (b < a)%Z) (rows_descending rows).
Proof.
  unfold rows_descending.
  apply (strongly_sorted_reverse Z.lt). apply strictly_sorted.
  - apply (StronglySorted_merge_sort Z.le).
  - rewrite merge_sort_Permutation. apply NoDup_remove_dups.
Qed.

Lemma elem_of_rows_descending (rows : list Z) (x : Z) :
  x ∈ rows_descending rows <-> x ∈ rows.
Proof.
  unfold rows_descending.
  by rewrite elem_of_reverse, merge_sort_Permutation, elem_of_remove_dups.
Qed.


(** Adding corners one by one keeps the first [max_corners] of them. *)
Lemma add_corners_take (cs : list LatLon) (e : t) :
  (length (corners e) <= Z.to_nat (max_corners e))%nat ->
  corners (fold_left (fun e c => add_corner (fst c) (snd c) e) cs e)
  = take (Z.to_nat (max_corners e)) (corners e ++ cs)
  /\ max_corners (fold_left (fun e c => add_corner (fst c) (snd c) e) cs e)
     = max_corners e.
Proof.
  revert e. induction cs as [|[lat lon] cs IH]; intros e Hlen.
  - cbn [fold_left]. rewrite app_nil_r. split; [|done]. by rewrite take_ge.
  - cbn [fold_left fst snd]. unfold add_corner at 2 4, at_cap.
    destruct (Z.leb_spec (max_corners e) (Z.of_nat (length (corners e)))) as [Hcap|Hroom].
    + destruct (IH e Hlen) as [-> ->]. split; [|done].
      assert (length (corners e) = Z.to_nat (max_corners e)) as Hfull by lia.
      by rewrite !take_app_le by lia.
    + destruct (IH (with_corners (corners e ++ [(lat, lon)]) e)) as [-> ->].
      * cbn [with_corners corners max_corners]. rewrite length_app. cbn [length]. lia.
      * cbn [with_corners corners max_corners]. by rewrite <- app_assoc.
Qed.


End PolygonEditorMore.

(* ------------------------------------------------------------------------- *)
(** ** Exporting the waypoints *)
(* ------------------------------------------------------------------------- *)

Module WaypointExportFacts.
Import WaypointExport.

Lemma endswith_refl (s : string) : endswith s s = true.
Proof. destruct s; cbn; by rewrite ?Ascii.eqb_refl, ?String.eqb_refl. Qed.

Lemma endswith_append (s suffix : string) : endswith (s ++ suffix)%string suffix = true.
Proof.
  induction s as [|a s IH]; [apply endswith_refl|].
  change (endswith (String a s ++ suffix)%string suffix)
    with (String.eqb (String a (s ++ suffix)%string) suffix
          || endswith (s ++ suffix)%string suffix).
  rewrite IH. apply orb_true_r.
Qed.

(** A list numbered by [enumerate]. *)
Lemma map_imap_seq {A B} (f : nat -> A -> B) (g : B -> nat) (l : list A) (k : nat) :
  (forall i a, g (f i a) = k + i)%nat ->
  map g (imap f l) = List.seq k (length l).
Proof.
  revert f k. induction l as [|a l IH]; intros f k Hf; [done|].
  cbn [imap map length List.seq]. rewrite Hf, Nat.add_0_r. f_equal.
  apply IH. intros i b. unfold compose. rewrite Hf. lia.
Qed.

Lemma map_imap_const {A B C} (f : nat -> A -> B) (g : B -> C) (c : C) (l : list A) :
  (forall i a, g (f i a) = c) ->
  map g (imap f l) = repeat c (length l).
Proof.
  revert f. induction l as [|a l IH]; intros f Hf; [done|].
  cbn [imap map length repeat]. rewrite Hf. f_equal.
  apply IH. intros i b. apply Hf.
Qed.

Lemma map_imap_id {A B} (f : nat -> A -> B) (g : B -> A) (l : list A) :
  (forall i a, g (f i a) = a) ->
  map g (imap f l) = l.
Proof.
  revert f. induction l as [|a l IH]; intros f Hf; [done|].
  cbn [imap map]. rewrite Hf. f_equal.
  apply IH. intros i b. apply Hf.
Qed.





End WaypointExportFacts.

(* ------------------------------------------------------------------------- *)
(** ** The obstacle dialog: copies, and editing an entry *)
(* ------------------------------------------------------------------------- *)

Module ObstacleManagerMore.
Import Store StoreFacts ObstacleManager.






End ObstacleManagerMore.
